(** * homebridge-smartthings: capability resolution, device synchronizer,
      token store

    A shallow embedding of [src/multiServiceAccessory.ts],
    [src/auth/tokenManager.ts], [src/auth/auth.ts] and the start-up and
    401 paths of [src/platform.ts].

    - [Resolver]: [addComponent] and [registerServiceIfMatchesCapabilities],
      with the two static tables and the in-place [sort] of the combination
      table.
    - [Synchronizer]: [refreshStatus], [sendCommands], [waitFor] and the
      polling timer, on an explicit event loop (macrotasks, promise jobs,
      interval timers, remote calls in flight).
    - [Tokens]: [TokenManager], [SmartThingsAuth] and the platform's use of
      them.
    - [Discovery]: [capabilitySupported], [processEvent] and the
      platform's [findSupportedCapability], [createAccessoryObject],
      [discoverDevices], [unregisterDevices], [withRetry] and
      [isNetworkError].
    - [Lifetime]: vocabulary for runs of the accessory from construction.
    - [OAuth]: [startAuthFlow], [handleOAuthCallback] and
      [exchangeCodeForTokens], on top of [Tokens].
    - [AirConditioner]: the conversions and command builders of
      [AirConditionerService]. *)

From stdpp Require Import base decidable option list strings gmap.
From Stdlib Require Import ZArith Lia Sorted.

Open Scope string_scope.
Open Scope list_scope.
Open Scope Z_scope.

(** ** Part 1.  Capability resolution *)

Module Resolver.

(** The service classes imported by [multiServiceAccessory.ts]; a service
    instance is identified here by its class. *)
Inductive ServiceKind : Set :=
  | DoorService | LockService | ZigbangSmartDoorlockService | SwitchService
  | WindowCoveringService | MotionService | LeakDetectorService
  | SmokeDetectorService | CarbonMonoxideDetectorService
  | OccupancySensorService | TemperatureService | HumidityService
  | LightSensorService | ContactSensorService
  | StatelessProgrammableSwitchService | Battery | ValveService
  | ACLightingService | AirConditionerService | FanSwitchLevelService
  | FanSpeedService | LightService | ThermostatService
  | TelevisionService | VolumeSliderService.

#[export] Instance ServiceKind_eq_dec : EqDecision ServiceKind.
Proof. solve_decision. Defined.

(** [new serviceConstructor(platform, accessory, componentId,
    allCapabilities, this, name, component)]: the fields of a
    [BaseService] that resolution decides. *)
Record BaseService : Set := mkService {
  kind : ServiceKind;
  componentId : string;
  capabilities : list string
}.

#[export] Instance BaseService_eq_dec : EqDecision BaseService.
Proof. solve_decision. Defined.

(** An element of [this.components]; the status tree is kept as its JSON
    text, [{}] at creation. *)
Record Component : Set := mkComponent {
  c_componentId : string;
  c_capabilities : list string;
  c_status : string
}.

(** An entry of [comboCapabilityMap]; [optionalCapabilities] is absent in
    all entries but the first. *)
Record ComboEntry : Set := mkCombo {
  e_capabilities : list string;
  e_optionalCapabilities : option (list string);
  e_service : ServiceKind
}.

#[export] Instance ComboEntry_eq_dec : EqDecision ComboEntry.
Proof. solve_decision. Defined.

(** [private static capabilityMap], in key order ([Object.keys] keeps
    insertion order for these keys). *)
Definition capabilityMap : list (string * ServiceKind) :=
  [ ("doorControl", DoorService);
    ("lock", LockService);
    ("absoluteweather46907.lock", ZigbangSmartDoorlockService);
    ("switch", SwitchService);
    ("windowShadeLevel", WindowCoveringService);
    ("windowShade", WindowCoveringService);
    ("motionSensor", MotionService);
    ("waterSensor", LeakDetectorService);
    ("smokeDetector", SmokeDetectorService);
    ("carbonMonoxideDetector", CarbonMonoxideDetectorService);
    ("presenceSensor", OccupancySensorService);
    ("temperatureMeasurement", TemperatureService);
    ("relativeHumidityMeasurement", HumidityService);
    ("illuminanceMeasurement", LightSensorService);
    ("contactSensor", ContactSensorService);
    ("button", StatelessProgrammableSwitchService);
    ("battery", Battery);
    ("valve", ValveService);
    ("samsungce.airConditionerLighting", ACLightingService) ].

(** [private static comboCapabilityMap], as declared. *)
Definition comboCapabilityMap : list ComboEntry :=
  [ mkCombo
      ["switch"; "airConditionerMode"; "airConditionerFanMode";
       "thermostatCoolingSetpoint"; "temperatureMeasurement"]
      (Some ["fanOscillationMode"; "relativeHumidityMeasurement";
             "custom.airConditionerOptionalMode"])
      AirConditionerService;
    mkCombo ["switch"; "fanSpeed"; "switchLevel"] None FanSwitchLevelService;
    mkCombo ["switch"; "fanSpeed"] None FanSpeedService;
    mkCombo ["switch"; "switchLevel"] None LightService;
    mkCombo ["switch"; "colorControl"] None LightService;
    mkCombo ["switch"; "colorTemperature"] None LightService;
    mkCombo ["switch"; "valve"] None ValveService;
    mkCombo ["temperatureMeasurement"; "thermostatMode";
             "thermostatHeatingSetpoint"; "thermostatCoolingSetpoint"]
      None ThermostatService;
    mkCombo ["temperatureMeasurement"; "thermostatHeatingSetpoint"]
      None ThermostatService;
    mkCombo ["windowShade"; "windowShadeLevel"] None WindowCoveringService;
    mkCombo ["windowShade"; "switchLevel"] None WindowCoveringService ].

(** *** [Array.prototype.sort]

    The comparator of [addComponent] never answers 0, so the language leaves
    the order of equal-sized entries to the engine.  Node's engine sorts an
    array of fewer than 64 elements by finding the run that starts the array
    (reversing it when it strictly descends) and inserting the remaining
    elements by binary search; it only ever tests [order < 0]. *)
Section ArraySort.
Context {A : Type} (comparefn : A → A → Z).

(** Length of the run starting [prev :: l], after [prev]. *)
Fixpoint runAfter (descending : bool) (prev : A) (l : list A) : nat :=
  match l with
  | [] => 0%nat
  | x :: l' =>
      if Bool.eqb (bool_decide (comparefn x prev < 0)) descending
      then S (runAfter descending x l')
      else 0%nat
  end.

Definition countAndMakeRun (l : list A) : list A * list A :=
  match l with
  | x0 :: x1 :: l' =>
      let descending := bool_decide (comparefn x1 x0 < 0) in
      let n := S (S (runAfter descending x1 l')) in
      let run := take n l in
      (if descending then reverse run else run, drop n l)
  | _ => (l, [])
  end.

(** Binary search for the slot of [pivot] in [sorted[left..right)]. *)
Fixpoint searchSlot (fuel : nat) (pivot : A) (sorted : list A)
    (left right : nat) : nat :=
  match fuel with
  | O => left
  | S fuel' =>
      if bool_decide (left < right)%nat then
        let mid := (left + (right - left) / 2)%nat in
        match sorted !! mid with
        | Some e =>
            if bool_decide (comparefn pivot e < 0)
            then searchSlot fuel' pivot sorted left mid
            else searchSlot fuel' pivot sorted (mid + 1)%nat right
        | None => left
        end
      else left
  end.

Fixpoint binaryInsertionSort (sorted rest : list A) : list A :=
  match rest with
  | [] => sorted
  | pivot :: rest' =>
      let k := searchSlot (S (length sorted)) pivot sorted 0 (length sorted) in
      binaryInsertionSort (take k sorted ++ pivot :: drop k sorted) rest'
  end.

Definition arraySort (l : list A) : list A :=
  let '(run, rest) := countAndMakeRun l in binaryInsertionSort run rest.
End ArraySort.

(** [(a, b) => a.capabilities.length > b.capabilities.length ? -1 : 1] *)
Definition comboCompare (a b : ComboEntry) : Z :=
  if bool_decide (length (e_capabilities b) < length (e_capabilities a))%nat
  then -1 else 1.

Definition sortCombo : list ComboEntry → list ComboEntry :=
  arraySort comboCompare.

(** [sort] works in place on the static table: the table a call of
    [addComponent] meets is the declared one sorted by every earlier call. *)
Definition comboTableAfter (calls : nat) : list ComboEntry :=
  Nat.iter calls sortCombo comboCapabilityMap.

(** JavaScript's [=== true] and [!== false] on an optional boolean setting. *)
Definition isTrue (o : option bool) : bool :=
  match o with Some true => true | _ => false end.
Definition notFalse (o : option bool) : bool :=
  match o with Some false => false | _ => true end.

(** The settings of [platform.config] read by [addComponent]. *)
Record Config : Set := mkConfig {
  enableTelevisionService : option bool;
  removeLegacySwitchForTV : option bool;
  registerVolumeSlider : option bool;
  ExposeACDisplayLight : bool
}.

(** The statics of [TelevisionService] and [VolumeSliderService] used by
    [addComponent].  Both classes live in [src/services/], outside the
    sources at hand, so their tables and predicates are parameters;
    [isTelevisionDevice] is the verdict on the accessory's own device. *)
Record TvStatics : Type := mkTvStatics {
  getTvCapabilities : list string;
  isTelevisionDevice : bool;
  getVolumeSliderCapabilities : list string;
  supportsVolumeSlider : list string → bool
}.

(** [l.includes(e)] *)
Definition includes (l : list string) (e : string) : bool :=
  bool_decide (e ∈ l).

(** The part of a [MultiServiceAccessory] that [addComponent] writes. *)
Record Accessory : Set := mkAccessory {
  components : list Component;
  services : list BaseService
}.

Section AddComponent.
Context (tv : TvStatics) (config : Config).

(** [registerServiceIfMatchesCapabilities]: the new [this.services] and
    the capabilities still to cover. *)
Definition registerServiceIfMatchesCapabilities
    (svcs : list BaseService) (cid : string)
    (capabilitiesToCover caps optionalCapabilities : list string)
    (serviceConstructor : ServiceKind) : list BaseService * list string :=
  if negb (forallb (includes capabilitiesToCover) caps) then
    (svcs, capabilitiesToCover)
  else
    let allCapabilities :=
      caps ++ filter (λ e, e ∈ capabilitiesToCover) optionalCapabilities in
    (svcs ++ [mkService serviceConstructor cid allCapabilities],
     filter (λ e, e ∉ allCapabilities) capabilitiesToCover).

(** The block guarded by [isTelevisionEnabled && componentId === 'main'
    && this.isTelevisionDevice()]. *)
Definition televisionBlock (svcs : list BaseService) (cid : string)
    (caps capabilitiesToCover : list string)
    : list BaseService * list string :=
  if notFalse (enableTelevisionService config)
     && bool_decide (cid = "main") && isTelevisionDevice tv then
    let tvCapabilities := filter (λ cap, cap ∈ caps) (getTvCapabilities tv) in
    if bool_decide (0 < length tvCapabilities)%nat then
      let svcs := svcs ++ [mkService TelevisionService cid tvCapabilities] in
      let capabilitiesToCover :=
        filter (λ cap, cap ∉ tvCapabilities) capabilitiesToCover in
      let capabilitiesToCover :=
        if isTrue (removeLegacySwitchForTV config)
           && includes tvCapabilities "switch"
        then capabilitiesToCover
        else if includes tvCapabilities "switch"
        then capabilitiesToCover ++ ["switch"]
        else capabilitiesToCover in
      if isTrue (registerVolumeSlider config)
         && bool_decide (cid = "main") && supportsVolumeSlider tv caps then
        let volumeSliderCapabilities :=
          filter (λ cap, cap ∈ caps) (getVolumeSliderCapabilities tv) in
        if bool_decide (0 < length volumeSliderCapabilities)%nat then
          (svcs ++ [mkService VolumeSliderService cid volumeSliderCapabilities],
           filter (λ cap, cap ∉ volumeSliderCapabilities) capabilitiesToCover)
        else (svcs, capabilitiesToCover)
      else (svcs, capabilitiesToCover)
    else (svcs, capabilitiesToCover)
  else (svcs, capabilitiesToCover).

(** [comboCapabilityMap.sort(...).forEach(entry => ...)], on the sorted
    table. *)
Definition comboStage (cid : string) (sorted : list ComboEntry)
    (st : list BaseService * list string) : list BaseService * list string :=
  foldl (λ st entry,
           registerServiceIfMatchesCapabilities st.1 cid st.2
             (e_capabilities entry)
             (default [] (e_optionalCapabilities entry))
             (e_service entry))
        st sorted.

(** [Object.keys(capabilityMap).forEach(capability => ...)]. *)
Definition singleStage (cid : string)
    (st : list BaseService * list string) : list BaseService * list string :=
  foldl (λ st entry,
           if bool_decide (entry.1 = "samsungce.airConditionerLighting")
              && negb (ExposeACDisplayLight config)
           then st
           else registerServiceIfMatchesCapabilities st.1 cid st.2
                  [entry.1] [] entry.2)
        st capabilityMap.

(** [addComponent(componentId, capabilities)], given the current content
    of the static combination table; returns the table as the call leaves
    it and the accessory. *)
Definition addComponent (table : list ComboEntry) (acc : Accessory)
    (cid : string) (caps : list string) : list ComboEntry * Accessory :=
  let component := mkComponent cid caps "{}" in
  let comps := components acc ++ [component] in
  let st := televisionBlock (services acc) cid caps caps in
  let sorted := sortCombo table in
  let st := comboStage cid sorted st in
  let st := singleStage cid st in
  (sorted, mkAccessory comps st.1).

(** The services a call pushes onto [this.services]. *)
Definition registered (table : list ComboEntry) (acc : Accessory)
    (cid : string) (caps : list string) : list BaseService :=
  drop (length (services acc)) (services (addComponent table acc cid caps).2).
End AddComponent.

(** *** Vocabulary for the properties of resolution *)

(** No capability is held by two services of the list. *)
Definition pairwiseDisjoint (l : list BaseService) : Prop :=
  ∀ i j s t, i ≠ j → l !! i = Some s → l !! j = Some t →
    ∀ c, c ∈ capabilities s → c ∉ capabilities t.

(** The same, leaving the Television service aside. *)
Definition pairwiseDisjointBesideTv (l : list BaseService) : Prop :=
  ∀ i j s t, i ≠ j → l !! i = Some s → l !! j = Some t →
    kind s ≠ TelevisionService → kind t ≠ TelevisionService →
    ∀ c, c ∈ capabilities s → c ∉ capabilities t.

(** What the Television service may share with a service of the two
    tables: nothing but [switch], and only when the legacy switch is kept. *)
Definition tvSharesOnlySwitch (config : Config) (l : list BaseService) : Prop :=
  ∀ s t c, s ∈ l → t ∈ l → kind s = TelevisionService →
    kind t ≠ TelevisionService → kind t ≠ VolumeSliderService →
    c ∈ capabilities s → c ∈ capabilities t →
    c = "switch" ∧ isTrue (removeLegacySwitchForTV config) = false.

(** The invariant of [addComponent] between two registrations: [new] are
    the services pushed so far, [cover] is [capabilitiesToCover]. *)
Record Resolving (config : Config) (declared : list string)
    (new : list BaseService) (cover : list string) : Prop := mkResolving {
  res_cover : cover ⊆ declared;
  res_sub : ∀ s, s ∈ new → capabilities s ⊆ declared;
  res_fresh : ∀ s c, s ∈ new → kind s ≠ TelevisionService →
                c ∈ capabilities s → c ∉ cover;
  res_disj : pairwiseDisjointBesideTv new;
  res_tv : ∀ s c, s ∈ new → kind s = TelevisionService →
             c ∈ capabilities s → c ∈ cover →
             c = "switch" ∧ isTrue (removeLegacySwitchForTV config) = false;
  res_shared : tvSharesOnlySwitch config new
}.


Definition plainConfig : Config := mkConfig None None None false.
Definition noTv : TvStatics := mkTvStatics [] false [] (λ _, false).
Definition emptyAccessory : Accessory := mkAccessory [] [].

(** A television as [addComponent] reads it: [switch] and
    [samsungvd.mediaInputSource] are the two names it looks up in
    [tvCapabilities]. *)
Definition aTelevision : TvStatics :=
  mkTvStatics ["switch"; "samsungvd.mediaInputSource"] true
    ["audioVolume"; "audioMute"]
    (λ caps, includes caps "audioVolume").

End Resolver.

(** ** Part 2.  The device synchronizer *)

Module Synchronizer.

(** [new Command(capability, command, args)] *)
Record Command : Set := mkCommand {
  capability : string;
  command : string;
  args : list string
}.

#[export] Instance Command_eq_dec : EqDecision Command.
Proof. solve_decision. Defined.

(** The mutable fields of a [MultiServiceAccessory] read and written by
    [refreshStatus], [sendCommands] and the polling timer.  [components]
    pairs each [componentId] with its status tree (as JSON text).  An
    assignment to a field is written [set_field v d]; there is none for
    [lastCommandCompleted], which the class initialises and never assigns. *)
Record Device : Type := mkDevice {
  components : list (string * string);
  online : bool;
  deviceStatusTimestamp : Z;
  failureCount : Z;
  giveUpTime : Z;
  commandInProgress : bool;
  lastCommandCompleted : Z;
  statusQueryInProgress : bool;
  lastStatusResult : bool
}.

Definition set_online v (d : Device) : Device :=
  let '(mkDevice comps _ ts fc gu cip lcc sqip lsr) := d in
  mkDevice comps v ts fc gu cip lcc sqip lsr.
Definition set_deviceStatusTimestamp v (d : Device) : Device :=
  let '(mkDevice comps on _ fc gu cip lcc sqip lsr) := d in
  mkDevice comps on v fc gu cip lcc sqip lsr.
Definition set_failureCount v (d : Device) : Device :=
  let '(mkDevice comps on ts _ gu cip lcc sqip lsr) := d in
  mkDevice comps on ts v gu cip lcc sqip lsr.
Definition set_giveUpTime v (d : Device) : Device :=
  let '(mkDevice comps on ts fc _ cip lcc sqip lsr) := d in
  mkDevice comps on ts fc v cip lcc sqip lsr.
Definition set_commandInProgress v (d : Device) : Device :=
  let '(mkDevice comps on ts fc gu _ lcc sqip lsr) := d in
  mkDevice comps on ts fc gu v lcc sqip lsr.
Definition set_statusQueryInProgress v (d : Device) : Device :=
  let '(mkDevice comps on ts fc gu cip lcc _ lsr) := d in
  mkDevice comps on ts fc gu cip lcc v lsr.
Definition set_lastStatusResult v (d : Device) : Device :=
  let '(mkDevice comps on ts fc gu cip lcc sqip _) := d in
  mkDevice comps on ts fc gu cip lcc sqip v.

(** The field initialisers of the class. *)
Definition newDevice (comps : list (string * string)) : Device :=
  mkDevice comps true 0 0 0 false 0 false true.

(** [isOnline()] *)
Definition isOnline (d : Device) : bool := online d.

(** A caller's promise is named by a number. *)
Definition CallId : Set := nat.
Bind Scope nat_scope with CallId.

(** Requests handed to [axInstance]. *)
Inductive Remote : Set :=
  | PostCommands (c : CallId) (commandBody : list Command)
  | GetStatus (c : CallId)
  | GetHealth (atConstruction : bool).

#[export] Instance Remote_eq_dec : EqDecision Remote.
Proof. solve_decision. Defined.

(** The [then] callbacks that [refreshStatus] and [sendCommands] attach to
    the promise of [waitFor]; each runs as a promise job. *)
Inductive Job : Set :=
  | ThenPostCommands (c : CallId) (commandBody : list Command)
  | ThenGetStatus (c : CallId)
  | ThenResolveLastResult (c : CallId).

(** The conditions handed to [waitFor]. *)
Inductive Condition : Set :=
  | NoCommandInProgress      (* () => !this.commandInProgress *)
  | NoStatusQueryInProgress. (* () => !this.statusQueryInProgress *)

(** What can be observed from outside the accessory. *)
Inductive Obs : Set :=
  | ReqStart (r : Remote)
  | ReqEnd (r : Remote) (ok : bool)
  | Resolved (c : CallId) (v : bool)
  | GetValueCalled
  | PollSkipped.

#[export] Instance Obs_eq_dec : EqDecision Obs.
Proof. solve_decision. Defined.

(** The accessory inside Node's event loop: the clock, the queue of promise
    jobs, the live 250 ms intervals of [waitFor] (condition and the job
    their promise releases), the requests in flight, the number of polling
    intervals installed, and the observations so far. *)
Record World : Type := mkWorld {
  dev : Device;
  webhookToken : option string;
  now : Z;
  jobs : list Job;
  waiters : list (Condition * Job);
  inflight : list Remote;
  pollers : nat;
  log : list Obs
}.

(** A field of the world rewritten by [f]. *)
Definition on_dev (f : Device → Device) (w : World) : World :=
  let '(mkWorld d wh t js ws rs ps lg) := w in
  mkWorld (f d) wh t js ws rs ps lg.
Definition on_now (f : Z → Z) (w : World) : World :=
  let '(mkWorld d wh t js ws rs ps lg) := w in
  mkWorld d wh (f t) js ws rs ps lg.
Definition on_jobs (f : list Job → list Job) (w : World) : World :=
  let '(mkWorld d wh t js ws rs ps lg) := w in
  mkWorld d wh t (f js) ws rs ps lg.
Definition on_waiters (f : list (Condition * Job) → list (Condition * Job))
    (w : World) : World :=
  let '(mkWorld d wh t js ws rs ps lg) := w in
  mkWorld d wh t js (f ws) rs ps lg.
Definition on_inflight (f : list Remote → list Remote) (w : World) : World :=
  let '(mkWorld d wh t js ws rs ps lg) := w in
  mkWorld d wh t js ws (f rs) ps lg.
Definition on_pollers (f : nat → nat) (w : World) : World :=
  let '(mkWorld d wh t js ws rs ps lg) := w in
  mkWorld d wh t js ws rs (f ps) lg.
Definition on_log (f : list Obs → list Obs) (w : World) : World :=
  let '(mkWorld d wh t js ws rs ps lg) := w in
  mkWorld d wh t js ws rs ps (f lg).

Definition observe (o : Obs) (w : World) : World :=
  on_log (λ lg, lg ++ [o]) w.
Definition request (r : Remote) (w : World) : World :=
  observe (ReqStart r) (on_inflight (λ rs, rs ++ [r]) w).

(** The constructor: fields initialised, [checkDeviceHealth()] already
    called, so its GET is in flight. *)
Definition newWorld (webhook : option string) (t0 : Z)
    (comps : list (string * string)) : World :=
  mkWorld (newDevice comps) webhook t0 [] [] [GetHealth true] 0
    [ReqStart (GetHealth true)].

Definition holds (cond : Condition) (d : Device) : bool :=
  match cond with
  | NoCommandInProgress => negb (commandInProgress d)
  | NoStatusQueryInProgress => negb (statusQueryInProgress d)
  end.

(** [this.waitFor(condition).then(job)].  [waitFor] tests the condition
    synchronously.  When it holds, the promise [waitFor] returns is already
    fulfilled, and [then] queues [job] as a promise job: it runs once the
    synchronous code of the current task has finished, never inside the
    call.  Otherwise a 250 ms interval is installed that tests the condition
    again each time it fires. *)
Definition waitFor (cond : Condition) (job : Job) (w : World) : World :=
  if holds cond (dev w) then on_jobs (λ js, js ++ [job]) w
  else on_waiters (λ ws, ws ++ [(cond, job)]) w.

(** [refreshStatus()], up to the return of the promise executor. *)
Definition refreshStatus (c : CallId) (w : World) : World :=
  if bool_decide (now w - deviceStatusTimestamp (dev w) > 5000) then
    if statusQueryInProgress (dev w) then
      waitFor NoStatusQueryInProgress (ThenResolveLastResult c) w
    else
      let w := on_dev (set_statusQueryInProgress true) w in
      let w := on_dev (set_failureCount 0) w in
      waitFor NoCommandInProgress (ThenGetStatus c) w
  else observe (Resolved c true) w.

(** [sendCommands(commands)], up to the return of the promise executor. *)
Definition sendCommands (c : CallId) (commands : list Command) (w : World)
    : World :=
  waitFor NoCommandInProgress (ThenPostCommands c commands) w.

(** [forceNextStatusRefresh()] *)
Definition forceNextStatusRefresh (w : World) : World :=
  on_dev (set_deviceStatusTimestamp 0) w.

(** JavaScript truthiness of [WebhookToken && WebhookToken !== '']. *)
Definition hasWebhookToken (w : World) : bool :=
  match webhookToken w with
  | Some s => negb (bool_decide (s = EmptyString))
  | None => false
  end.

(** [startPollingState(pollSeconds, ...)]: whether an interval is set. *)
Definition startPollingState (pollSeconds : Z) (w : World) : World :=
  if hasWebhookToken w then w
  else if bool_decide (pollSeconds > 0) then on_pollers S w
  else w.

(** What code outside the accessory (the services) calls on it. *)
Inductive Call : Set :=
  | RefreshStatus (c : CallId)
  | SendCommands (c : CallId) (commands : list Command)
  | ForceNextStatusRefresh
  | StartPollingState (pollSeconds : Z).

Definition call (k : Call) (w : World) : World :=
  match k with
  | RefreshStatus c => refreshStatus c w
  | SendCommands c commands => sendCommands c commands w
  | ForceNextStatusRefresh => forceNextStatusRefresh w
  | StartPollingState s => startPollingState s w
  end.

(** The bodies of the [then] callbacks. *)
Definition runJob (w : World) (j : Job) : World :=
  match j with
  | ThenPostCommands c body =>
      request (PostCommands c body) (on_dev (set_commandInProgress true) w)
  | ThenGetStatus c =>
      request (GetStatus c) (on_dev (set_lastStatusResult true) w)
  | ThenResolveLastResult c =>
      observe (Resolved c (lastStatusResult (dev w))) w
  end.

(** The promise-job checkpoint at the end of every task.  The jobs here
    queue no further jobs. *)
Definition drain (w : World) : World :=
  foldl runJob (on_jobs (λ _, []) w) (jobs w).

(** [this.components.forEach(...)] of the status handler, on the two
    fields it writes: a component found in the response takes its status
    from it and stamps the device with [Date.now()]. *)
Definition refreshed (componentsStatus : gmap string string) (t : Z)
    (comps : list (string * string)) (stamp : Z)
    : list (string * string) * Z :=
  foldl (λ acc comp,
           match componentsStatus !! comp.1 with
           | Some st => (acc.1 ++ [(comp.1, st)], t)
           | None => (acc.1 ++ [comp], acc.2)
           end)
        ([], stamp) comps.

Definition updateComponents (componentsStatus : gmap string string) (t : Z)
    (d : Device) : Device :=
  let '(mkDevice comps on ts fc gu cip lcc sqip lsr) := d in
  let r := refreshed componentsStatus t comps ts in
  mkDevice r.1 on r.2 fc gu cip lcc sqip lsr.

(** [.then(res => ...)] and [.catch(error => ...)] of the status GET. *)
Definition statusSettled (c : CallId) (res : option (gmap string string))
    (w : World) : World :=
  match res with
  | Some componentsStatus =>
      let w := on_dev (updateComponents componentsStatus (now w)) w in
      let w := on_dev (set_statusQueryInProgress false) w in
      observe (Resolved c true) w
  | None =>
      let w := on_dev (λ d, set_failureCount (failureCount d + 1) d) w in
      let w :=
        if bool_decide (failureCount (dev w) >= 5) then
          on_dev (set_online false) (on_dev (set_giveUpTime (now w)) w)
        else w in
      let w := on_dev (set_statusQueryInProgress false) w in
      let w := on_dev (set_lastStatusResult false) w in
      observe (Resolved c false) w
  end.

(** [.then(() => ...)] and [.catch(error => ...)] of the command POST. *)
Definition postSettled (c : CallId) (ok : bool) (w : World) : World :=
  if ok then
    let w := on_dev (set_deviceStatusTimestamp 0) w in
    let w := on_dev (set_commandInProgress false) w in
    observe (Resolved c true) w
  else
    let w := on_dev (set_commandInProgress false) w in
    observe (Resolved c false) w.

(** The health GET: [checkDeviceHealth] for the one of the constructor, the
    handler inside the polling timer for a probe (which has no [catch]). *)
Definition healthSettled (atConstruction : bool) (state : option string)
    (w : World) : World :=
  if atConstruction then
    match state with
    | Some s => on_dev (set_online (bool_decide (s = "ONLINE"))) w
    | None => on_dev (set_online false) w
    end
  else
    match state with
    | Some s =>
        if bool_decide (s = "ONLINE") then
          on_dev (set_failureCount 0)
            (on_dev (set_giveUpTime 0) (on_dev (set_online true) w))
        else w
    | None => w
    end.

(** The callback given to [setInterval] in [startPollingState]; [getValue]
    stands for what the service's callback calls on the accessory. *)
Definition pollTick (getValue : list Call) (w : World) : World :=
  if commandInProgress (dev w)
     || bool_decide (now w - lastCommandCompleted (dev w) < 20 * 1000) then
    observe PollSkipped w
  else if online (dev w) then
    foldl (λ w k, call k w) (observe GetValueCalled w) getValue
  else if bool_decide (giveUpTime (dev w) > 0)
          && bool_decide (now w - giveUpTime (dev w) > 10 * 60 * 1000) then
    request (GetHealth false) w
  else w.

(** The callback of the interval of [waitFor]. *)
Definition intervalFires (i : nat) (w : World) : World :=
  match waiters w !! i with
  | Some (cond, job) =>
      if holds cond (dev w) then
        on_jobs (λ js, js ++ [job]) (on_waiters (delete i) w)
      else w
  | None => w
  end.

Fixpoint removeFirst (r : Remote) (l : list Remote) : list Remote :=
  match l with
  | [] => []
  | x :: l' => if bool_decide (x = r) then l' else x :: removeFirst r l'
  end.

Definition settle (r : Remote) (w : World) : World :=
  on_inflight (removeFirst r) w.

(** One task of the event loop: code outside the accessory calling it any
    number of times in a row without yielding ([Turn]), a timer firing, a
    response arriving, or the clock moving on. *)
Inductive Task : Type :=
  | Turn (calls : list Call)
  | IntervalFires (i : nat)
  | PostSettles (c : CallId) (commandBody : list Command) (ok : bool)
  | StatusSettles (c : CallId) (res : option (gmap string string))
  | HealthSettles (atConstruction : bool) (state : option string)
  | PollTick (getValue : list Call)
  | Elapse (ms : Z).

Definition handle (t : Task) (w : World) : World :=
  match t with
  | Turn calls => foldl (λ w k, call k w) w calls
  | IntervalFires i => intervalFires i w
  | PostSettles c body ok =>
      let r := PostCommands c body in
      if bool_decide (r ∈ inflight w)
      then postSettled c ok (observe (ReqEnd r ok) (settle r w)) else w
  | StatusSettles c res =>
      let r := GetStatus c in
      if bool_decide (r ∈ inflight w)
      then statusSettled c res (observe (ReqEnd r (bool_decide (is_Some res)))
                                  (settle r w))
      else w
  | HealthSettles b state =>
      let r := GetHealth b in
      if bool_decide (r ∈ inflight w)
      then healthSettled b state
             (observe (ReqEnd r (bool_decide (is_Some state))) (settle r w))
      else w
  | PollTick getValue =>
      if bool_decide (0 < pollers w)%nat then pollTick getValue w else w
  | Elapse ms => on_now (λ t, t + Z.max 0 ms) w
  end.

Definition step (w : World) (t : Task) : World := drain (handle t w).

Definition run (ts : list Task) (w : World) : World := foldl step w ts.

(** Requests seen leaving, by kind. *)
Definition isStatusStart (o : Obs) : bool :=
  match o with ReqStart (GetStatus _) => true | _ => false end.
Definition isPostStart (o : Obs) : bool :=
  match o with ReqStart (PostCommands _ _) => true | _ => false end.
Definition isPost (r : Remote) : bool :=
  match r with PostCommands _ _ => true | _ => false end.
Definition isStatus (r : Remote) : bool :=
  match r with GetStatus _ => true | _ => false end.

Definition statusCalls (w : World) : nat :=
  length (List.filter isStatusStart (log w)).
Definition postsInFlight (w : World) : nat :=
  length (List.filter isPost (inflight w)).

Definition postCalls (w : World) : nat :=
  length (List.filter isPostStart (log w)).

Definition isFetchJob (j : Job) : bool :=
  match j with ThenGetStatus _ => true | _ => false end.

(** Status fetches that have been decided and have not settled: their GET
    is in flight, or their callback is queued ([js]) or held by a waiter. *)
Definition fetchesPending (w : World) (js : list Job) : nat :=
  (length (List.filter isStatus (inflight w))
   + length (List.filter isFetchJob js)
   + length (List.filter (λ x : Condition * Job, isFetchJob x.2) (waiters w)))%nat.

(** How far the failure counter can get: at most one fetch is pending, the
    counter is 0 while it is, and 0 or 1 otherwise; no offline time is ever
    recorded. *)
Definition countsToOne (w : World) (js : list Job) : Prop :=
  0 ≤ failureCount (dev w) ≤ 1
  ∧ giveUpTime (dev w) = 0
  ∧ (statusQueryInProgress (dev w) = false → fetchesPending w js = 0%nat)
  ∧ (fetchesPending w js ≤ 1)%nat
  ∧ (fetchesPending w js = 1%nat → failureCount (dev w) = 0).

(** The outcome of the status GET that settled last; [true], the initial
    [lastStatusResult], before any has. *)
Definition lastFetchResult (lg : list Obs) : bool :=
  foldl (λ acc o, match o with ReqEnd (GetStatus _) ok => ok | _ => acc end)
        true lg.

(** What [lastStatusResult] holds: [true] while a status GET is in flight,
    and the outcome of the GET that settled last once no fetch is pending. *)
Definition resultKept (w : World) (js : list Job) : Prop :=
  (length (List.filter isStatus (inflight w)) = 1%nat →
   lastStatusResult (dev w) = true)
  ∧ (fetchesPending w js = 0%nat →
     lastStatusResult (dev w) = lastFetchResult (log w)).

(** Between two tasks, with neither a command nor a status query under
    way. *)
Definition quiet (w : World) : Prop :=
  jobs w = []
  ∧ commandInProgress (dev w) = false
  ∧ statusQueryInProgress (dev w) = false.

(** The cached status is older than the 5 seconds of [refreshStatus]. *)
Definition stale (w : World) : Prop :=
  now w - deviceStatusTimestamp (dev w) > 5000.

(** A status refresh whose GET is rejected, then some time passing. *)
Definition failedFetch (round : CallId * Z) : list Task :=
  [Turn [RefreshStatus round.1]; StatusSettles round.1 None; Elapse round.2].

(** An accessory with one component, created at some date of 2023; and the
    same once its health check has answered. *)
Definition aWorld : World := newWorld None 1700000000000 [("main", "{}")].
Definition anOnlineWorld : World :=
  step aWorld (HealthSettles true (Some "ONLINE")).
Definition anOfflineWorld : World :=
  step aWorld (HealthSettles true (Some "OFFLINE")).
Definition switchOn : list Command := [mkCommand "switch" "on" []].
Definition switchOff : list Command := [mkCommand "switch" "off" []].

(** A run in which a second call arrives while the GET of the first is in
    flight, that GET is rejected, and a third call fetches again, with
    success, before the waiter of the second call fires. *)
Definition laterFetchFirst : list Task :=
  [ HealthSettles true (Some "ONLINE");
    Turn [RefreshStatus 1]; Turn [RefreshStatus 2]; StatusSettles 1 None;
    Turn [RefreshStatus 3]; StatusSettles 3 (Some {["main" := "{on}"]}) ].

End Synchronizer.

(** ** Part 3.  Token store, re-authentication and start-up *)

Module Tokens.

(** [TokenData].  The two tokens and [expires_in] may be missing at run
    time (the record is the result of an object spread), hence [option]. *)
Record TokenData : Set := mkTokenData {
  access_token : option string;
  refresh_token : option string;
  expires_in : option Z;
  expires_at : Z;
  refresh_token_expires_at : Z;
  installed_app_id : option string;
  location_id : option string
}.

#[export] Instance TokenData_eq_dec : EqDecision TokenData.
Proof. solve_decision. Defined.

(** A property of the object that the token endpoint answers: not there,
    there with [null], or there with a value. *)
Inductive Field (A : Set) : Set :=
  | Missing
  | Null
  | Value (a : A).
Arguments Missing {A}.
Arguments Null {A}.
Arguments Value {A} a.

(** [Partial<TokenData>] as the token endpoint answers it; the two expiry
    stamps are always recomputed by [updateTokens]. *)
Record PartialTokenData : Set := mkPartial {
  p_access_token : Field string;
  p_refresh_token : Field string;
  p_expires_in : Field Z;
  p_installed_app_id : Field string;
  p_location_id : Field string
}.

(** [smartthings_tokens.json] *)
Inductive TokenFile : Set :=
  | NoFile
  | Unparsable
  | Stored (t : TokenData).

(** JavaScript truthiness of an optional string. *)
Definition truthy (o : option string) : bool :=
  match o with
  | Some s => negb (bool_decide (s = EmptyString))
  | None => false
  end.

(** [x || null] *)
Definition orNull (o : option string) : option string :=
  if truthy o then o else None.

(** [{...a, ...b}] on one field: a property of [b] overwrites that of [a],
    also when it holds [null]. *)
Definition spread {A : Set} (a : option A) (b : Field A) : option A :=
  match b with
  | Missing => a
  | Null => None
  | Value v => Some v
  end.

(** [x || 0] *)
Definition orZero (x : Field Z) : Z :=
  match x with Value v => v | _ => 0 end.

Definition REFRESH_BEFORE_EXPIRY : Z := 5 * 60 * 1000.
Definition REFRESH_CHECK_INTERVAL : Z := 60 * 1000.

(** Who asked for a token exchange. *)
Inductive Origin : Set :=
  | FromMonitor                 (* TokenManager.checkAndRefreshTokens *)
  | FromInterceptor (req : nat) (* the 401 handler, for request [req] *)
  | FromInitialize.             (* SmartThingsAuth.initialize *)

#[export] Instance Origin_eq_dec : EqDecision Origin.
Proof. solve_decision. Defined.

(** Where [didFinishLaunching] has got to. *)
Inductive Phase : Set :=
  | Constructed
  | Recovered        (* crash loop found: returned after the recovery *)
  | Initializing     (* awaiting the refresh inside [initialize] *)
  | Discovering      (* device discovery entered *)
  | WaitingForAuth   (* 'Waiting for SmartThings authentication ...' *)
  | AuthInvalid.     (* 'Authentication failed or token invalid ...' *)

(** The platform's token side: the [TokenManager] fields, the token file,
    whether the disk refuses writes and removals, the clock, the calls of
    [startAuthFlow], the token exchanges in flight (with the refresh token
    posted) and their total number, the requests re-sent by the 401 handler
    (with the bearer token used), and the requests it rejected. *)
Record Platform : Set := mkPlatform {
  tokenData : option TokenData;
  tokenFile : TokenFile;
  refreshTimer : bool;
  diskFails : bool;
  now : Z;
  authFlows : nat;
  exchanges : list (Origin * string);
  exchangeCount : nat;
  retries : list (nat * string);
  rejected : list nat;
  phase : Phase
}.

Definition set_tokenData v (p : Platform) : Platform :=
  mkPlatform v (tokenFile p) (refreshTimer p) (diskFails p) (now p)
    (authFlows p) (exchanges p) (exchangeCount p) (retries p) (rejected p)
    (phase p).
Definition set_tokenFile v (p : Platform) : Platform :=
  mkPlatform (tokenData p) v (refreshTimer p) (diskFails p) (now p)
    (authFlows p) (exchanges p) (exchangeCount p) (retries p) (rejected p)
    (phase p).
Definition set_refreshTimer v (p : Platform) : Platform :=
  mkPlatform (tokenData p) (tokenFile p) v (diskFails p) (now p)
    (authFlows p) (exchanges p) (exchangeCount p) (retries p) (rejected p)
    (phase p).
Definition set_now v (p : Platform) : Platform :=
  mkPlatform (tokenData p) (tokenFile p) (refreshTimer p) (diskFails p) v
    (authFlows p) (exchanges p) (exchangeCount p) (retries p) (rejected p)
    (phase p).
Definition set_exchanges v (p : Platform) : Platform :=
  mkPlatform (tokenData p) (tokenFile p) (refreshTimer p) (diskFails p) (now p)
    (authFlows p) v (exchangeCount p) (retries p) (rejected p) (phase p).
Definition set_exchangeCount v (p : Platform) : Platform :=
  mkPlatform (tokenData p) (tokenFile p) (refreshTimer p) (diskFails p) (now p)
    (authFlows p) (exchanges p) v (retries p) (rejected p) (phase p).
Definition set_retries v (p : Platform) : Platform :=
  mkPlatform (tokenData p) (tokenFile p) (refreshTimer p) (diskFails p) (now p)
    (authFlows p) (exchanges p) (exchangeCount p) v (rejected p) (phase p).
Definition set_rejected v (p : Platform) : Platform :=
  mkPlatform (tokenData p) (tokenFile p) (refreshTimer p) (diskFails p) (now p)
    (authFlows p) (exchanges p) (exchangeCount p) (retries p) v (phase p).
Definition set_phase v (p : Platform) : Platform :=
  mkPlatform (tokenData p) (tokenFile p) (refreshTimer p) (diskFails p) (now p)
    (authFlows p) (exchanges p) (exchangeCount p) (retries p) (rejected p) v.

(** *** [TokenManager] *)

(** [saveTokens()]: a failed write is logged and swallowed. *)
Definition saveTokens (p : Platform) : Platform :=
  match tokenData p with
  | Some t => if diskFails p then p else set_tokenFile (Stored t) p
  | None => p
  end.

(** [loadTokens()], given [config.oauth_access_token] and
    [config.oauth_refresh_token]. *)
Definition loadTokens (oauth_access oauth_refresh : option string)
    (p : Platform) : Platform :=
  match tokenFile p with
  | Stored t => set_tokenData (Some t) p
  | Unparsable => p
  | NoFile =>
      if truthy oauth_access && truthy oauth_refresh then
        saveTokens
          (set_tokenData
             (Some (mkTokenData oauth_access oauth_refresh (Some 86400)
                      (now p + 86400 * 1000)
                      (now p + 30 * 24 * 60 * 60 * 1000) None None)) p)
      else p
  end.

(** [new TokenManager(...)]: [loadTokens()] then [startRefreshMonitor()]. *)
Definition newPlatform (file : TokenFile) (oauth_access oauth_refresh
    : option string) (disk_fails : bool) (t0 : Z) : Platform :=
  set_refreshTimer true
    (loadTokens oauth_access oauth_refresh
       (mkPlatform None file false disk_fails t0 0 [] 0 [] [] Constructed)).

(** [updateTokens(tokenData)] *)
Definition updateTokens (d : PartialTokenData) (p : Platform) : Platform :=
  let old := tokenData p in
  let merged :=
    mkTokenData
      (spread (old ≫= access_token) (p_access_token d))
      (spread (old ≫= refresh_token) (p_refresh_token d))
      (spread (old ≫= expires_in) (p_expires_in d))
      (now p + orZero (p_expires_in d) * 1000)
      (now p + 30 * 24 * 60 * 60 * 1000)
      (spread (old ≫= installed_app_id) (p_installed_app_id d))
      (spread (old ≫= location_id) (p_location_id d)) in
  saveTokens (set_tokenData (Some merged) p).

Definition getAccessToken (p : Platform) : option string :=
  orNull (tokenData p ≫= access_token).

Definition getRefreshToken (p : Platform) : option string :=
  orNull (tokenData p ≫= refresh_token).

Definition isTokenValid (p : Platform) : bool :=
  match tokenData p with
  | None => false
  | Some t => bool_decide (now p < expires_at t - REFRESH_BEFORE_EXPIRY)
  end.

Definition isRefreshTokenValid (p : Platform) : bool :=
  match tokenData p with
  | None => false
  | Some t =>
      bool_decide (now p < refresh_token_expires_at t - REFRESH_BEFORE_EXPIRY)
  end.

(** [clearTokens()]: [inr] when the removal throws. *)
Definition clearTokens (p : Platform) : Platform + Platform :=
  match tokenFile p with
  | NoFile => inl p
  | _ =>
      if diskFails p then inr p
      else inl (set_refreshTimer false
                  (set_tokenData None (set_tokenFile NoFile p)))
  end.

(** *** [SmartThingsAuth] *)

(** [startAuthFlow()]: only its being called is recorded. *)
Definition startAuthFlow (p : Platform) : Platform :=
  mkPlatform (tokenData p) (tokenFile p) (refreshTimer p) (diskFails p) (now p)
    (S (authFlows p)) (exchanges p) (exchangeCount p) (retries p) (rejected p)
    (phase p).

(** [refreshTokens(refreshToken)] up to its [await axios.post(...)]: the
    exchange leaves for the token endpoint.  Nothing else is written. *)
Definition refreshTokens (o : Origin) (refreshToken : string) (p : Platform)
    : Platform :=
  set_exchangeCount (S (exchangeCount p))
    (set_exchanges (exchanges p ++ [(o, refreshToken)]) p).

(** [handleCrashLoopRecovery()] *)
Definition handleCrashLoopRecovery (p : Platform) : Platform :=
  match clearTokens p with
  | inl p' => startAuthFlow p'
  | inr p' => startAuthFlow p'
  end.

(** The rest of [didFinishLaunching] once [initialize()] has answered. *)
Definition afterInitialize (authFlowStarted : bool) (p : Platform)
    : Platform :=
  if negb authFlowStarted && bool_decide (is_Some (getAccessToken p))
  then set_phase Discovering p
  else if authFlowStarted then set_phase WaitingForAuth p
  else set_phase AuthInvalid p.

(** [initialize()] up to its [await], followed by the rest of
    [didFinishLaunching] when it does not have to wait. *)
Definition initialize (p : Platform) : Platform :=
  if negb (bool_decide (is_Some (getAccessToken p))) || negb (isTokenValid p)
  then
    if isRefreshTokenValid p then
      match getRefreshToken p with
      | Some currentRefreshToken =>
          set_phase Initializing
            (refreshTokens FromInitialize currentRefreshToken p)
      | None => afterInitialize true (startAuthFlow p)
      end
    else afterInitialize true (startAuthFlow p)
  else afterInitialize false p.

(** *** Crash-loop manager *)

Inductive CrashErrorType : Set :=
  | DEVICE_HEALTH_FAILURE | API_INIT_FAILURE | UNKNOWN_API_FAILURE.

#[export] Instance CrashErrorType_eq_dec : EqDecision CrashErrorType.
Proof. solve_decision. Defined.

Record CrashRecord : Set := mkCrash {
  timestamp : Z;
  errorKind : CrashErrorType
}.

Record CrashLoopConfig : Set := mkCrashConfig {
  maxCrashes : nat;                       (* N *)
  timeWindowMs : Z;                       (* W *)
  errorKinds : option (list CrashErrorType)
}.

(** Modelled from the spec: [src/auth/CrashLoopManager.ts] is missing.  The
    record is kept as a rolling window: entries older than W are pruned. *)
Definition window (cfg : CrashLoopConfig) (t : Z) (records : list CrashRecord)
    : list CrashRecord :=
  filter (λ r, t - timestamp r ≤ timeWindowMs cfg) records.

(** Modelled from the spec: the entries [isCrashLoopDetected] counts are
    those of the pruned window, optionally filtered by kind. *)
Definition counted (cfg : CrashLoopConfig) (t : Z)
    (records : list CrashRecord) : list CrashRecord :=
  match errorKinds cfg with
  | Some kinds => filter (λ r, errorKind r ∈ kinds) (window cfg t records)
  | None => window cfg t records
  end.

(** Modelled from the spec: [CrashLoopManager.isCrashLoopDetected] is
    missing.  True iff the pruned window contains at least N entries,
    optionally filtered by kind. *)
Definition isCrashLoopDetected (cfg : CrashLoopConfig) (t : Z)
    (records : list CrashRecord) : bool :=
  bool_decide (maxCrashes cfg ≤ length (counted cfg t records))%nat.

(** Modelled from the spec: [CrashLoopManager.recordPotentialCrash] is
    missing.  Appends an entry and prunes entries older than W. *)
Definition recordPotentialCrash (cfg : CrashLoopConfig) (t : Z)
    (kind : CrashErrorType) (records : list CrashRecord) : list CrashRecord :=
  window cfg t (records ++ [mkCrash t kind]).

(** *** The platform *)

(** The error handler of the response interceptor, for request [req] whose
    [_retry] flag is [retried], up to its [await]. *)
Definition unauthorized (req : nat) (retried : bool) (p : Platform)
    : Platform :=
  if retried then set_rejected (rejected p ++ [req]) p
  else
    match getRefreshToken p with
    | None => set_rejected (rejected p ++ [req]) (startAuthFlow p)
    | Some refreshToken => refreshTokens (FromInterceptor req) refreshToken p
    end.

(** [checkAndRefreshTokens()] up to its [await]. *)
Definition checkAndRefreshTokens (p : Platform) : Platform :=
  match tokenData p with
  | None => p
  | Some t =>
      if negb (truthy (refresh_token t)) then p
      else if bool_decide (expires_at t - now p ≤ REFRESH_BEFORE_EXPIRY) then
        match getRefreshToken p with
        | Some currentRefreshToken =>
            refreshTokens FromMonitor currentRefreshToken p
        | None => startAuthFlow p
        end
      else p
  end.

(** What follows the [await] of a token exchange, by who awaited it;
    [None] is a rejected exchange. *)
Definition exchangeSettled (o : Origin) (res : option PartialTokenData)
    (p : Platform) : Platform :=
  match o, res with
  | FromMonitor, Some newTokenData => updateTokens newTokenData p
  | FromMonitor, None => startAuthFlow p
  | FromInterceptor req, Some _ =>
      match getAccessToken p with
      | Some newToken => set_retries (retries p ++ [(req, newToken)]) p
      | None => set_rejected (rejected p ++ [req]) p
      end
  | FromInterceptor req, None =>
      set_rejected (rejected p ++ [req]) (startAuthFlow p)
  | FromInitialize, Some _ => afterInitialize false p
  | FromInitialize, None => afterInitialize true (startAuthFlow p)
  end.

Fixpoint removeOrigin (o : Origin) (l : list (Origin * string))
    : list (Origin * string) :=
  match l with
  | [] => []
  | x :: l' => if bool_decide (x.1 = o) then l' else x :: removeOrigin o l'
  end.

(** The body of the [didFinishLaunching] handler. *)
Definition didFinishLaunching (cfg : CrashLoopConfig)
    (records : list CrashRecord) (p : Platform) : Platform :=
  if isCrashLoopDetected cfg (now p) records then
    set_phase Recovered (handleCrashLoopRecovery p)
  else initialize p.

Inductive Task : Set :=
  | DidFinishLaunching (cfg : CrashLoopConfig) (records : list CrashRecord)
  | MonitorTick
  | Unauthorized (req : nat) (retried : bool)
  | ExchangeSettles (o : Origin) (res : option PartialTokenData)
  | Elapse (ms : Z).

Definition step (p : Platform) (t : Task) : Platform :=
  match t with
  | DidFinishLaunching cfg records => didFinishLaunching cfg records p
  | MonitorTick => if refreshTimer p then checkAndRefreshTokens p else p
  | Unauthorized req retried => unauthorized req retried p
  | ExchangeSettles o res =>
      if bool_decide (o ∈ (exchanges p).*1)
      then exchangeSettled o res
             (set_exchanges (removeOrigin o (exchanges p)) p)
      else p
  | Elapse ms => set_now (now p + Z.max 0 ms) p
  end.

Definition run (ts : list Task) (p : Platform) : Platform := foldl step p ts.

(** A stored token pair whose access token expires within the five-minute
    margin, and a platform started on it; three crashes inside a window of
    ten minutes. *)
Definition aTokenData : TokenData :=
  mkTokenData (Some "access-1") (Some "refresh-1") (Some 86400)
    1700000100000 1702592000000 None None.
Definition aPlatform : Platform :=
  newPlatform (Stored aTokenData) None None false 1700000000000.
Definition newTokens : PartialTokenData :=
  mkPartial (Value "access-2") (Value "refresh-2") (Value 86400) Missing
    Missing.
Definition aCrashConfig : CrashLoopConfig := mkCrashConfig 3 600000 None.
Definition threeCrashes : list CrashRecord :=
  [ mkCrash 1699999700000 API_INIT_FAILURE;
    mkCrash 1699999800000 DEVICE_HEALTH_FAILURE;
    mkCrash 1699999900000 API_INIT_FAILURE ].

End Tokens.

(** ** Part 4.  Discovery, registration and event routing *)

Module Discovery.
Import Resolver.

(** A device of the discovery listing, as far as the platform reads it:
    [deviceId], and for each component its [id] and the [id]s of its
    capabilities. *)
Record Device : Set := mkDeviceInfo {
  deviceId : string;
  d_components : list (string * list string)
}.

(** The statics of [TelevisionService] and [VolumeSliderService] for a whole
    listing: the tables are the same for every device, the television
    verdict is per device. *)
Record TvClasses : Type := mkTvClasses {
  tvCapabilityTable : list string;
  volumeCapabilityTable : list string;
  volumeSupport : list string → bool;
  isTelevision : Device → bool
}.

Definition staticsOf (cls : TvClasses) (device : Device) : TvStatics :=
  mkTvStatics (tvCapabilityTable cls) (isTelevision cls device)
    (volumeCapabilityTable cls) (volumeSupport cls).

(** JavaScript truthiness of the result of [Array.prototype.find] on
    strings: found, and not the empty string. *)
Definition foundTruthy (o : option string) : bool :=
  match o with
  | Some s => negb (bool_decide (s = EmptyString))
  | None => false
  end.

(** [MultiServiceAccessory.capabilitySupported(capability)] *)
Definition capabilitySupported (cls : TvClasses) (capability : string) : bool :=
  if foundTruthy (List.find (λ c, bool_decide (c = capability))
                    (map fst capabilityMap)) then true
  else if includes (tvCapabilityTable cls) capability then true
  else if includes (volumeCapabilityTable cls) capability then true
  else false.

(** [findSupportedCapability(device)] *)
Definition findSupportedCapability (cls : TvClasses) (device : Device) : bool :=
  foldl (λ (found : bool) (component : string * list string),
           if negb found
              && bool_decide
                   (is_Some (List.find (capabilitySupported cls) component.2))
           then true else found)
        false (d_components device).

(** A [PlatformAccessory], as far as discovery reads it: its [UUID] and
    the device stored in its [context]. *)
Record PlatformAccessory : Set := mkPlatformAccessory {
  UUID : string;
  context_device : Device
}.

(** [createAccessoryObject(device, accessory)]: a new
    [MultiServiceAccessory], then [addComponent] for each component of
    [device] in turn.  The television verdict is asked of the device in
    the accessory's context; the static combination table is threaded
    through. *)
Definition createAccessoryObject (cls : TvClasses) (config : Config)
    (table : list ComboEntry) (device : Device) (accessory : PlatformAccessory)
    : list ComboEntry * Accessory :=
  foldl (λ (st : list ComboEntry * Accessory) (component : string * list string),
           addComponent (staticsOf cls (context_device accessory)) config
             st.1 st.2 component.1 component.2)
        (table, emptyAccessory) (d_components device).

(** Where a service of the two tables comes from: an entry of the
    combination table, all of whose required capabilities it holds,
    together with optional ones of that entry only; or an entry of the
    single-capability table, whose capability is the one it holds. *)
Definition fromTables (k : ServiceKind) (all : list string) : Prop :=
  (∃ e, e ∈ comboCapabilityMap ∧ k = e_service e
        ∧ e_capabilities e ⊆ all
        ∧ all ⊆ e_capabilities e ++ default [] (e_optionalCapabilities e))
  ∨ (∃ entry, entry ∈ capabilityMap ∧ k = entry.2 ∧ all = [entry.1]).

(** [MultiServiceAccessory.processEvent(event)]: the service whose
    [processEvent] is called, if any. *)
Definition processEvent (svcs : list BaseService)
    (ev_componentId ev_capability : string) : option BaseService :=
  List.find (λ s, bool_decide (componentId s = ev_componentId)
                  && foundTruthy
                       (List.find (λ c, bool_decide (c = ev_capability))
                          (capabilities s)))
            svcs.

(** The platform fields that discovery reads and writes: the cached
    accessories, the accessory objects made (with the UUID of their
    accessory), the static combination table, and the arguments of the
    calls of [api.registerPlatformAccessories] and
    [api.unregisterPlatformAccessories]. *)
Record Platform : Set := mkPlatform {
  accessories : list PlatformAccessory;
  accessoryObjects : list (string * Accessory);
  comboTable : list ComboEntry;
  registerCalls : list PlatformAccessory;
  unregisterCalls : list (list PlatformAccessory)
}.

(** [accessoriesToRemove] of [unregisterDevices(devices, all)]. *)
Definition accessoriesToRemove (cached : list PlatformAccessory)
    (devices : list Device) (all : bool) : list PlatformAccessory :=
  flat_map (λ accessory,
              (if all then [accessory] else [])
              ++ (if negb (bool_decide
                             (is_Some (List.find
                                         (λ device,
                                            bool_decide
                                              (deviceId device = UUID accessory))
                                         devices)))
                  then [accessory] else []))
           cached.

(** [unregisterDevices(devices, all)] *)
Definition unregisterDevices (devices : list Device) (all : bool)
    (p : Platform) : Platform :=
  let toRemove := accessoriesToRemove (accessories p) devices all in
  if bool_decide (0 < length toRemove)%nat then
    mkPlatform (accessories p) (accessoryObjects p) (comboTable p)
      (registerCalls p) (unregisterCalls p ++ [toRemove])
  else p.

(** One round of the loop of [discoverDevices(devices)]. *)
Definition discoverDevice (cls : TvClasses) (config : Config)
    (p : Platform) (device : Device) : Platform :=
  if findSupportedCapability cls device then
    match List.find (λ accessory, bool_decide (UUID accessory = deviceId device))
            (accessories p) with
    | Some existingAccessory =>
        let made :=
          createAccessoryObject cls config (comboTable p) device
            existingAccessory in
        mkPlatform (accessories p)
          (accessoryObjects p ++ [(UUID existingAccessory, made.2)])
          made.1 (registerCalls p) (unregisterCalls p)
    | None =>
        let accessory := mkPlatformAccessory (deviceId device) device in
        let made :=
          createAccessoryObject cls config (comboTable p) device accessory in
        mkPlatform (accessories p)
          (accessoryObjects p ++ [(UUID accessory, made.2)])
          made.1 (registerCalls p ++ [accessory]) (unregisterCalls p)
    end
  else p.

(** [discoverDevices(devices)] *)
Definition discoverDevices (cls : TvClasses) (config : Config)
    (devices : list Device) (p : Platform) : Platform :=
  foldl (discoverDevice cls config) p devices.

(** The part of [didFinishLaunching] that follows the listing. *)
Definition registerListing (cls : TvClasses) (config : Config)
    (unregisterAll : bool) (devices : list Device) (p : Platform) : Platform :=
  let p := if unregisterAll then unregisterDevices devices true p else p in
  let p := discoverDevices cls config devices p in
  unregisterDevices devices false p.

(** *** [withRetry] *)

(** What the platform reads of a thrown value. *)
Record JsError : Set := mkError {
  instanceofError : bool;
  code : option string;
  message : string
}.

(** [message.includes(pattern)] *)
Fixpoint containsText (pattern s : string) : bool :=
  String.prefix pattern s
  || match s with
     | EmptyString => false
     | String _ s' => containsText pattern s'
     end.

Definition networkErrorCodes : list string :=
  ["ENOTFOUND"; "ETIMEDOUT"; "ECONNREFUSED"; "ECONNRESET"; "EAI_AGAIN"].

(** [isNetworkError(error)] *)
Definition isNetworkError (e : JsError) : bool :=
  if instanceofError e then
    includes networkErrorCodes (default EmptyString (code e))
    || containsText "getaddrinfo" (message e)
    || containsText "timeout" (message e)
    || containsText "network" (message e)
  else false.

(** How one call of the operation ends. *)
Inductive Attempt (T : Type) : Type :=
  | Succeeds (v : T)
  | Fails (e : JsError).
Arguments Succeeds {T} v.
Arguments Fails {T} e.

(** The loop of [withRetry], from [attempt] on, with [remaining] rounds
    left; [operation k] is how the [k]-th call ends.  It answers what is
    returned ([inl]) or thrown ([inr], [None] for [undefined]), the number
    of calls made and the delays waited. *)
Fixpoint retryLoop {T} (operation : nat → Attempt T) (maxRetries : nat)
    (baseDelayMs : Z) (remaining attempt : nat) (lastError : option JsError)
    : (T + option JsError) * nat * list Z :=
  match remaining with
  | O => (inr lastError, 0%nat, [])
  | S remaining' =>
      match operation attempt with
      | Succeeds v => (inl v, 1%nat, [])
      | Fails e =>
          let isNetwork := isNetworkError e in
          if bool_decide (attempt < maxRetries)%nat && isNetwork then
            let delayMs := baseDelayMs * 2 ^ (Z.of_nat attempt - 1) in
            let '(r, n, ds) :=
              retryLoop operation maxRetries baseDelayMs remaining'
                (S attempt) (Some e) in
            (r, S n, delayMs :: ds)
          else if negb isNetwork then (inr (Some e), 1%nat, [])
          else
            let '(r, n, ds) :=
              retryLoop operation maxRetries baseDelayMs remaining'
                (S attempt) (Some e) in
            (r, S n, ds)
      end
  end.

(** [withRetry(operation, maxRetries, baseDelayMs)] *)
Definition withRetry {T} (operation : nat → Attempt T) (maxRetries : nat)
    (baseDelayMs : Z) : (T + option JsError) * nat * list Z :=
  retryLoop operation maxRetries baseDelayMs maxRetries 1 None.

(** The delays of [k] retries in a row: [baseDelayMs * 2^(attempt - 1)] for
    the attempts 1 to [k]. *)
Definition backoff (baseDelayMs : Z) (k : nat) : list Z :=
  (λ attempt, baseDelayMs * 2 ^ (Z.of_nat attempt - 1)) <$> seq 1 k.

(** The listing step of [didFinishLaunching]: [getOnlineDevices] under
    [withRetry(..., 3, 3000)].  [getOnlineDevices] calls
    [recordPotentialCrash(API_INIT_FAILURE)] each time its request fails,
    and the [catch] of [didFinishLaunching] calls it once more when the
    listing is given up.  Answers the listing, the kinds recorded and the
    delays waited. *)
Definition listDevices (getOnlineDevices : nat → Attempt (list Device))
    : option (list Device) * list Tokens.CrashErrorType * list Z :=
  let '(r, calls, ds) := withRetry getOnlineDevices 3 3000 in
  match r with
  | inl devices =>
      (Some devices, replicate (calls - 1) Tokens.API_INIT_FAILURE, ds)
  | inr _ => (None, replicate (S calls) Tokens.API_INIT_FAILURE, ds)
  end.

(** A listing used in examples: a lamp already cached, a television that is
    new, and a cached accessory whose device is gone. *)
Definition lamp : Device :=
  mkDeviceInfo "lamp-1" [("main", ["switch"; "switchLevel"])].
Definition television : Device :=
  mkDeviceInfo "tv-1"
    [("main", ["switch"; "samsungvd.mediaInputSource"; "audioVolume"])].
Definition someClasses : TvClasses :=
  mkTvClasses ["switch"; "samsungvd.mediaInputSource"]
    ["audioVolume"; "audioMute"] (λ caps, includes caps "audioVolume")
    (λ device, bool_decide (deviceId device = "tv-1")).
Definition goneAccessory : PlatformAccessory :=
  mkPlatformAccessory "gone-1"
    (mkDeviceInfo "gone-1" [("main", ["contactSensor"])]).
Definition cachedPlatform : Platform :=
  mkPlatform [mkPlatformAccessory "lamp-1" lamp; goneAccessory] []
    comboCapabilityMap [] [].
Definition networkDown : JsError :=
  mkError true (Some "ENOTFOUND") "getaddrinfo ENOTFOUND api.smartthings.com".
Definition badRequest : JsError :=
  mkError true None "Request failed with status code 400".
Definition alwaysDown : nat → Attempt (list Device) :=
  λ _, Fails networkDown.
Definition downThenRefused : nat → Attempt (list Device) :=
  λ attempt,
    match attempt with
    | 1%nat => Fails networkDown
    | _ => Fails badRequest
    end.

End Discovery.

(** ** Part 5.  The accessory over its lifetime: vocabulary *)

Module Lifetime.
Import Synchronizer.

Definition isGetValue (o : Obs) : bool :=
  match o with GetValueCalled => true | _ => false end.
Definition isProbeStart (o : Obs) : bool :=
  match o with ReqStart (GetHealth false) => true | _ => false end.
Definition isConstructionCheck (r : Remote) : bool :=
  match r with GetHealth true => true | _ => false end.
Definition isProbe (r : Remote) : bool :=
  match r with GetHealth false => true | _ => false end.

(** How often a polling tick has called [getValue], how often the timer has
    sent its recovery probe, and the status GETs, the health GETs of the
    constructor and the recovery probes in flight. *)
Definition getValueCalls (w : World) : nat :=
  length (List.filter isGetValue (log w)).
Definition healthProbes (w : World) : nat :=
  length (List.filter isProbeStart (log w)).
Definition statusInFlight (w : World) : nat :=
  length (List.filter isStatus (inflight w)).
Definition checksInFlight (w : World) : nat :=
  length (List.filter isConstructionCheck (inflight w)).
Definition probesInFlight (w : World) : nat :=
  length (List.filter isProbe (inflight w)).

(** What the properties of this part read from a world. *)
Definition frame (w : World) : bool * nat * nat * nat * nat :=
  (online (dev w), checksInFlight w, probesInFlight w, getValueCalls w,
   healthProbes w).

(** Whether a tick of the polling timer gets as far as [getValue]. *)
Definition polls (w : World) : bool :=
  bool_decide (0 < pollers w)%nat
  && negb (commandInProgress (dev w)
           || bool_decide (now w - lastCommandCompleted (dev w) < 20 * 1000))
  && online (dev w).

(** What the health GET of the constructor makes of its answer. *)
Definition answersOnline (state : option string) : bool :=
  match state with
  | Some s => bool_decide (s = "ONLINE")
  | None => false
  end.

(** What every run from construction keeps: the invariant of the failure
    counter, no promise job left between two tasks, no recovery probe sent
    or in flight, and at most the one health GET of the constructor. *)
Definition neverProbes (w : World) : Prop :=
  countsToOne w (jobs w) ∧ jobs w = []
  ∧ probesInFlight w = 0%nat ∧ healthProbes w = 0%nat
  ∧ (checksInFlight w ≤ 1)%nat.

(** A task other than the arrival of the answer to the health GET of the
    constructor. *)
Definition afterConstruction (t : Task) : Prop :=
  match t with HealthSettles true _ => False | _ => True end.

(** The status of a component after a response: the one in the response
    when it names the component, the old one otherwise. *)
Definition statusAfter (componentsStatus : gmap string string)
    (comp : string * string) : string * string :=
  (comp.1, default comp.2 (componentsStatus !! comp.1)).

(** An online accessory whose status was fetched a moment ago. *)
Definition aFreshWorld : World :=
  run [Turn [RefreshStatus 1]; StatusSettles 1 (Some {["main" := "{on}"]})]
    anOnlineWorld.

End Lifetime.

(** ** Part 6.  The authorization-code flow *)

Module OAuth.
Import Tokens.

(** [redirectUri.endsWith('/')] *)
Fixpoint endsWithSlash (s : string) : bool :=
  match s with
  | EmptyString => false
  | String c s' =>
      match s' with
      | EmptyString => bool_decide (s = "/")
      | String _ _ => endsWithSlash s'
      end
  end.

(** The redirect URI that [startAuthFlow] and [exchangeCodeForTokens] both
    build from [config.server_url]. *)
Definition redirectUri (server_url : string) : string :=
  (if endsWithSlash server_url then server_url else server_url +:+ "/")
  +:+ "oauth/callback".

Section Flow.
(** [config.server_url]; [blank s] stands for [s.trim() === ''], and
    [nonce k] for the [k]-th value that
    [crypto.randomBytes(32).toString('hex')] returns. *)
Context (server_url : option string) (blank : string → bool)
  (nonce : nat → string).

(** [SmartThingsAuth] with its token manager: the field [state], the
    authorization URLs printed so far (redirect URI and state), the code
    exchanges awaited (code and redirect URI), and the HTTP status written
    to each callback answered. *)
Record Auth : Set := mkAuth {
  platform : Platform;
  state : option string;
  printed : list (string * string);
  awaited : list (string * string);
  answered : list Z
}.

(** What [startAuthFlow()] writes besides being called. *)
Definition startAuthFlowWrites (s : Auth) : Auth :=
  match server_url with
  | Some url =>
      if truthy server_url && negb (blank url) then
        let fresh := nonce (length (printed s)) in
        mkAuth (platform s) (Some fresh)
          (printed s ++ [(redirectUri url, fresh)]) (awaited s) (answered s)
      else s
  | None => s
  end.

(** A task of the token side, with the writes of each [startAuthFlow()]
    it calls. *)
Definition tokenTask (t : Task) (s : Auth) : Auth :=
  let p' := step (platform s) t in
  Nat.iter (authFlows p' - authFlows (platform s)) startAuthFlowWrites
    (mkAuth p' (state s) (printed s) (awaited s) (answered s)).

Definition respond (status : Z) (s : Auth) : Auth :=
  mkAuth (platform s) (state s) (printed s) (awaited s)
    (answered s ++ [status]).

(** [handleOAuthCallback(query, res)] up to its [await], for a query whose
    [code] and [state] are given at most once. *)
Definition handleOAuthCallback (query_code query_state : option string)
    (s : Auth) : Auth :=
  if negb (truthy query_code) || negb (truthy query_state) then respond 500 s
  else if negb (bool_decide (query_state = state s)) then respond 500 s
  else
    match query_code, server_url with
    | Some code, Some url =>
        mkAuth (platform s) (state s) (printed s)
          (awaited s ++ [(code, redirectUri url)]) (answered s)
    | _, _ => respond 500 s
    end.

(** What follows the [await] of the [i]-th code exchange awaited; [None]
    is a rejected exchange. *)
Definition codeExchangeSettled (i : nat) (tokens : option PartialTokenData)
    (s : Auth) : Auth :=
  match awaited s !! i with
  | Some _ =>
      let s := mkAuth (platform s) (state s) (printed s)
                 (delete i (awaited s)) (answered s) in
      match tokens with
      | Some d =>
          respond 200
            (mkAuth (updateTokens d (platform s)) (state s) (printed s)
               (awaited s) (answered s))
      | None => respond 500 s
      end
  | None => s
  end.

Inductive Event : Set :=
  | TokenTask (t : Task)
  | CallbackArrives (query_code query_state : option string)
  | CodeExchangeSettles (i : nat) (tokens : option PartialTokenData).

Definition handle (s : Auth) (e : Event) : Auth :=
  match e with
  | TokenTask t => tokenTask t s
  | CallbackArrives c q => handleOAuthCallback c q s
  | CodeExchangeSettles i tokens => codeExchangeSettled i tokens s
  end.

Definition run (es : list Event) (s : Auth) : Auth := foldl handle s es.

(** [new SmartThingsAuth(...)] around a token manager just constructed. *)
Definition newAuth (p : Platform) : Auth := mkAuth p None [] [] [].

(** The state parameter of the authorization URL printed last. *)
Definition latestState (s : Auth) : option string :=
  snd <$> last (printed s).

(** Whether a callback is handed to the token endpoint. *)
Definition accepted (query_code query_state : option string) (s : Auth)
    : bool :=
  bool_decide (length (awaited (handleOAuthCallback query_code query_state s))
               = S (length (awaited s))).
(** Between two events [state] is the state parameter of the URL printed
    last, and a URL has only been printed with [server_url] set. *)
Definition settled (s : Auth) : Prop :=
  state s = latestState s ∧ (printed s ≠ [] → is_Some server_url).
End Flow.

(** A tunnel URL, two draws of the random source, and a platform whose
    refresh token the endpoint rejects. *)
Definition aServer : option string := Some "https://bridge.example.org".
Definition noBlank : string → bool := λ s, bool_decide (s = EmptyString).
Definition someNonce : nat → string :=
  λ k, match k with O => "5f1c" | 1%nat => "a2e9" | _ => "77b0" end.

(** The platform of the examples after a launch that found a crash loop:
    the tokens are cleared and one authorization URL is printed. *)
Definition anAuthorizing : Auth :=
  run aServer noBlank someNonce
    [TokenTask (DidFinishLaunching aCrashConfig threeCrashes)]
    (newAuth aPlatform).

(** The platform of the examples once the monitor's refresh has been
    rejected: the tokens are kept and one authorization URL is printed. *)
Definition afterRejectedRefresh : Auth :=
  run aServer noBlank someNonce
    [TokenTask MonitorTick; TokenTask (ExchangeSettles FromMonitor None)]
    (newAuth aPlatform).

End OAuth.

(** ** Part 7.  The air conditioner service *)

Module AirConditioner.
Import Synchronizer.

(** [TargetHeatingCoolingState] of HomeKit. *)
Inductive TargetState : Set := OFF | HEAT | COOL | AUTO.

(** [SwingMode] of HomeKit. *)
Inductive SwingMode : Set := SWING_DISABLED | SWING_ENABLED.

(** [levelToFanMode(level)], for the whole percentages of HomeKit's
    [RotationSpeed]. *)
Definition levelToFanMode (level : Z) : string :=
  if bool_decide (0 < level) && bool_decide (level < 25) then "low"
  else if bool_decide (25 < level) && bool_decide (level ≤ 50) then "medium"
  else if bool_decide (50 < level) && bool_decide (level ≤ 75) then "high"
  else if bool_decide (75 < level) then "turbo"
  else "auto".

(** [fanModeToLevel(fanMode)] *)
Definition fanModeToLevel (fanMode : string) : Z :=
  if bool_decide (fanMode = "low") then 25
  else if bool_decide (fanMode = "medium") then 50
  else if bool_decide (fanMode = "high") then 75
  else if bool_decide (fanMode = "turbo") then 100
  else 0.

(** [fanOscillationModeToSwingMode(fanOscillationMode)]; the [switch] has
    no default. *)
Definition fanOscillationModeToSwingMode (fanOscillationMode : string)
    : option SwingMode :=
  if bool_decide (fanOscillationMode = "all")
     || bool_decide (fanOscillationMode = "vertical") then Some SWING_ENABLED
  else if bool_decide (fanOscillationMode = "fixed") then Some SWING_DISABLED
  else None.

(** [airConditionerModeToTargetHeatingCoolingState(airConditionerMode)] *)
Definition airConditionerModeToTargetHeatingCoolingState
    (airConditionerMode : string) : TargetState :=
  if bool_decide (airConditionerMode = "dry")
     || bool_decide (airConditionerMode = "cool") then COOL
  else if bool_decide (airConditionerMode = "heat") then HEAT
  else if bool_decide (airConditionerMode = "auto") then AUTO
  else OFF.

(** [targetHeatingCoolingStateToAirConditionerMode(state)] *)
Definition targetHeatingCoolingStateToAirConditionerMode
    (targetHeatingCoolingState : TargetState) : option string :=
  match targetHeatingCoolingState with
  | AUTO => Some "auto"
  | COOL => Some "cool"
  | HEAT => Some "heat"
  | OFF => None
  end.

(** What the service reads of the status tree that [getDeviceStatus()]
    answers.  [switch.switch] and
    [airConditionerMode.airConditionerMode] are read without optional
    chaining: [None] says the attribute is not in the tree, so that reading
    its [value] throws a TypeError, as on the initial tree [{}]; otherwise
    the field holds the [value], [None] when it is undefined.
    [airConditionerFanMode.fanMode.value] is read with [?.], which answers
    undefined wherever the path ends. *)
Record AcStatus : Set := mkAcStatus {
  switchSwitch : option (option string);
  airConditionerMode : option (option string);
  fanMode : option string
}.

(** [getTargetHeatingCoolingState()], given what its [getDeviceStatus()]
    answers, [None] when that call throws; the result is [None] when the
    method throws, by that call or by a read of the tree. *)
Definition getTargetHeatingCoolingState (deviceStatus : option AcStatus)
    : option TargetState :=
  status ← deviceStatus;
  switchValue ← switchSwitch status;
  mode ← airConditionerMode status;
  let isOff := bool_decide (switchValue = Some "off") in
  Some match mode with
       | Some mode =>
           if isOff || bool_decide (mode = EmptyString) then OFF
           else airConditionerModeToTargetHeatingCoolingState mode
       | None => OFF
       end.

(** [setTargetHeatingCoolingState(value)]: the commands handed to
    [sendCommandsOrFail]. *)
Definition setTargetHeatingCoolingState (value : TargetState)
    : list Command :=
  match targetHeatingCoolingStateToAirConditionerMode value with
  | Some airConditionerMode =>
      [ mkCommand "switch" "on" [];
        mkCommand "airConditionerMode" "setAirConditionerMode"
          [airConditionerMode] ]
  | None => [mkCommand "switch" "off" []]
  end.

(** [setFanLevel(value)]: the command handed to [sendCommandsOrFail] and
    the flag [justSetFanToAuto] as the call leaves it. *)
Definition setFanLevel (value : Z) (justSetFanToAuto : bool)
    : list Command * bool :=
  let fanMode := levelToFanMode value in
  ([mkCommand "airConditionerFanMode" "setFanMode" [fanMode]],
   if bool_decide (fanMode = "auto") then true else justSetFanToAuto).

(** [setSwingMode(value)] *)
Definition setSwingMode (value : SwingMode) : list Command :=
  [mkCommand "fanOscillationMode" "setFanOscillationMode"
     [match value with SWING_ENABLED => "all" | SWING_DISABLED => "fixed" end]].

(** How a setter ends: it throws before anything is handed over, it
    returns without a call of [sendCommandsOrFail], or it hands commands to
    [sendCommandsOrFail]. *)
Inductive Sent : Set :=
  | Thrown
  | NoCommand
  | Handed (commands : list Command).

(** [setSwitchState(value)], given what its first [getDeviceStatus()]
    answers and what the one it asks for before turning off answers ([None]
    when the call throws): how it ends, and the flag [justSetFanToAuto]
    afterwards.  The first [await] is outside any [try]; the second read is
    inside one. *)
Definition setSwitchState (value : bool) (onEntry beforeOff : option AcStatus)
    (justSetFanToAuto : bool) : Sent * bool :=
  match getTargetHeatingCoolingState onEntry with
  | None => (Thrown, justSetFanToAuto)
  | Some heatingCoolingState =>
      let currentAirConditionerMode :=
        targetHeatingCoolingStateToAirConditionerMode heatingCoolingState in
      let airConditionerMode :=
        match heatingCoolingState with
        | OFF => Some "wind"
        | _ => currentAirConditionerMode
        end in
      if value then
        (Handed (mkCommand "switch" "on" []
                 :: match airConditionerMode with
                    | Some mode =>
                        if bool_decide (mode = EmptyString) then []
                        else [mkCommand "airConditionerMode"
                                "setAirConditionerMode" [mode]]
                    | None => []
                    end),
         justSetFanToAuto)
      else
        let fanMode := beforeOff ≫= fanMode in
        if justSetFanToAuto then (NoCommand, false)
        else if bool_decide (fanMode = Some "auto")
        then (NoCommand, justSetFanToAuto)
        else (Handed [mkCommand "switch" "off" []], justSetFanToAuto)
  end.

(** [isCapabilitySupported(capability)] *)
Definition isCapabilitySupported (capabilities : list string)
    (capability : string) : bool :=
  bool_decide (is_Some (List.find (λ c, bool_decide (c = capability))
                          capabilities)).

(** [sendCommandsOrFail(commands)] up to the [await] of [sendCommands].
    The guard reads [this.multiServiceAccessory.isOnline], the method
    itself and not its result; a function is truthy, so the guard never
    throws and the call always reaches [sendCommands]. *)
Definition sendCommandsOrFail (c : CallId) (commands : list Command)
    (w : World) : World :=
  let isOnline_is_truthy := true in
  if negb isOnline_is_truthy then w
  else sendCommands c commands w.

(** An air conditioner that is switched off in dry mode, one that runs in
    it, and the status tree of a service that has not been refreshed. *)
Definition offInDryMode : AcStatus :=
  mkAcStatus (Some (Some "off")) (Some (Some "dry")) (Some "low").
Definition onInDryMode : AcStatus :=
  mkAcStatus (Some (Some "on")) (Some (Some "dry")) (Some "low").
Definition emptyStatus : AcStatus := mkAcStatus None None None.

End AirConditioner.

(** ** Properties of capability resolution *)

Module ResolverFacts.
Import Resolver.

(** Closed decidable goals, such as membership in a table, by evaluation. *)
Ltac closed_decision := apply (bool_decide_unpack _); vm_compute; exact I.

Lemma includes_true l e : includes l e = true ↔ e ∈ l.
Proof. unfold includes. apply bool_decide_eq_true. Qed.

Lemma forallb_includes cover req :
  forallb (includes cover) req = true ↔ req ⊆ cover.
Proof.
  rewrite forallb_forall. split.
  - intros H x Hx. apply includes_true, H, list_elem_of_In, Hx.
  - intros H x Hx. apply includes_true, H, list_elem_of_In, Hx.
Qed.

(** The sorted table is a fixed point of the sort, so every call of
    [addComponent] iterates over the same table. *)
Lemma sortCombo_idempotent :
  sortCombo (sortCombo comboCapabilityMap) = sortCombo comboCapabilityMap.
Proof. vm_compute. reflexivity. Qed.

Lemma sortCombo_tableAfter n :
  sortCombo (comboTableAfter n) = sortCombo comboCapabilityMap.
Proof.
  destruct n as [|n]; [reflexivity|].
  induction n as [|n IH]; simpl in *.
  - apply sortCombo_idempotent.
  - unfold comboTableAfter in *. simpl in *. rewrite IH.
    apply sortCombo_idempotent.
Qed.

Lemma sorted_kinds :
  Forall (λ e, e_service e ≠ TelevisionService) (sortCombo comboCapabilityMap).
Proof. vm_compute. repeat constructor; discriminate. Qed.

Lemma single_kinds :
  Forall (λ e : string * ServiceKind, e.2 ≠ TelevisionService) capabilityMap.
Proof. repeat constructor; discriminate. Qed.

Section Invariant.
Context (tv : TvStatics) (config : Config) (declared : list string).

Lemma resolving_nil cover : cover ⊆ declared → Resolving config declared [] cover.
Proof.
  intros H. split; [done|..].
  - intros s Hs. by apply elem_of_nil in Hs.
  - intros s c Hs. by apply elem_of_nil in Hs.
  - intros i j s t _ Hi. by rewrite lookup_nil in Hi.
  - intros s c Hs. by apply elem_of_nil in Hs.
  - intros s t c Hs. by apply elem_of_nil in Hs.
Qed.

(** Pushing a service of the tables that takes its capabilities from
    [cover], and striking them from [cover], keeps the invariant. *)
Lemma resolving_push new cover cid all k :
  k ≠ TelevisionService →
  all ⊆ cover →
  Resolving config declared new cover →
  Resolving config declared (new ++ [mkService k cid all])
    (filter (λ e, e ∉ all) cover).
Proof.
  intros Hk Hall [Hc Hs Hf Hd Ht Hsh]. split.
  - intros x Hx. apply list_elem_of_filter in Hx as [_ Hx]. by apply Hc.
  - intros s Hin. apply elem_of_app in Hin as [Hin|Hin]; [by apply Hs|].
    apply list_elem_of_singleton in Hin as ->. simpl.
    intros x Hx. by apply Hc, Hall.
  - intros s c Hin Hks Hcs Hcov.
    apply list_elem_of_filter in Hcov as [Hnot Hcov].
    apply elem_of_app in Hin as [Hin|Hin]; [by eapply Hf|].
    apply list_elem_of_singleton in Hin as ->. by apply Hnot.
  - intros i j s t Hij Hi Hj Hks Hkt c Hcs Hct.
    apply lookup_app_Some in Hi as [Hi|[Hli Hi]];
    apply lookup_app_Some in Hj as [Hj|[Hlj Hj]].
    + by eapply (Hd i j s t).
    + apply list_lookup_singleton_Some in Hj as [_ <-]. simpl in Hct.
      eapply Hf; [by eapply list_elem_of_lookup_2| done | done |].
      by apply Hall.
    + apply list_lookup_singleton_Some in Hi as [_ <-]. simpl in Hcs.
      eapply Hf; [by eapply list_elem_of_lookup_2| done | done |].
      by apply Hall.
    + apply list_lookup_singleton_Some in Hi as [Hi _].
      apply list_lookup_singleton_Some in Hj as [Hj _]. lia.
  - intros s c Hin Hks Hcs Hcov.
    apply list_elem_of_filter in Hcov as [_ Hcov].
    apply elem_of_app in Hin as [Hin|Hin]; [by eapply Ht|].
    apply list_elem_of_singleton in Hin as ->. simpl in Hks. congruence.
  - intros s t c Hs' Ht' Hks Hkt Hkv Hcs Hct.
    apply elem_of_app in Hs' as [Hs'|Hs'];
      [|apply list_elem_of_singleton in Hs' as ->; simpl in Hks; congruence].
    apply elem_of_app in Ht' as [Ht'|Ht']; [by eapply (Hsh s t c)|].
    apply list_elem_of_singleton in Ht' as ->. simpl in Hct.
    eapply Ht; eauto.
Qed.

Lemma register_resolving base new cover cid req opt k :
  k ≠ TelevisionService →
  Resolving config declared new cover →
  ∃ new' cover',
    registerServiceIfMatchesCapabilities (base ++ new) cid cover req opt k
      = (base ++ new', cover')
    ∧ Resolving config declared new' cover'.
Proof.
  intros Hk Hinv. unfold registerServiceIfMatchesCapabilities.
  destruct (forallb (includes cover) req) eqn:Hreq; simpl.
  - eexists _, _. split; [by rewrite <- (assoc_L (++))|].
    apply resolving_push; [done| |done].
    apply forallb_includes in Hreq.
    intros x Hx. apply elem_of_app in Hx as [Hx|Hx]; [by apply Hreq|].
    by apply list_elem_of_filter in Hx as [Hx _].
  - by eexists _, _.
Qed.

Lemma comboStage_resolving cid table base new cover :
  Forall (λ e, e_service e ≠ TelevisionService) table →
  Resolving config declared new cover →
  ∃ new' cover',
    comboStage cid table (base ++ new, cover) = (base ++ new', cover')
    ∧ Resolving config declared new' cover'.
Proof.
  intros Hall. revert new cover.
  induction Hall as [|e table He _ IH]; intros new cover Hinv.
  - by eexists _, _.
  - unfold comboStage in *. simpl.
    destruct (register_resolving base new cover cid (e_capabilities e)
                (default [] (e_optionalCapabilities e)) (e_service e) He Hinv)
      as (new1 & cover1 & -> & Hinv1).
    by apply IH.
Qed.

Lemma singleStage_resolving cid base new cover :
  Resolving config declared new cover →
  ∃ new' cover',
    singleStage config cid (base ++ new, cover) = (base ++ new', cover')
    ∧ Resolving config declared new' cover'.
Proof.
  unfold singleStage. generalize single_kinds.
  generalize capabilityMap as table. intros table Hall. revert new cover.
  induction Hall as [|e table He _ IH]; intros new cover Hinv.
  - by eexists _, _.
  - simpl.
    destruct (bool_decide (e.1 = "samsungce.airConditionerLighting")
              && negb (ExposeACDisplayLight config)).
    + by apply IH.
    + destruct (register_resolving base new cover cid [e.1] [] e.2 He Hinv)
        as (new1 & cover1 & -> & Hinv1).
      by apply IH.
Qed.

(** The Television service alone, with what the block leaves to cover. *)
Lemma resolving_tv cid :
  let tvCapabilities :=
    filter (λ cap, cap ∈ declared) (getTvCapabilities tv) in
  let kept := filter (λ cap, cap ∉ tvCapabilities) declared in
  Resolving config declared [mkService TelevisionService cid tvCapabilities]
    (if isTrue (removeLegacySwitchForTV config)
        && includes tvCapabilities "switch"
     then kept
     else if includes tvCapabilities "switch" then kept ++ ["switch"]
     else kept).
Proof.
  intros tvC kept.
  assert (HtvC : tvC ⊆ declared).
  { intros x Hx. by apply list_elem_of_filter in Hx as [Hx _]. }
  assert (Hkept : ∀ c, c ∈ kept → c ∈ declared ∧ c ∉ tvC).
  { intros c Hc. apply list_elem_of_filter in Hc. tauto. }
  split.
  - destruct (isTrue _) eqn:Hr, (includes tvC "switch") eqn:Hsw; simpl;
      intros x Hx; try (by apply Hkept).
    apply elem_of_app in Hx as [Hx|Hx]; [by apply Hkept|].
    apply list_elem_of_singleton in Hx as ->.
    by apply HtvC, includes_true.
  - intros s Hs. by apply list_elem_of_singleton in Hs as ->.
  - intros s c Hs Hk. apply list_elem_of_singleton in Hs as ->. done.
  - intros i j s t Hij Hi Hj.
    apply list_lookup_singleton_Some in Hi as [Hi _].
    apply list_lookup_singleton_Some in Hj as [Hj _]. lia.
  - intros s c Hs _ Hc Hcov. apply list_elem_of_singleton in Hs as ->.
    simpl in Hc.
    destruct (isTrue _) eqn:Hr, (includes tvC "switch") eqn:Hsw;
      simpl in Hcov; try (by apply Hkept in Hcov as [_ []]).
    apply elem_of_app in Hcov as [Hcov|Hcov];
      [by apply Hkept in Hcov as [_ []]|].
    by apply list_elem_of_singleton in Hcov as ->.
  - intros s t c _ Ht _ Hkt. apply list_elem_of_singleton in Ht as ->. done.
Qed.

(** The volume slider picks its capabilities from the declared ones, not
    from what is left to cover. *)
Lemma resolving_volume new cover cid all :
  (∀ s, s ∈ new → kind s = TelevisionService) →
  all ⊆ declared →
  Resolving config declared new cover →
  Resolving config declared (new ++ [mkService VolumeSliderService cid all])
    (filter (λ e, e ∉ all) cover).
Proof.
  intros Hnew Hall [Hc Hs Hf Hd Ht Hsh]. split.
  - intros x Hx. apply list_elem_of_filter in Hx as [_ Hx]. by apply Hc.
  - intros s Hin. apply elem_of_app in Hin as [Hin|Hin]; [by apply Hs|].
    by apply list_elem_of_singleton in Hin as ->.
  - intros s c Hin Hks Hcs Hcov.
    apply list_elem_of_filter in Hcov as [Hnot Hcov].
    apply elem_of_app in Hin as [Hin|Hin]; [by apply Hnew in Hin|].
    apply list_elem_of_singleton in Hin as ->. by apply Hnot.
  - intros i j s t Hij Hi Hj Hks Hkt c Hcs Hct.
    apply lookup_app_Some in Hi as [Hi|[Hli Hi]].
    { apply list_elem_of_lookup_2, Hnew in Hi. done. }
    apply lookup_app_Some in Hj as [Hj|[Hlj Hj]].
    { apply list_elem_of_lookup_2, Hnew in Hj. done. }
    apply list_lookup_singleton_Some in Hi as [Hi _].
    apply list_lookup_singleton_Some in Hj as [Hj _]. lia.
  - intros s c Hin Hks Hcs Hcov.
    apply list_elem_of_filter in Hcov as [_ Hcov].
    apply elem_of_app in Hin as [Hin|Hin]; [by eapply Ht|].
    apply list_elem_of_singleton in Hin as ->. done.
  - intros s t c _ Ht' _ Hkt Hkv.
    apply elem_of_app in Ht' as [Ht'|Ht']; [by apply Hnew in Ht'|].
    apply list_elem_of_singleton in Ht' as ->. done.
Qed.

Lemma televisionBlock_resolving base cid :
  ∃ new cover,
    televisionBlock tv config base cid declared declared
      = (base ++ new, cover)
    ∧ Resolving config declared new cover.
Proof.
  unfold televisionBlock.
  destruct (notFalse _ && bool_decide (cid = "main") && isTelevisionDevice tv).
  2: { exists [], declared. rewrite app_nil_r.
       split; [done|]. by apply resolving_nil. }
  destruct (bool_decide (0 < length _)%nat).
  2: { exists [], declared. rewrite app_nil_r.
       split; [done|]. by apply resolving_nil. }
  pose proof (resolving_tv cid) as Htv. simpl in Htv.
  destruct (isTrue (registerVolumeSlider config)
            && bool_decide (cid = "main") && supportsVolumeSlider tv declared).
  2: { by eexists _, _. }
  destruct (bool_decide (0 < length _)%nat).
  2: { by eexists _, _. }
  eexists _, _. split; [by rewrite <- (assoc_L (++))|].
  apply resolving_volume; [| |exact Htv].
  - intros s Hs. by apply list_elem_of_singleton in Hs as ->.
  - intros x Hx. by apply list_elem_of_filter in Hx as [Hx _].
Qed.

(** [addComponent] pushes its services behind those already there, and
    they satisfy the invariant. *)
Lemma addComponent_resolving n acc cid :
  ∃ cover,
    Resolving config declared
      (registered tv config (comboTableAfter n) acc cid declared) cover.
Proof.
  unfold registered, addComponent. cbv zeta. cbn [snd services].
  destruct (televisionBlock_resolving (services acc) cid)
    as (new0 & cover0 & -> & H0).
  rewrite sortCombo_tableAfter.
  destruct (comboStage_resolving cid _ (services acc) new0 cover0
              sorted_kinds H0) as (new1 & cover1 & -> & H1).
  destruct (singleStage_resolving cid (services acc) new1 cover1 H1)
    as (new2 & cover2 & -> & H2).
  cbn [fst]. rewrite drop_app_length. by exists cover2.
Qed.
End Invariant.

(** The combination table in the order [addComponent] walks it. *)
Lemma sortCombo_table :
  sortCombo comboCapabilityMap =
  [ mkCombo
      ["switch"; "airConditionerMode"; "airConditionerFanMode";
       "thermostatCoolingSetpoint"; "temperatureMeasurement"]
      (Some ["fanOscillationMode"; "relativeHumidityMeasurement";
             "custom.airConditionerOptionalMode"])
      AirConditionerService;
    mkCombo ["temperatureMeasurement"; "thermostatMode";
             "thermostatHeatingSetpoint"; "thermostatCoolingSetpoint"]
      None ThermostatService;
    mkCombo ["switch"; "fanSpeed"; "switchLevel"] None FanSwitchLevelService;
    mkCombo ["switch"; "fanSpeed"] None FanSpeedService;
    mkCombo ["switch"; "switchLevel"] None LightService;
    mkCombo ["switch"; "colorControl"] None LightService;
    mkCombo ["switch"; "colorTemperature"] None LightService;
    mkCombo ["switch"; "valve"] None ValveService;
    mkCombo ["temperatureMeasurement"; "thermostatHeatingSetpoint"]
      None ThermostatService;
    mkCombo ["windowShade"; "windowShadeLevel"] None WindowCoveringService;
    mkCombo ["windowShade"; "switchLevel"] None WindowCoveringService ].
Proof. vm_compute. reflexivity. Qed.

Lemma register_skip svcs cid cover req opt k c :
  c ∈ req → c ∉ cover →
  registerServiceIfMatchesCapabilities svcs cid cover req opt k = (svcs, cover).
Proof.
  intros Hc Hn. unfold registerServiceIfMatchesCapabilities.
  destruct (forallb (includes cover) req) eqn:Hreq; [|done].
  apply forallb_includes in Hreq. by apply Hreq in Hc.
Qed.


Lemma comboStage_cons cid e table st :
  comboStage cid (e :: table) st
  = comboStage cid table
      (registerServiceIfMatchesCapabilities st.1 cid st.2 (e_capabilities e)
         (default [] (e_optionalCapabilities e)) (e_service e)).
Proof. reflexivity. Qed.




(** C1, as amended.  For every component, whatever the configuration and
    the television statics: each service pushed by [addComponent] holds only
    capabilities the component declares; the services other than the
    Television service hold pairwise disjoint capabilities; and a capability
    held both by the Television service and by a service of the two tables
    is [switch], with [removeLegacySwitchForTV] not set to true. *)
Theorem addComponent_binding (tv : TvStatics) (config : Config) (n : nat)
    (acc : Accessory) (cid : string) (caps : list string) :
  let new := registered tv config (comboTableAfter n) acc cid caps in
  (∀ s, s ∈ new → capabilities s ⊆ caps)
  ∧ pairwiseDisjointBesideTv new
  ∧ tvSharesOnlySwitch config new.
Proof.
  intros new.
  destruct (addComponent_resolving tv config caps n acc cid) as [cover H].
  split; [exact (res_sub _ _ _ _ H)|].
  split; [exact (res_disj _ _ _ _ H)|exact (res_shared _ _ _ _ H)].
Qed.

(** The amended C1 at a television that declares [switch]: the capability
    shared by its Television and Switch services is [switch], and the legacy
    switch is kept. *)
Lemma addComponent_binding_witness :
  let new := registered aTelevision plainConfig (comboTableAfter 0)
               emptyAccessory "main" ["switch"; "samsungvd.mediaInputSource"] in
  new = [ mkService TelevisionService "main"
            ["switch"; "samsungvd.mediaInputSource"];
          mkService SwitchService "main" ["switch"] ]
  ∧ isTrue (removeLegacySwitchForTV plainConfig) = false.
Proof.
  split; [vm_compute; reflexivity|].
  pose proof (addComponent_binding aTelevision plainConfig 0 emptyAccessory
                "main" ["switch"; "samsungvd.mediaInputSource"]) as (_ & _ & H).
  refine (proj2 (H (mkService TelevisionService "main"
                      ["switch"; "samsungvd.mediaInputSource"])
                   (mkService SwitchService "main" ["switch"])
                   "switch" _ _ _ _ _ _ _));
    try (vm_compute; set_solver); try discriminate; reflexivity.
Defined.

(** C1 as stated fails: with the default configuration a television's
    [switch] is bound to its Television service and to a Switch service. *)
Lemma addComponent_double_binds_switch :
  ¬ pairwiseDisjoint
      (registered aTelevision plainConfig comboCapabilityMap emptyAccessory
         "main" ["switch"; "samsungvd.mediaInputSource"]).
Proof.
  intros H.
  apply (H 0%nat 1%nat
           (mkService TelevisionService "main"
              ["switch"; "samsungvd.mediaInputSource"])
           (mkService SwitchService "main" ["switch"])
           ltac:(lia) eq_refl eq_refl "switch"); set_solver.
Qed.







End ResolverFacts.

(** ** Properties of the device synchronizer *)

Module SynchronizerFacts.
Import Synchronizer.

(** Splits a world and its device into their fields. *)
Ltac fields w :=
  destruct w as [[? ? ? ? ? ? ? ? ?] ? ? ? ? ? ? ?]; cbn in *; subst.

(** *** Single tasks *)

(** A stale [refreshStatus] on a quiet accessory sends the status GET in
    the same task. *)
Lemma step_refresh_stale w c :
  quiet w → stale w →
  step w (Turn [RefreshStatus c])
  = request (GetStatus c)
      (on_dev (set_lastStatusResult true)
         (on_dev (set_failureCount 0)
            (on_dev (set_statusQueryInProgress true) w))).
Proof.
  intros (Hj & Hc & Hs) Hst. unfold stale in Hst. fields w.
  unfold step, handle, drain. cbn. unfold refreshStatus. cbn.
  rewrite bool_decide_eq_true_2 by done. reflexivity.
Qed.

(** A fresh [refreshStatus] resolves [true] on the spot and does nothing
    else. *)
Lemma step_refresh_fresh w c :
  jobs w = [] → ¬ stale w →
  step w (Turn [RefreshStatus c]) = observe (Resolved c true) w.
Proof.
  intros Hj Hst. unfold stale in Hst. fields w.
  unfold step, handle, drain. cbn. unfold refreshStatus. cbn.
  rewrite bool_decide_eq_false_2 by done. reflexivity.
Qed.

(** A stale [refreshStatus] during a status query only installs a
    waiter. *)
Lemma step_refresh_waits w c :
  jobs w = [] → stale w → statusQueryInProgress (dev w) = true →
  step w (Turn [RefreshStatus c])
  = on_waiters
      (λ ws, ws ++ [(NoStatusQueryInProgress, ThenResolveLastResult c)]) w.
Proof.
  intros Hj Hst Hs. unfold stale in Hst. fields w.
  unfold step, handle, drain. cbn. unfold refreshStatus. cbn.
  rewrite bool_decide_eq_true_2 by done. reflexivity.
Qed.

(** [sendCommands] with no command under way sends the POST in the same
    task; the [online] flag is not looked at. *)
Lemma step_send w c body :
  jobs w = [] → commandInProgress (dev w) = false →
  step w (Turn [SendCommands c body])
  = request (PostCommands c body) (on_dev (set_commandInProgress true) w).
Proof. intros Hj Hc. fields w. reflexivity. Qed.

Lemma step_post_settles w c body ok :
  jobs w = [] → PostCommands c body ∈ inflight w →
  step w (PostSettles c body ok)
  = postSettled c ok
      (observe (ReqEnd (PostCommands c body) ok)
         (settle (PostCommands c body) w)).
Proof.
  intros Hj Hin. unfold step, handle. rewrite bool_decide_eq_true_2 by done.
  fields w. unfold drain. by destruct ok.
Qed.

Lemma step_status_settles w c res :
  jobs w = [] → GetStatus c ∈ inflight w →
  step w (StatusSettles c res)
  = statusSettled c res
      (observe (ReqEnd (GetStatus c) (bool_decide (is_Some res)))
         (settle (GetStatus c) w)).
Proof.
  intros Hj Hin. unfold step, handle. rewrite bool_decide_eq_true_2 by done.
  fields w. unfold drain, statusSettled. cbn.
  destruct res; [done|]. cbn. by destruct (bool_decide _).
Qed.

Lemma step_elapse w ms :
  jobs w = [] → step w (Elapse ms) = on_now (λ t, t + Z.max 0 ms) w.
Proof. intros Hj. by fields w. Qed.


(** *** The status handler *)

(** A response that holds some component of the accessory stamps the
    device. *)
Lemma refreshed_fold (m : gmap string string) (t : Z)
    (comps acc : list (string * string)) (stamp : Z) :
  stamp = t ∨ (∃ comp, comp ∈ comps ∧ is_Some (m !! comp.1)) →
  (foldl (λ (acc : list (string * string) * Z) (comp : string * string),
            match m !! comp.1 with
            | Some st => (acc.1 ++ [(comp.1, st)], t)
            | None => (acc.1 ++ [comp], acc.2)
            end) (acc, stamp) comps).2 = t.
Proof.
  revert acc stamp. induction comps as [|comp comps IH]; intros acc stamp H.
  - destruct H as [H|(c & Hin & _)]; [done|]. by apply elem_of_nil in Hin.
  - cbn [foldl]. destruct (m !! comp.1) as [st|] eqn:Hm; cbn [fst snd].
    + apply IH. by left.
    + apply IH. destruct H as [H|(c & Hin & Hc)]; [by left|right].
      apply elem_of_cons in Hin as [->|Hin]; [|by exists c].
      rewrite Hm in Hc. by destruct Hc.
Qed.

Lemma refreshed_stamp (m : gmap string string) t comps stamp :
  (∃ comp, comp ∈ comps ∧ is_Some (m !! comp.1)) →
  (refreshed m t comps stamp).2 = t.
Proof. intros H. apply refreshed_fold. by right. Qed.

(** The interval of a waiter whose condition holds releases its job, which
    runs at the end of the same task. *)
Lemma step_interval_fires w i cond job :
  jobs w = [] → waiters w !! i = Some (cond, job) →
  holds cond (dev w) = true →
  step w (IntervalFires i)
  = runJob (on_waiters (delete i) w) job.
Proof.
  intros Hj Hi Hh. unfold step, handle, intervalFires. rewrite Hi, Hh.
  fields w. reflexivity.
Qed.

#[local] Arguments refreshed : simpl never.
#[local] Arguments step : simpl never.

(** *** C2 *)

(** A successful fetch that finds a component stamps the cache; a call
    within the next 5000 ms is answered from it. *)
Lemma refresh_then_fresh (w : World) (c1 c2 : CallId)
    (m : gmap string string) (ms : Z) :
  quiet w → stale w →
  (∃ comp, comp ∈ components (dev w) ∧ is_Some (m !! comp.1)) →
  0 ≤ ms ≤ 5000 →
  let w1 := run [Turn [RefreshStatus c1]; StatusSettles c1 (Some m)] w in
  let w2 := run [Elapse ms; Turn [RefreshStatus c2]] w1 in
  log w2 = log w ++ [ReqStart (GetStatus c1); ReqEnd (GetStatus c1) true;
                     Resolved c1 true; Resolved c2 true]
  ∧ dev w2 = dev w1 ∧ inflight w2 = inflight w1 ∧ waiters w2 = waiters w1.
Proof.
  intros (Hj & Hc & Hs) Hst Hcomp Hms. unfold stale in Hst. fields w.
  unfold run. cbn [foldl].
  rewrite (step_refresh_stale _ c1); [|by repeat split|exact Hst]. cbn.
  rewrite step_status_settles; [|done|apply elem_of_app; right; by left].
  cbn.
  rewrite step_elapse by done. cbn.
  rewrite (step_refresh_fresh _ c2); [|done|].
  - cbn. rewrite <- !(assoc_L (++)). repeat split.
  - unfold stale. cbn. rewrite refreshed_stamp by exact Hcomp. lia.
Qed.

(** A call during a fetch waits for the flag and is answered
    [lastStatusResult]. *)
Lemma refresh_while_in_flight (w : World) (c1 c2 : CallId)
    (res : option (gmap string string)) (ms1 ms2 ms3 : Z) :
  quiet w → stale w →
  let ok := bool_decide (is_Some res) in
  let w1 := run [Turn [RefreshStatus c1]; Elapse ms1] w in
  let w2 := run [Turn [RefreshStatus c2]; Elapse ms2] w1 in
  let w3 := run [StatusSettles c1 res; Elapse ms3;
                 IntervalFires (length (waiters w))] w2 in
  log w2 = log w ++ [ReqStart (GetStatus c1)]
  ∧ inflight w2 = inflight w1
  ∧ log w3 = log w ++ [ReqStart (GetStatus c1); ReqEnd (GetStatus c1) ok;
                       Resolved c1 ok; Resolved c2 ok].
Proof.
  intros (Hj & Hc & Hs) Hst. unfold stale in Hst. fields w.
  unfold run. cbn [foldl].
  rewrite (step_refresh_stale _ c1); [|by repeat split|exact Hst]. cbn.
  rewrite (step_elapse _ ms1) by done. cbn.
  rewrite (step_refresh_waits _ c2); [|done|unfold stale; cbn; lia|done]. cbn.
  rewrite (step_elapse _ ms2) by done. cbn.
  split; [done|]. split; [done|].
  rewrite step_status_settles; [|done|apply elem_of_app; right; by left].
  cbn.
  destruct res as [m|]; cbn.
  - rewrite step_elapse by done. cbn.
    rewrite (step_interval_fires _ _ NoStatusQueryInProgress
               (ThenResolveLastResult c2));
      [|done|by apply list_lookup_middle|done].
    cbn. by rewrite <- !(assoc_L (++)).
  - rewrite (bool_decide_eq_false_2 (0 + 1 >= 5)) by lia. cbn.
    rewrite step_elapse by done. cbn.
    rewrite (step_interval_fires _ _ NoStatusQueryInProgress
               (ThenResolveLastResult c2));
      [|done|by apply list_lookup_middle|done].
    cbn. by rewrite <- !(assoc_L (++)).
Qed.

(** *** Counting the fetches pending *)

Lemma count_removeFirst_in (f : Remote → bool) r l :
  r ∈ l → f r = true →
  S (length (List.filter f (removeFirst r l))) = length (List.filter f l).
Proof.
  induction l as [|x l IH]; intros Hin Hf; [by apply elem_of_nil in Hin|].
  cbn [removeFirst]. destruct (bool_decide (x = r)) eqn:Hx.
  - apply bool_decide_eq_true in Hx as ->. cbn. by rewrite Hf.
  - apply bool_decide_eq_false in Hx.
    apply elem_of_cons in Hin as [->|Hin]; [done|].
    cbn. destruct (f x); cbn; by rewrite IH.
Qed.

Lemma count_removeFirst_out (f : Remote → bool) r l :
  f r = false →
  length (List.filter f (removeFirst r l)) = length (List.filter f l).
Proof.
  intros Hf. induction l as [|x l IH]; [done|].
  cbn [removeFirst]. destruct (bool_decide (x = r)) eqn:Hx.
  - apply bool_decide_eq_true in Hx as ->. cbn. by rewrite Hf.
  - cbn. destruct (f x); cbn; by rewrite IH.
Qed.

Lemma count_delete {A} (f : A → bool) (l : list A) i x :
  l !! i = Some x →
  (length (List.filter f (delete i l)) + (if f x then 1 else 0)
   = length (List.filter f l))%nat.
Proof.
  revert i. induction l as [|y l IH]; intros i Hi; [done|].
  destruct i as [|i]; cbn in *.
  - injection Hi as ->. destruct (f x); cbn; lia.
  - specialize (IH i Hi). destruct (f y); cbn; [f_equal|]; exact IH.
Qed.

(** Brings the counts of the goal to sums over the pieces, then closes it
    from the invariant before the step. *)
Ltac counts :=
  unfold countsToOne, fetchesPending in *; cbn in *;
  rewrite ?List.filter_app, ?length_app in *; cbn in *.

Ltac close_counts :=
  let Hs := fresh "Hs" in
  let Hq := fresh "Hq" in
  counts; intros (? & ? & Hq & ? & ?);
  repeat split; try lia;
  try (intros Hs;
       first [discriminate Hs | specialize (Hq Hs); lia | lia]).

Lemma countsToOne_call k w :
  countsToOne w (jobs w) → countsToOne (call k w) (jobs (call k w)).
Proof.
  destruct k as [c|c body| |secs]; fields w.
  - unfold refreshStatus. cbn.
    destruct (bool_decide _); [|close_counts].
    destruct statusQueryInProgress0; unfold waitFor; cbn; [close_counts|].
    destruct commandInProgress0; close_counts.
  - unfold sendCommands, waitFor. cbn.
    destruct commandInProgress0; close_counts.
  - close_counts.
  - unfold startPollingState, hasWebhookToken. cbn.
    destruct webhookToken0 as [tok|];
      [destruct (bool_decide (tok = EmptyString)); cbn|];
      try destruct (bool_decide (secs > 0)); close_counts.
Qed.

Lemma countsToOne_calls ks w :
  countsToOne w (jobs w) →
  countsToOne (foldl (λ w k, call k w) w ks)
    (jobs (foldl (λ w k, call k w) w ks)).
Proof.
  revert w. induction ks as [|k ks IH]; intros w H; [done|].
  cbn [foldl]. by apply IH, countsToOne_call.
Qed.

Lemma countsToOne_jobs js w :
  jobs w = [] → countsToOne w js →
  countsToOne (foldl runJob w js) [] ∧ jobs (foldl runJob w js) = [].
Proof.
  revert w. induction js as [|j js IH]; intros w Hj Hw; [done|].
  cbn [foldl]. apply IH; [by destruct j; fields w|].
  revert Hw. destruct j; fields w; close_counts.
Qed.

Lemma countsToOne_drain w :
  countsToOne w (jobs w) →
  countsToOne (drain w) (jobs (drain w)) ∧ jobs (drain w) = [].
Proof.
  intros Hw. unfold drain.
  destruct (countsToOne_jobs (jobs w) (on_jobs (λ _, []) w)) as [H1 H2].
  - by fields w.
  - by fields w.
  - by rewrite H2.
Qed.

Lemma countsToOne_handle t w :
  countsToOne w (jobs w) → countsToOne (handle t w) (jobs (handle t w)).
Proof.
  destruct t as [ks|i|c body ok|c res|b state|gv|ms]; cbn [handle].
  - apply countsToOne_calls.
  - unfold intervalFires.
    destruct (waiters w !! i) as [[cond job]|] eqn:Hi; [|done].
    destruct (holds cond (dev w)); [|done].
    pose proof (count_delete (λ x : Condition * Job, isFetchJob x.2) _ _ _ Hi)
      as Hd.
    fields w. counts. destruct (isFetchJob job); close_counts.
  - destruct (bool_decide _); [|done].
    pose proof (count_removeFirst_out isStatus (PostCommands c body)
                  (inflight w) eq_refl) as Hr.
    destruct ok; fields w; close_counts.
  - destruct (bool_decide _) eqn:Hin; [|done].
    apply bool_decide_eq_true in Hin.
    pose proof (count_removeFirst_in isStatus (GetStatus c) (inflight w)
                  Hin eq_refl) as Hr.
    destruct res as [m|]; fields w; [close_counts|].
    counts. intros (? & ? & ? & ? & Hz).
    assert (failureCount0 = 0) as -> by (apply Hz; lia).
    rewrite (bool_decide_eq_false_2 (0 + 1 >= 5)) by lia. cbn.
    repeat split; lia.
  - destruct (bool_decide _); [|done].
    pose proof (count_removeFirst_out isStatus (GetHealth b)
                  (inflight w) eq_refl) as Hr.
    destruct b, state as [st|]; fields w;
      try destruct (bool_decide (st = "ONLINE")); close_counts.
  - destruct (bool_decide _); [|done]. unfold pollTick.
    destruct (commandInProgress (dev w) || _); [fields w; close_counts|].
    destruct (online (dev w)).
    { intros H. apply countsToOne_calls. revert H. fields w. close_counts. }
    destruct (_ && _) eqn:Hprobe; [|done].
    apply andb_true_iff in Hprobe as [Hgu _].
    apply bool_decide_eq_true in Hgu.
    intros (_ & Hz & _). lia.
  - fields w. close_counts.
Qed.

Lemma countsToOne_run ts w :
  countsToOne w (jobs w) → jobs w = [] →
  countsToOne (run ts w) (jobs (run ts w)).
Proof.
  revert w. induction ts as [|t ts IH]; intros w Hw Hj; [done|].
  unfold run in *. cbn [foldl].
  destruct (countsToOne_drain (handle t w) (countsToOne_handle t w Hw))
    as [H1 H2].
  by apply IH.
Qed.

(** In every run from construction, whatever the interleaving, the
    failure counter never exceeds 1 and no offline time is recorded. *)
Lemma failureCount_never_exceeds_one webhook t0 comps ts :
  let w := run ts (newWorld webhook t0 comps) in
  failureCount (dev w) ≤ 1 ∧ giveUpTime (dev w) = 0.
Proof.
  intros w.
  assert (H : countsToOne w (jobs w)).
  { apply countsToOne_run; [|done]. unfold countsToOne, fetchesPending.
    cbn. repeat split; lia. }
  destruct H as (? & ? & _). split; [lia|done].
Qed.

(** *** What [lastStatusResult] holds *)

Lemma lastFetchResult_snoc lg o :
  lastFetchResult (lg ++ [o])
  = match o with ReqEnd (GetStatus _) ok => ok | _ => lastFetchResult lg end.
Proof. unfold lastFetchResult. by rewrite foldl_app. Qed.

Ltac kept :=
  unfold resultKept, fetchesPending in *; cbn in *;
  rewrite ?List.filter_app, ?length_app, ?lastFetchResult_snoc in *; cbn in *.

Ltac close_kept :=
  let H1 := fresh "H1" in
  let H2 := fresh "H2" in
  kept; intros [H1 H2]; split; intros ?;
  first [ reflexivity | lia | (apply H1; lia) | (apply H2; lia) ].

Lemma resultKept_call k w :
  resultKept w (jobs w) → resultKept (call k w) (jobs (call k w)).
Proof.
  destruct k as [c|c body| |secs]; fields w.
  - unfold refreshStatus. cbn.
    destruct (bool_decide _); [|close_kept].
    destruct statusQueryInProgress0; unfold waitFor; cbn; [close_kept|].
    destruct commandInProgress0; close_kept.
  - unfold sendCommands, waitFor. cbn.
    destruct commandInProgress0; close_kept.
  - close_kept.
  - unfold startPollingState, hasWebhookToken. cbn.
    destruct webhookToken0 as [tok|];
      [destruct (bool_decide (tok = EmptyString)); cbn|];
      try destruct (bool_decide (secs > 0)); close_kept.
Qed.

Lemma resultKept_calls ks w :
  resultKept w (jobs w) →
  resultKept (foldl (λ w k, call k w) w ks)
    (jobs (foldl (λ w k, call k w) w ks)).
Proof.
  revert w. induction ks as [|k ks IH]; intros w H; [done|].
  cbn [foldl]. by apply IH, resultKept_call.
Qed.

Lemma resultKept_jobs js w :
  jobs w = [] → resultKept w js → resultKept (foldl runJob w js) [].
Proof.
  revert w. induction js as [|j js IH]; intros w Hj Hw; [done|].
  cbn [foldl]. apply IH; [by destruct j; fields w|].
  revert Hw. destruct j; fields w; close_kept.
Qed.

Lemma resultKept_drain w :
  resultKept w (jobs w) → resultKept (drain w) (jobs (drain w)).
Proof.
  intros Hw. unfold drain.
  pose proof (resultKept_jobs (jobs w) (on_jobs (λ _, []) w)) as H.
  assert (Hj : jobs (foldl runJob (on_jobs (λ _, []) w) (jobs w)) = []).
  { generalize (jobs w) as js. 
    assert (H0 : jobs (on_jobs (λ _, []) w) = []) by (by fields w).
    revert H0. generalize (on_jobs (λ _, []) w) as v.
    intros v H0 js. revert v H0.
    induction js as [|j js IH]; intros v H0; [done|].
    cbn [foldl]. apply IH. by destruct j; fields v. }
  rewrite Hj. apply H; [by fields w|by fields w].
Qed.

Lemma resultKept_handle t w :
  countsToOne w (jobs w) → resultKept w (jobs w) →
  resultKept (handle t w) (jobs (handle t w)).
Proof.
  intros Hc.
  destruct t as [ks|i|c body ok|c res|b state|gv|ms]; cbn [handle].
  - apply resultKept_calls.
  - unfold intervalFires.
    destruct (waiters w !! i) as [[cond job]|] eqn:Hi; [|done].
    destruct (holds cond (dev w)); [|done].
    pose proof (count_delete (λ x : Condition * Job, isFetchJob x.2) _ _ _ Hi)
      as Hd.
    clear Hc. fields w. kept. destruct (isFetchJob job); close_kept.
  - destruct (bool_decide _); [|done].
    pose proof (count_removeFirst_out isStatus (PostCommands c body)
                  (inflight w) eq_refl) as Hr.
    clear Hc. destruct ok; fields w; close_kept.
  - destruct (bool_decide _) eqn:Hin; [|done].
    apply bool_decide_eq_true in Hin.
    pose proof (count_removeFirst_in isStatus (GetStatus c) (inflight w)
                  Hin eq_refl) as Hr.
    revert Hc.
    destruct res as [m|]; fields w.
    + counts. kept. intros (Ha & Hb & Hq & Hle & Hz) [K1 K2].
      split; intros ?; [lia|]. apply K1. lia.
    + counts. kept. intros (Ha & Hb & Hq & Hle & Hz) [K1 K2].
      assert (failureCount0 = 0) as -> by (apply Hz; lia).
      rewrite (bool_decide_eq_false_2 (0 + 1 >= 5)) by lia. cbn.
      rewrite ?lastFetchResult_snoc.
      split; intros ?; [lia|done].
  - destruct (bool_decide _); [|done].
    pose proof (count_removeFirst_out isStatus (GetHealth b)
                  (inflight w) eq_refl) as Hr.
    clear Hc.
    destruct b, state as [st|]; fields w;
      try destruct (bool_decide (st = "ONLINE")); close_kept.
  - destruct (bool_decide _); [|done]. unfold pollTick.
    destruct (commandInProgress (dev w) || _); [clear Hc; fields w; close_kept|].
    destruct (online (dev w)).
    { intros H. apply resultKept_calls. revert H. clear Hc. fields w.
      close_kept. }
    destruct (_ && _) eqn:Hprobe; [|done].
    clear Hc. fields w. close_kept.
  - clear Hc. fields w. close_kept.
Qed.

Lemma resultKept_run ts w :
  countsToOne w (jobs w) → resultKept w (jobs w) → jobs w = [] →
  countsToOne (run ts w) [] ∧ resultKept (run ts w) []
  ∧ jobs (run ts w) = [].
Proof.
  revert w. induction ts as [|t ts IH]; intros w Hc Hk Hj.
  - by rewrite Hj in Hc, Hk.
  - unfold run in *. cbn [foldl].
    destruct (countsToOne_drain (handle t w) (countsToOne_handle t w Hc))
      as [H1 H2].
    apply IH; [exact H1| |exact H2].
    apply resultKept_drain. by apply resultKept_handle.
Qed.

(** In every run from construction, whenever no status query is under way
    [lastStatusResult] is the outcome of the status GET that settled
    last. *)
Lemma lastStatusResult_is_last_fetch webhook t0 comps ts :
  let w := run ts (newWorld webhook t0 comps) in
  jobs w = []
  ∧ (statusQueryInProgress (dev w) = false →
     lastStatusResult (dev w) = lastFetchResult (log w)).
Proof.
  intros w.
  destruct (resultKept_run ts (newWorld webhook t0 comps)) as (Hc & Hk & Hj).
  - unfold countsToOne, fetchesPending. cbn. repeat split; lia.
  - unfold resultKept, fetchesPending. cbn. by split.
  - done.
  - split; [exact Hj|]. intros Hs.
    destruct Hc as (_ & _ & Hq & _). destruct Hk as [_ Hk].
    apply Hk, Hq, Hs.
Qed.

(** C2, as amended.  (1) On an accessory with neither a command nor a
    status query under way and a stale cache: if [refreshStatus] is called,
    its GET succeeds and finds at least one component of the accessory in
    the response, and [refreshStatus] is called again at most 5000 ms later
    with nothing else happening in between, then one status GET is sent in
    all, both callers are answered [true], and the second call leaves the
    accessory as the fetch left it.  (2) A [refreshStatus] on a stale cache
    while a status query is under way sends nothing and only installs a
    waiter.  (3) In every run from construction, the interval of such a
    waiter changes nothing while a status query is under way, and the first
    time it fires with none under way the caller is answered
    [lastStatusResult], the outcome of the status GET that settled last.
    (4) So when the GET of the first call settles, either way, and the
    waiter's interval fires next, the second caller is answered what the
    first caller was answered. *)
Theorem refreshStatus_single_fetch :
  (∀ (w : World) (c1 c2 : CallId) (m : gmap string string) ms,
     quiet w → stale w →
     (∃ comp, comp ∈ components (dev w) ∧ is_Some (m !! comp.1)) →
     0 ≤ ms ≤ 5000 →
     let w1 := run [Turn [RefreshStatus c1]; StatusSettles c1 (Some m)] w in
     let w2 := run [Elapse ms; Turn [RefreshStatus c2]] w1 in
     log w2 = log w ++ [ReqStart (GetStatus c1); ReqEnd (GetStatus c1) true;
                        Resolved c1 true; Resolved c2 true]
     ∧ dev w2 = dev w1 ∧ inflight w2 = inflight w1 ∧ waiters w2 = waiters w1)
  ∧ (∀ (w : World) (c : CallId),
       jobs w = [] → stale w → statusQueryInProgress (dev w) = true →
       let w' := step w (Turn [RefreshStatus c]) in
       log w' = log w ∧ inflight w' = inflight w ∧ dev w' = dev w
       ∧ waiters w'
         = waiters w ++ [(NoStatusQueryInProgress, ThenResolveLastResult c)])
  ∧ (∀ webhook t0 comps ts (i : nat) (c : CallId),
       let w := run ts (newWorld webhook t0 comps) in
       waiters w !! i
       = Some (NoStatusQueryInProgress, ThenResolveLastResult c) →
       let w' := step w (IntervalFires i) in
       (statusQueryInProgress (dev w) = true → w' = w)
       ∧ (statusQueryInProgress (dev w) = false →
          log w' = log w ++ [Resolved c (lastFetchResult (log w))]
          ∧ waiters w' = delete i (waiters w)
          ∧ inflight w' = inflight w ∧ dev w' = dev w))
  ∧ (∀ (w : World) (c1 c2 : CallId) (res : option (gmap string string))
       ms1 ms2 ms3,
       quiet w → stale w →
       let ok := bool_decide (is_Some res) in
       let w1 := run [Turn [RefreshStatus c1]; Elapse ms1] w in
       let w2 := run [Turn [RefreshStatus c2]; Elapse ms2] w1 in
       let w3 := run [StatusSettles c1 res; Elapse ms3;
                      IntervalFires (length (waiters w))] w2 in
       log w2 = log w ++ [ReqStart (GetStatus c1)]
       ∧ inflight w2 = inflight w1
       ∧ log w3 = log w ++ [ReqStart (GetStatus c1); ReqEnd (GetStatus c1) ok;
                            Resolved c1 ok; Resolved c2 ok]).
Proof.
  split; [|split; [|split]].
  - intros w c1 c2 m ms Hq Hst. by apply refresh_then_fresh.
  - intros w c Hj Hst Hs w'. unfold w'.
    rewrite step_refresh_waits by done. by fields w.
  - intros webhook t0 comps ts i c w Hi w'.
    destruct (lastStatusResult_is_last_fetch webhook t0 comps ts)
      as [Hj Hlast]. fold w in Hj, Hlast.
    split; intros Hs.
    + unfold w', step, handle, intervalFires. rewrite Hi. cbn [holds].
      rewrite Hs. cbn [negb]. unfold drain. rewrite Hj. by fields w.
    + unfold w'.
      rewrite (step_interval_fires w i NoStatusQueryInProgress
                 (ThenResolveLastResult c) Hj Hi)
        by (cbn [holds]; by rewrite Hs).
      rewrite <- (Hlast Hs). by fields w.
  - intros w c1 c2 res ms1 ms2 ms3 Hq Hst. by apply refresh_while_in_flight.
Qed.

(** The amended C2 on an accessory whose cache has never been filled: a
    second call three seconds after a fetch; a second call while the GET of
    the first is in flight, answered [false] like the first when that GET is
    rejected and its interval fires next; and a run where a third call
    fetches again, with success, before the waiter of the second call
    fires, so that the second caller is answered the outcome of that later
    GET. *)
Lemma refreshStatus_single_fetch_witness :
  (let w1 := run [Turn [RefreshStatus 1];
                  StatusSettles 1 (Some {["main" := "{on}"]})] anOnlineWorld in
   let w2 := run [Elapse 3000; Turn [RefreshStatus 2]] w1 in
   log w2 = log anOnlineWorld
            ++ [ReqStart (GetStatus 1); ReqEnd (GetStatus 1) true;
                Resolved 1 true; Resolved 2 true]
   ∧ dev w2 = dev w1 ∧ inflight w2 = inflight w1 ∧ waiters w2 = waiters w1)
  ∧ (let w := step anOnlineWorld (Turn [RefreshStatus 1]) in
     let w' := step w (Turn [RefreshStatus 2]) in
     inflight w = [GetStatus 1]
     ∧ log w' = log w ∧ inflight w' = inflight w
     ∧ waiters w' = [(NoStatusQueryInProgress, ThenResolveLastResult 2)])
  ∧ (let w := run laterFetchFirst aWorld in
     let w' := step w (IntervalFires 0) in
     Resolved 1 false ∈ log w
     ∧ log w' = log w ++ [Resolved 2 true])
  ∧ (let w3 := run [Turn [RefreshStatus 1]; Elapse 100;
                    Turn [RefreshStatus 2]; Elapse 100;
                    StatusSettles 1 None; Elapse 50; IntervalFires 0]
                 anOnlineWorld in
     log w3 = log anOnlineWorld
              ++ [ReqStart (GetStatus 1); ReqEnd (GetStatus 1) false;
                  Resolved 1 false; Resolved 2 false]).
Proof.
  destruct refreshStatus_single_fetch as (H1 & H2 & H3 & H4).
  assert (Hq : quiet anOnlineWorld) by (vm_compute; repeat split).
  assert (Hst : stale anOnlineWorld) by (vm_compute; reflexivity).
  split; [|split; [|split]].
  - apply (H1 anOnlineWorld 1%nat 2%nat {["main" := "{on}"]} 3000 Hq Hst).
    + exists ("main", "{}"). split; [by left|].
      cbn. rewrite lookup_singleton_eq. by eexists.
    + lia.
  - split; [reflexivity|].
    destruct (H2 (step anOnlineWorld (Turn [RefreshStatus 1])) 2%nat)
      as (Hl & Hi & _ & Hw);
      [reflexivity|vm_compute; reflexivity|reflexivity|].
    split; [exact Hl|]. split; [exact Hi|]. exact Hw.
  - split; [apply (bool_decide_unpack _); vm_compute; exact I|].
    destruct (H3 None 1700000000000 [("main", "{}")] laterFetchFirst 0%nat
                2%nat) as [_ H]; [vm_compute; reflexivity|].
    exact (proj1 (H eq_refl)).
  - exact (proj2 (proj2 (H4 anOnlineWorld 1%nat 2%nat None 100 100 50
                           Hq Hst))).
Defined.

(** C2 as stated fails.  When the first fetch is rejected, a second call one
    second later sends a second status GET, and the two callers are answered
    differently once that one succeeds.  And a caller that arrived while the
    first GET was in flight is answered the outcome of a later GET when a
    third call has fetched again before its interval fires. *)
Lemma refresh_after_failed_fetch_fetches_again :
  (let w := run [Turn [RefreshStatus 1]; StatusSettles 1 None; Elapse 1000;
                 Turn [RefreshStatus 2];
                 StatusSettles 2 (Some {["main" := "{on}"]})] anOnlineWorld in
   statusCalls w = 2%nat
   ∧ Resolved 1 false ∈ log w ∧ Resolved 2 true ∈ log w)
  ∧ (let w := run (laterFetchFirst ++ [IntervalFires 0]) aWorld in
     inflight (run (take 3 laterFetchFirst) aWorld) = [GetStatus 1]
     ∧ Resolved 1 false ∈ log w ∧ Resolved 2 true ∈ log w).
Proof.
  cbv zeta. split.
  - split; [vm_compute; reflexivity|].
    split; apply (bool_decide_unpack _); vm_compute; exact I.
  - split; [vm_compute; reflexivity|].
    split; apply (bool_decide_unpack _); vm_compute; exact I.
Qed.

(** *** C3 *)

Lemma run_app ts1 ts2 w : run (ts1 ++ ts2) w = run ts2 (run ts1 w).
Proof. apply foldl_app. Qed.

(** One rejected fetch on a quiet accessory: the counter is first reset,
    then incremented, so it reads 1 afterwards. *)
Lemma failedFetch_round w c ms :
  quiet w → stale w →
  let w' := run (failedFetch (c, ms)) w in
  quiet w' ∧ stale w'
  ∧ online (dev w') = online (dev w)
  ∧ giveUpTime (dev w') = giveUpTime (dev w)
  ∧ failureCount (dev w') = 1
  ∧ log w' = log w ++ [ReqStart (GetStatus c); ReqEnd (GetStatus c) false;
                       Resolved c false].
Proof.
  intros (Hj & Hc & Hs) Hst. unfold stale in Hst. fields w.
  unfold run, failedFetch. cbn [foldl fst snd].
  rewrite step_refresh_stale; [|by repeat split|exact Hst]. cbn.
  rewrite step_status_settles; [|done|apply elem_of_app; right; by left].
  cbn.
  rewrite (bool_decide_eq_false_2 (0 + 1 >= 5)) by lia. cbn.
  rewrite step_elapse by done. cbn.
  unfold quiet, stale. cbn. rewrite <- !(assoc_L (++)).
  repeat split; try done. lia.
Qed.

(** C3, where the code departs from it.  However many status fetches are
    rejected in a row, the counter reads 1 after each (it is reset to 0 when
    a fetch starts), so the test [failureCount >= 5] never succeeds: the
    accessory stays as online as it was, and no offline time is recorded. *)
Theorem failed_fetches_never_offline (w : World) (rounds : list (CallId * Z)) :
  quiet w → stale w →
  let w' := run (concat (map failedFetch rounds)) w in
  online (dev w') = online (dev w)
  ∧ giveUpTime (dev w') = giveUpTime (dev w)
  ∧ (rounds ≠ [] → failureCount (dev w') = 1)
  ∧ statusCalls w' = (statusCalls w + length rounds)%nat.
Proof.
  revert w. induction rounds as [|[c ms] rounds IH]; intros w Hq Hst w'.
  - subst w'. cbn. repeat split; [done|lia].
  - subst w'. cbn [map concat]. rewrite run_app.
    destruct (failedFetch_round w c ms Hq Hst) as (Hq1 & Hst1 & Ho & Hg & Hf & Hl).
    destruct (IH _ Hq1 Hst1) as (Ho2 & Hg2 & Hf2 & Hn2).
    split; [congruence|]. split; [congruence|]. split.
    + intros _. destruct rounds as [|r rounds]; [exact Hf|].
      by apply Hf2.
    + rewrite Hn2. unfold statusCalls at 1 2. rewrite Hl.
      rewrite List.filter_app, length_app. cbn. lia.
Qed.

(** C3 at six rejected fetches, ten seconds apart, on an online accessory:
    still online, counter at 1. *)
Lemma failed_fetches_never_offline_witness :
  let w' := run (concat (map failedFetch
                    [(1%nat, 10000); (2%nat, 10000); (3%nat, 10000);
                     (4%nat, 10000); (5%nat, 10000); (6%nat, 10000)]))
              anOnlineWorld in
  online (dev w') = true ∧ giveUpTime (dev w') = 0
  ∧ failureCount (dev w') = 1 ∧ statusCalls w' = 6%nat.
Proof.
  assert (Hq : quiet anOnlineWorld) by (vm_compute; repeat split).
  assert (Hst : stale anOnlineWorld) by (vm_compute; reflexivity).
  destruct (failed_fetches_never_offline anOnlineWorld
              [(1%nat, 10000); (2%nat, 10000); (3%nat, 10000);
               (4%nat, 10000); (5%nat, 10000); (6%nat, 10000)] Hq Hst)
    as (Ho & Hg & Hf & Hn).
  cbv zeta. rewrite Ho, Hg, Hn, Hf by discriminate. repeat split.
Defined.

(** *** C4 *)

(** C4, where the code departs from it.  With no command under way, two
    [sendCommands] calls made in the same synchronous turn both pass the
    test of [waitFor] before either callback sets [commandInProgress]: both
    POSTs leave in that task and are in flight together.  In the same way a
    [refreshStatus] called in the turn of a [sendCommands] sends its GET
    while the command is in flight. *)
Theorem back_to_back_commands_overlap (w : World) (c1 c2 : CallId)
    (b1 b2 : list Command) :
  jobs w = [] → commandInProgress (dev w) = false →
  (let w' := step w (Turn [SendCommands c1 b1; SendCommands c2 b2]) in
   inflight w' = inflight w ++ [PostCommands c1 b1; PostCommands c2 b2]
   ∧ log w' = log w ++ [ReqStart (PostCommands c1 b1);
                        ReqStart (PostCommands c2 b2)])
  ∧ (stale w → statusQueryInProgress (dev w) = false →
     let w' := step w (Turn [SendCommands c1 b1; RefreshStatus c2]) in
     inflight w' = inflight w ++ [PostCommands c1 b1; GetStatus c2]
     ∧ log w' = log w ++ [ReqStart (PostCommands c1 b1);
                          ReqStart (GetStatus c2)]).
Proof.
  intros Hj Hc. split.
  - fields w. unfold step, handle, drain. cbn.
    by rewrite <- !(assoc_L (++)).
  - intros Hst Hs. unfold stale in Hst. fields w.
    unfold step, handle, drain. cbn. unfold refreshStatus. cbn.
    rewrite bool_decide_eq_true_2 by done. cbn.
    by rewrite <- !(assoc_L (++)).
Qed.

(** C4 at an online accessory: on, then off, in one turn. *)
Lemma back_to_back_commands_overlap_witness :
  let w' := step anOnlineWorld
              (Turn [SendCommands 1 switchOn; SendCommands 2 switchOff]) in
  inflight w' = [PostCommands 1 switchOn; PostCommands 2 switchOff]
  ∧ postsInFlight w' = 2%nat.
Proof.
  destruct (proj1 (back_to_back_commands_overlap anOnlineWorld 1 2
                     switchOn switchOff eq_refl eq_refl)) as [Hi _].
  cbv zeta. unfold postsInFlight. rewrite Hi. split; reflexivity.
Defined.

(** *** C8 *)

(** [sendCommands] has no test of the [online] flag of its own: with no
    command under way the call sends its POST whether the accessory is
    online or not, and its caller is answered according to the outcome of
    the POST; the flag is left as it was. *)
Lemma sendCommands_ignores_online (w : World) (c : CallId)
    (body : list Command) (ok : bool) :
  jobs w = [] → commandInProgress (dev w) = false →
  let w1 := step w (Turn [SendCommands c body]) in
  let w2 := step w1 (PostSettles c body ok) in
  log w1 = log w ++ [ReqStart (PostCommands c body)]
  ∧ inflight w1 = inflight w ++ [PostCommands c body]
  ∧ log w2 = log w1 ++ [ReqEnd (PostCommands c body) ok; Resolved c ok]
  ∧ commandInProgress (dev w2) = false
  ∧ isOnline (dev w2) = isOnline (dev w).
Proof.
  intros Hj Hc w1 w2. subst w2 w1. fields w.
  rewrite step_send by done. cbn.
  rewrite step_post_settles; [|done|apply elem_of_app; right; by left].
  destruct ok; cbn; rewrite <- !(assoc_L (++)); repeat split.
Qed.

(** C8, where the code departs from it.  The air conditioner service, the
    one caller of [sendCommands] in the sources, guards the call with a test
    that is meant to throw when the accessory is offline; the test reads the
    method [isOnline] and not its result.  So on an accessory whose health
    check answered OFFLINE, [setTargetHeatingCoolingState(COOL)] passes the
    guard, the POST leaves, and the caller is answered by its outcome. *)
Theorem offline_command_is_posted :
  let commands :=
    AirConditioner.setTargetHeatingCoolingState AirConditioner.COOL in
  let w1 :=
    drain (AirConditioner.sendCommandsOrFail 1 commands anOfflineWorld) in
  let w2 := step w1 (PostSettles 1 commands true) in
  isOnline (dev anOfflineWorld) = false
  ∧ postCalls anOfflineWorld = 0%nat
  ∧ postCalls w1 = 1%nat
  ∧ inflight w1 = [PostCommands 1 commands]
  ∧ log w2 = log w1 ++ [ReqEnd (PostCommands 1 commands) true;
                        Resolved 1 true]
  ∧ isOnline (dev w2) = false.
Proof. vm_compute. repeat split. Qed.

(** *** C9 *)

(** Nothing writes [lastCommandCompleted]. *)
Lemma lastCommandCompleted_call k w :
  lastCommandCompleted (dev (call k w)) = lastCommandCompleted (dev w).
Proof.
  destruct k; fields w; unfold refreshStatus, sendCommands, startPollingState,
    hasWebhookToken, waitFor; cbn;
    repeat (match goal with
            | |- context [if ?b then _ else _] => destruct b
            | |- context [match ?o with Some _ => _ | None => _ end] =>
                destruct o
            end; cbn); reflexivity.
Qed.

Lemma lastCommandCompleted_calls ks w :
  lastCommandCompleted (dev (foldl (λ w k, call k w) w ks))
  = lastCommandCompleted (dev w).
Proof.
  revert w. induction ks as [|k ks IH]; intros w; [done|].
  cbn [foldl]. by rewrite IH, lastCommandCompleted_call.
Qed.

Lemma lastCommandCompleted_drain w :
  lastCommandCompleted (dev (drain w)) = lastCommandCompleted (dev w).
Proof.
  unfold drain.
  assert (H : ∀ js w, lastCommandCompleted (dev (foldl runJob w js))
                      = lastCommandCompleted (dev w)).
  { induction js as [|j js IH]; intros w'; [done|].
    cbn [foldl]. rewrite IH. destruct j; by fields w'. }
  rewrite H. by fields w.
Qed.

Lemma lastCommandCompleted_step w t :
  lastCommandCompleted (dev (step w t)) = lastCommandCompleted (dev w).
Proof.
  unfold step. rewrite lastCommandCompleted_drain.
  destruct t as [ks|i|c body ok|c res|b state|gv|ms]; cbn [handle].
  - apply lastCommandCompleted_calls.
  - unfold intervalFires. destruct (waiters w !! i) as [[cond job]|]; [|done].
    destruct (holds cond (dev w)); [|done]. by fields w.
  - destruct (bool_decide _); [|done]. destruct ok; by fields w.
  - destruct (bool_decide _); [|done]. destruct res; fields w; [done|].
    by destruct (bool_decide _).
  - destruct (bool_decide _); [|done].
    destruct b, state as [st|]; fields w; try done;
      by destruct (bool_decide (st = "ONLINE")).
  - destruct (bool_decide _); [|done]. unfold pollTick.
    destruct (commandInProgress (dev w) || _); [by fields w|].
    destruct (online (dev w)).
    { rewrite lastCommandCompleted_calls. by fields w. }
    destruct (_ && _); by fields w.
  - by fields w.
Qed.

Lemma lastCommandCompleted_run ts w :
  lastCommandCompleted (dev (run ts w)) = lastCommandCompleted (dev w).
Proof.
  revert w. induction ts as [|t ts IH]; intros w; [done|].
  unfold run in *. cbn [foldl]. by rewrite IH, lastCommandCompleted_step.
Qed.

(** A tick on an online accessory that is not skipped calls [getValue]. *)
Lemma step_poll_online w getValue :
  jobs w = [] → (0 < pollers w)%nat → online (dev w) = true →
  commandInProgress (dev w) = false →
  ¬ now w - lastCommandCompleted (dev w) < 20 * 1000 →
  step w (PollTick getValue)
  = drain (foldl (λ w k, call k w) (observe GetValueCalled w) getValue).
Proof.
  intros Hj Hp Ho Hc Ht. unfold step, handle, pollTick.
  rewrite Ho, Hc. rewrite bool_decide_eq_true_2 by done.
  by rewrite (bool_decide_eq_false_2 _ Ht).
Qed.

(** The two conditions of the tick that do work: with a webhook token
    [startPollingState] installs no interval, so there is no tick; and a
    tick during a command is skipped. *)
Lemma no_polling_with_webhook w secs :
  hasWebhookToken w = true → call (StartPollingState secs) w = w.
Proof. intros H. cbn. unfold startPollingState. by rewrite H. Qed.

Lemma poll_skipped_during_command w getValue :
  jobs w = [] → (0 < pollers w)%nat → commandInProgress (dev w) = true →
  step w (PollTick getValue) = observe PollSkipped w.
Proof.
  intros Hj Hp Hc. unfold step, handle, pollTick.
  rewrite Hc, bool_decide_eq_true_2 by done. by fields w.
Qed.

(** C9, where the code departs from it.  [lastCommandCompleted] stays at
    its initial 0 through every task, so the test "fewer than 20 seconds
    since the last command" compares the clock with 0: a tick that comes
    [ms] milliseconds after a command has completed, with [ms] under
    20000, is not dropped; it calls [getValue], and a [getValue] that
    refreshes the status sends a status GET (the command has reset the
    cache). *)
Theorem poll_right_after_command_not_skipped (w : World) (c c' : CallId)
    (body : list Command) (ms : Z) :
  jobs w = [] → (0 < pollers w)%nat → online (dev w) = true →
  commandInProgress (dev w) = false →
  statusQueryInProgress (dev w) = false →
  lastCommandCompleted (dev w) = 0 →
  20 * 1000 ≤ now w → 0 ≤ ms < 20 * 1000 →
  let w1 := run [Turn [SendCommands c body]; PostSettles c body true] w in
  let w2 := run [Elapse ms; PollTick [RefreshStatus c']] w1 in
  lastCommandCompleted (dev w1) = 0
  ∧ log w1 = log w ++ [ReqStart (PostCommands c body);
                       ReqEnd (PostCommands c body) true; Resolved c true]
  ∧ now w2 = now w1 + ms
  ∧ log w2 = log w1 ++ [GetValueCalled; ReqStart (GetStatus c')].
Proof.
  intros Hj Hp Ho Hc Hs Hl Hn Hms. fields w.
  unfold run. cbn [foldl].
  rewrite step_send by done. cbn.
  rewrite step_post_settles; [|done|apply elem_of_app; right; by left]. cbn.
  rewrite step_elapse by done. cbn.
  rewrite step_poll_online; [|done|done|done|done|cbn; lia].
  unfold drain. cbn. unfold refreshStatus. cbn.
  rewrite bool_decide_eq_true_2 by lia. cbn.
  rewrite <- !(assoc_L (++)). repeat split. lia.
Qed.

(** C9 at an online accessory polled every 10 seconds: the tick one second
    after a command is not skipped. *)
Lemma poll_right_after_command_not_skipped_witness :
  let w := step anOnlineWorld (Turn [StartPollingState 10]) in
  let w1 := run [Turn [SendCommands 1 switchOn];
                 PostSettles 1 switchOn true] w in
  let w2 := run [Elapse 1000; PollTick [RefreshStatus 2]] w1 in
  lastCommandCompleted (dev w1) = 0
  ∧ log w1 = log w ++ [ReqStart (PostCommands 1 switchOn);
                       ReqEnd (PostCommands 1 switchOn) true; Resolved 1 true]
  ∧ now w2 = now w1 + 1000
  ∧ log w2 = log w1 ++ [GetValueCalled; ReqStart (GetStatus 2)].
Proof.
  apply (poll_right_after_command_not_skipped
           (step anOnlineWorld (Turn [StartPollingState 10])) 1 2 switchOn 1000);
    [ reflexivity | vm_compute; lia | reflexivity | reflexivity | reflexivity
    | reflexivity | vm_compute; discriminate | lia ].
Defined.

End SynchronizerFacts.

(** ** Properties of the token store and of start-up *)

Module TokensFacts.
Import Tokens.

Lemma origin_in_flight (o : Origin) (rt : string) (l : list (Origin * string)) :
  o ∈ (l ++ [(o, rt)]).*1.
Proof. rewrite fmap_app. apply elem_of_app. right. by left. Qed.

(** *** C6 *)

(** C6, as amended.  Neither trigger looks at the exchanges in flight.  A
    401 on a request not yet retried, with a refresh token at hand, posts a
    token exchange of its own; so does a monitor tick that finds the access
    token within five minutes of expiry.  With [k] exchanges in flight
    before, [k + 1] are in flight after. *)
Theorem every_trigger_posts_its_own_exchange (p : Platform) (req : nat)
    (rt : string) :
  getRefreshToken p = Some rt →
  (let p' := step p (Unauthorized req false) in
   exchanges p' = exchanges p ++ [(FromInterceptor req, rt)]
   ∧ exchangeCount p' = S (exchangeCount p))
  ∧ (refreshTimer p = true →
     (∃ t, tokenData p = Some t ∧ expires_at t - now p ≤ REFRESH_BEFORE_EXPIRY) →
     let p' := step p MonitorTick in
     exchanges p' = exchanges p ++ [(FromMonitor, rt)]
     ∧ exchangeCount p' = S (exchangeCount p)).
Proof.
  intros Hrt. split.
  - cbn. unfold unauthorized. by rewrite Hrt.
  - intros Htimer (t & Ht & Hexp). cbn. rewrite Htimer.
    unfold checkAndRefreshTokens. rewrite Ht.
    assert (Htruthy : truthy (refresh_token t) = true).
    { unfold getRefreshToken, orNull in Hrt. rewrite Ht in Hrt. cbn in Hrt.
      by destruct (truthy (refresh_token t)). }
    rewrite Htruthy. cbn. rewrite bool_decide_eq_true_2 by done.
    by rewrite Hrt.
Qed.

(** The amended C6 on a platform whose access token is about to expire. *)
Lemma every_trigger_posts_its_own_exchange_witness :
  (let p' := step aPlatform (Unauthorized 7 false) in
   exchanges p' = exchanges aPlatform ++ [(FromInterceptor 7, "refresh-1")]
   ∧ exchangeCount p' = S (exchangeCount aPlatform))
  ∧ (let p' := step aPlatform MonitorTick in
     exchanges p' = exchanges aPlatform ++ [(FromMonitor, "refresh-1")]
     ∧ exchangeCount p' = S (exchangeCount aPlatform)).
Proof.
  destruct (every_trigger_posts_its_own_exchange aPlatform 7 "refresh-1"
              eq_refl) as [H1 H2].
  split; [exact H1|]. apply H2; [reflexivity|].
  exists aTokenData. split; [reflexivity|]. vm_compute. discriminate.
Defined.

(** C6 as stated fails: a monitor tick and two 401 handlers, arriving
    before any exchange has settled, leave three exchanges in flight. *)
Lemma three_exchanges_in_flight :
  exchanges (run [MonitorTick; Unauthorized 7 false; Unauthorized 8 false]
               aPlatform)
  = [ (FromMonitor, "refresh-1"); (FromInterceptor 7, "refresh-1");
      (FromInterceptor 8, "refresh-1") ].
Proof. vm_compute. reflexivity. Qed.

(** *** C7 *)

Lemma newPlatform_now file oa or disk t0 :
  now (newPlatform file oa or disk t0) = t0.
Proof.
  unfold newPlatform, loadTokens. cbn.
  destruct file; cbn; [|done|done].
  destruct (truthy oa && truthy or); [|done]. cbn. by destruct disk.
Qed.

(** C7, as amended.  If the window holds at least N counted entries then
    the detection answers true and the handler of [didFinishLaunching]
    takes the recovery path, whatever the token store and the disk are
    like: [startAuthFlow] is called once and the handler returns without
    [initialize], so no exchange is posted and discovery is not entered.
    When a token file exists and the disk takes its removal, there is
    afterwards no token data in memory and no token file; when the removal
    fails, the token data in memory and the file stay as they were.  In
    particular, at every start-up on a disk that takes writes and removals
    the recovery leaves no token data in memory and no token file. *)
Theorem crash_loop_clears_tokens (cfg : CrashLoopConfig)
    (records : list CrashRecord) :
  (∀ p0 : Platform,
     (maxCrashes cfg ≤ length (counted cfg (now p0) records))%nat →
     let p := step p0 (DidFinishLaunching cfg records) in
     isCrashLoopDetected cfg (now p0) records = true
     ∧ authFlows p = S (authFlows p0)
     ∧ phase p = Recovered
     ∧ exchangeCount p = exchangeCount p0
     ∧ (tokenFile p0 ≠ NoFile → diskFails p0 = false →
        tokenData p = None ∧ tokenFile p = NoFile)
     ∧ (tokenFile p0 ≠ NoFile → diskFails p0 = true →
        tokenData p = tokenData p0 ∧ tokenFile p = tokenFile p0))
  ∧ (∀ (file : TokenFile) (oauth_access oauth_refresh : option string)
       (t0 : Z),
       (maxCrashes cfg ≤ length (counted cfg t0 records))%nat →
       let p0 := newPlatform file oauth_access oauth_refresh false t0 in
       let p := step p0 (DidFinishLaunching cfg records) in
       tokenData p = None
       ∧ tokenFile p = NoFile
       ∧ authFlows p = 1%nat
       ∧ phase p = Recovered
       ∧ exchangeCount p = 0%nat).
Proof.
  split.
  - intros p0 Hn p.
    assert (Hd : isCrashLoopDetected cfg (now p0) records = true).
    { unfold isCrashLoopDetected. by apply bool_decide_eq_true_2. }
    split; [exact Hd|].
    subst p. cbn [step]. unfold didFinishLaunching. rewrite Hd. clear Hd Hn.
    destruct p0 as [td tf rt df nw af ex ec re rj ph].
    unfold handleCrashLoopRecovery, clearTokens. cbn.
    destruct tf as [| |t], df; cbn; repeat split; done.
  - intros file oauth_access oauth_refresh t0 Hn p0 p.
    assert (Hd : isCrashLoopDetected cfg t0 records = true).
    { unfold isCrashLoopDetected. by apply bool_decide_eq_true_2. }
    subst p. cbn [step]. unfold didFinishLaunching.
    subst p0. rewrite newPlatform_now, Hd.
    unfold newPlatform, loadTokens. cbn.
    destruct file as [| |t]; cbn; try done.
    destruct (truthy oauth_access && truthy oauth_refresh); cbn; done.
Qed.

(** The amended C7 at three crashes within ten minutes, threshold three, on
    a disk that takes the removal and on one that refuses it. *)
Lemma crash_loop_clears_tokens_witness :
  (let p := step aPlatform (DidFinishLaunching aCrashConfig threeCrashes) in
   isCrashLoopDetected aCrashConfig 1700000000000 threeCrashes = true
   ∧ authFlows p = 1%nat ∧ phase p = Recovered ∧ exchangeCount p = 0%nat
   ∧ tokenData p = None ∧ tokenFile p = NoFile)
  ∧ (let p0 := newPlatform (Stored aTokenData) None None true 1700000000000 in
     let p := step p0 (DidFinishLaunching aCrashConfig threeCrashes) in
     authFlows p = 1%nat ∧ phase p = Recovered
     ∧ tokenData p = Some aTokenData ∧ tokenFile p = Stored aTokenData).
Proof.
  destruct (crash_loop_clears_tokens aCrashConfig threeCrashes) as [Hany Hnew].
  split.
  - destruct (Hany aPlatform) as (H1 & H2 & H3 & H4 & H5 & _);
      [vm_compute; lia|].
    destruct (H5 ltac:(discriminate) eq_refl) as [H6 H7].
    split; [exact H1|]. split; [exact H2|]. split; [exact H3|].
    split; [exact H4|]. split; [exact H6|exact H7].
  - destruct (Hany (newPlatform (Stored aTokenData) None None true
                      1700000000000))
      as (H1 & H2 & H3 & H4 & _ & H5); [vm_compute; lia|].
    destruct (H5 ltac:(discriminate) eq_refl) as [H6 H7].
    split; [exact H2|]. split; [exact H3|]. split; [exact H6|exact H7].
Defined.

(** C7 as stated fails on a disk that refuses the removal: after the
    recovery the token data is still in memory and the token file is still
    there. *)
Lemma crash_loop_keeps_tokens_when_removal_fails :
  let p0 := newPlatform (Stored aTokenData) None None true 1700000000000 in
  let p := step p0 (DidFinishLaunching aCrashConfig threeCrashes) in
  isCrashLoopDetected aCrashConfig 1700000000000 threeCrashes = true
  ∧ phase p = Recovered
  ∧ tokenData p = Some aTokenData
  ∧ tokenFile p = Stored aTokenData.
Proof. vm_compute. repeat split. Qed.

(** *** C10 *)

(** C10.  A token exchange that succeeds for the 401 handler or for
    [initialize] leaves the token data, the token file and the access token
    handed out as they were before the trigger; the handler re-sends the
    request with the token it already had. *)
Theorem refresh_outside_monitor_keeps_tokens (p : Platform) (rt : string)
    (res : PartialTokenData) :
  getRefreshToken p = Some rt →
  (∀ req,
     let p1 := step p (Unauthorized req false) in
     let p2 := step p1 (ExchangeSettles (FromInterceptor req) (Some res)) in
     exchangeCount p1 = S (exchangeCount p)
     ∧ tokenData p2 = tokenData p ∧ tokenFile p2 = tokenFile p
     ∧ getAccessToken p2 = getAccessToken p
     ∧ ∀ token, getAccessToken p = Some token →
                retries p2 = retries p ++ [(req, token)])
  ∧ (∀ cfg records,
       isCrashLoopDetected cfg (now p) records = false →
       getAccessToken p = None ∨ isTokenValid p = false →
       isRefreshTokenValid p = true →
       let p1 := step p (DidFinishLaunching cfg records) in
       let p2 := step p1 (ExchangeSettles FromInitialize (Some res)) in
       exchangeCount p1 = S (exchangeCount p)
       ∧ tokenData p2 = tokenData p ∧ tokenFile p2 = tokenFile p
       ∧ getAccessToken p2 = getAccessToken p).
Proof.
  intros Hrt. split.
  - intros req p1 p2. subst p2 p1. cbn [step]. unfold unauthorized.
    rewrite Hrt. cbn.
    rewrite (bool_decide_eq_true_2 _ (origin_in_flight _ _ _)).
    unfold getAccessToken. cbn.
    destruct (orNull (tokenData p ≫= access_token)) as [token|] eqn:Htok; cbn.
    + repeat split; try done. by intros ? [= ->].
    + repeat split; done.
  - intros cfg records Hd Hbad Hvalid p1 p2. subst p2 p1.
    cbn [step]. unfold didFinishLaunching. rewrite Hd. unfold initialize.
    assert (Hguard : negb (bool_decide (is_Some (getAccessToken p)))
                     || negb (isTokenValid p) = true).
    { destruct Hbad as [->| ->]; [done|]. by rewrite orb_true_r. }
    rewrite Hguard, Hvalid, Hrt. cbn.
    rewrite (bool_decide_eq_true_2 _ (origin_in_flight _ _ _)).
    unfold afterInitialize, getAccessToken. cbn.
    destruct (bool_decide _); cbn; repeat split; done.
Qed.

(** C10 on a platform whose access token is about to expire: after the 401
    handler's refresh has succeeded the access token is still the old one,
    and the request is re-sent with it. *)
Lemma refresh_outside_monitor_keeps_tokens_witness :
  let p1 := step aPlatform (Unauthorized 7 false) in
  let p2 := step p1 (ExchangeSettles (FromInterceptor 7) (Some newTokens)) in
  exchangeCount p1 = S (exchangeCount aPlatform)
  ∧ tokenData p2 = tokenData aPlatform ∧ tokenFile p2 = tokenFile aPlatform
  ∧ getAccessToken p2 = Some "access-1"
  ∧ retries p2 = [(7%nat, "access-1")].
Proof.
  destruct (proj1 (refresh_outside_monitor_keeps_tokens aPlatform "refresh-1"
                     newTokens eq_refl) 7%nat) as (H1 & H2 & H3 & H4 & H5).
  split; [exact H1|]. split; [exact H2|]. split; [exact H3|].
  split; [exact H4|]. exact (H5 "access-1" eq_refl).
Defined.

End TokensFacts.

(** ** Properties of discovery, registration and event routing *)

Module DiscoveryFacts.
Import Resolver Discovery.

(** *** What the two table stages keep *)

Section Stages.
Context (config : Config) (cid : string).
Context (I : list BaseService → list string → Prop).
Hypothesis I_push : ∀ new cover k all,
  k ≠ TelevisionService → fromTables k all → I new cover →
  I (new ++ [mkService k cid all]) (filter (λ e, e ∉ all) cover).

Lemma register_keeps base new cover req opt k :
  k ≠ TelevisionService →
  (∀ cover : list string,
     fromTables k (req ++ filter (λ e, e ∈ cover) opt)) →
  I new cover →
  ∃ new' cover',
    registerServiceIfMatchesCapabilities (base ++ new) cid cover req opt k
      = (base ++ new', cover')
    ∧ I new' cover'.
Proof.
  intros Hk Hfrom HI. unfold registerServiceIfMatchesCapabilities.
  destruct (negb _).
  - eauto.
  - eexists _, _. split; [rewrite <- (assoc_L (++)); reflexivity|].
    apply I_push; [exact Hk|apply Hfrom|exact HI].
Qed.

Lemma comboStage_keeps table base new cover :
  Forall (λ e, e_service e ≠ TelevisionService ∧ e ∈ comboCapabilityMap)
    table →
  I new cover →
  ∃ new' cover',
    comboStage cid table (base ++ new, cover) = (base ++ new', cover')
    ∧ I new' cover'.
Proof.
  intros Ht. revert new cover.
  induction Ht as [|e table [He Hin] _ IH]; intros new cover HI.
  - by exists new, cover.
  - rewrite ResolverFacts.comboStage_cons. cbn [fst snd].
    destruct (register_keeps base new cover (e_capabilities e)
                (default [] (e_optionalCapabilities e)) (e_service e) He)
      as (new1 & cover1 & -> & HI1); [|exact HI|by apply IH].
    intros cover'. left. exists e. split; [done|]. split; [done|].
    split.
    + intros c Hc. apply elem_of_app. by left.
    + intros c Hc. apply elem_of_app in Hc as [Hc|Hc];
        apply elem_of_app; [by left|right].
      by apply list_elem_of_filter in Hc as [_ Hc].
Qed.

Lemma singleStage_keeps base new cover :
  I new cover →
  ∃ new' cover',
    singleStage config cid (base ++ new, cover) = (base ++ new', cover')
    ∧ I new' cover'.
Proof.
  unfold singleStage.
  assert (Hk : Forall (λ e : string * ServiceKind,
                         e.2 ≠ TelevisionService ∧ e ∈ capabilityMap)
                 capabilityMap).
  { apply Forall_forall. intros e He. split; [|done].
    by apply (proj1 (Forall_forall _ _) ResolverFacts.single_kinds). }
  revert Hk new cover. generalize capabilityMap at 2 3.
  intros table Hk. induction Hk as [|e table [He Hin] _ IH];
    intros new cover HI.
  - by exists new, cover.
  - cbn [foldl fst snd].
    destruct (bool_decide _ && negb _).
    + by apply IH.
    + destruct (register_keeps base new cover [e.1] [] e.2 He)
        as (new1 & cover1 & -> & HI1); [|exact HI|by apply IH].
      intros cover'. right. by exists e.
Qed.

Lemma sorted_from_table :
  Forall (λ e, e_service e ≠ TelevisionService ∧ e ∈ comboCapabilityMap)
    (sortCombo comboCapabilityMap).
Proof.
  rewrite ResolverFacts.sortCombo_table.
  repeat (apply Forall_cons; split;
          [split; [discriminate|ResolverFacts.closed_decision]|]).
  apply Forall_nil_2.
Qed.

Lemma tables_keep n base new cover :
  I new cover →
  ∃ new' cover',
    singleStage config cid
      (comboStage cid (sortCombo (comboTableAfter n)) (base ++ new, cover))
    = (base ++ new', cover')
    ∧ I new' cover'.
Proof.
  intros HI. rewrite ResolverFacts.sortCombo_tableAfter.
  destruct (comboStage_keeps _ base new cover sorted_from_table HI)
    as (new1 & cover1 & -> & HI1).
  by apply singleStage_keeps.
Qed.
End Stages.

(** [addComponent] in terms of its three stages. *)
Lemma addComponent_stages tv config table acc cid caps :
  addComponent tv config table acc cid caps
  = (sortCombo table,
     mkAccessory (components acc ++ [mkComponent cid caps "{}"])
       (singleStage config cid
          (comboStage cid (sortCombo table)
             (televisionBlock tv config (services acc) cid caps caps))).1).
Proof. reflexivity. Qed.

(** What the television block leaves: nothing, the Television service, or
    the Television service and the volume slider. *)
Lemma televisionBlock_cases tv config base cid caps :
  let tvCapabilities := filter (λ cap, cap ∈ caps) (getTvCapabilities tv) in
  let kept := filter (λ cap, cap ∉ tvCapabilities) caps in
  let cover :=
    if isTrue (removeLegacySwitchForTV config)
       && includes tvCapabilities "switch"
    then kept
    else if includes tvCapabilities "switch" then kept ++ ["switch"]
    else kept in
  let volumeSliderCapabilities :=
    filter (λ cap, cap ∈ caps) (getVolumeSliderCapabilities tv) in
  televisionBlock tv config base cid caps caps = (base ++ [], caps)
  ∨ (notFalse (enableTelevisionService config) = true ∧ cid = "main"
     ∧ isTelevisionDevice tv = true ∧ tvCapabilities ≠ []
     ∧ (televisionBlock tv config base cid caps caps
        = (base ++ [mkService TelevisionService cid tvCapabilities], cover)
        ∨ televisionBlock tv config base cid caps caps
          = (base ++ [mkService TelevisionService cid tvCapabilities;
                      mkService VolumeSliderService cid
                        volumeSliderCapabilities],
             filter (λ cap, cap ∉ volumeSliderCapabilities) cover))).
Proof.
  intros tvCapabilities kept cover volumeSliderCapabilities.
  unfold televisionBlock. fold tvCapabilities. fold kept. fold cover.
  fold volumeSliderCapabilities.
  destruct (notFalse (enableTelevisionService config)); cbn [andb];
    [|left; by rewrite app_nil_r].
  case_bool_decide as Hcid; cbn [andb]; [|left; by rewrite app_nil_r].
  destruct (isTelevisionDevice tv); [|left; by rewrite app_nil_r].
  case_bool_decide as Hlen; [|left; by rewrite app_nil_r].
  right. repeat split; try done.
  { intros E. rewrite E in Hlen. cbn in Hlen. lia. }
  destruct (isTrue (registerVolumeSlider config) && true
            && supportsVolumeSlider tv caps); [|by left].
  case_bool_decide; [|by left].
  right. by rewrite <- (assoc_L (++)).
Qed.

(** The single-capability stage leaves no key of its table to cover, the
    display light apart when it is not exposed. *)
Lemma singleStage_clears config cid st key :
  key ∈ capabilityMap.*1 →
  (key = "samsungce.airConditionerLighting" →
   ExposeACDisplayLight config = true) →
  key ∉ (singleStage config cid st).2.
Proof.
  unfold singleStage. intros Hkey Hexposed.
  assert (Hmono : ∀ l st c,
    c ∉ st.2 →
    c ∉ (foldl (λ st entry,
           if bool_decide (entry.1 = "samsungce.airConditionerLighting")
              && negb (ExposeACDisplayLight config)
           then st
           else registerServiceIfMatchesCapabilities st.1 cid st.2
                  [entry.1] [] entry.2) st l).2).
  { induction l as [|e l IH]; intros st' c Hc; [done|].
    cbn [foldl]. apply IH. cbv beta.
    destruct (bool_decide _ && negb _); [done|].
    unfold registerServiceIfMatchesCapabilities.
    destruct (negb (forallb _ _)); cbn [snd]; [done|].
    rewrite list_elem_of_filter. tauto. }
  revert st. induction capabilityMap as [|e l IH]; intros st.
  - by apply elem_of_nil in Hkey.
  - cbn [fmap list_fmap] in Hkey. apply elem_of_cons in Hkey.
    destruct (decide (key = e.1)) as [->|Hne].
    + cbn [foldl]. apply Hmono.
      case_bool_decide as Hac; cbn [andb].
      * rewrite (Hexposed Hac). cbn [negb].
        unfold registerServiceIfMatchesCapabilities.
        destruct (negb (forallb _ _)) eqn:Hreq; cbn [snd].
        -- cbn [forallb] in Hreq. rewrite andb_true_r in Hreq.
           apply negb_true_iff in Hreq.
           intros Hin. apply ResolverFacts.includes_true in Hin. congruence.
        -- rewrite list_elem_of_filter, app_nil_r.
           intros [H _]. apply H, list_elem_of_here.
      * unfold registerServiceIfMatchesCapabilities.
        destruct (negb (forallb _ _)) eqn:Hreq; cbn [snd].
        -- cbn [forallb] in Hreq. rewrite andb_true_r in Hreq.
           apply negb_true_iff in Hreq.
           intros Hin. apply ResolverFacts.includes_true in Hin. congruence.
        -- rewrite list_elem_of_filter, app_nil_r.
           intros [H _]. apply H, list_elem_of_here.
    + cbn [foldl]. apply IH. tauto.
Qed.

(** X1.  Every declared capability that has an entry in the single-capability
    table is held by a service that [addComponent] registers for the
    component (the display light only when it is exposed). *)
Theorem supported_capability_is_bound (tv : TvStatics) (config : Config)
    (n : nat) (acc : Accessory) (cid : string) (caps : list string)
    (c : string) :
  c ∈ caps →
  c ∈ capabilityMap.*1 →
  (c = "samsungce.airConditionerLighting" →
   ExposeACDisplayLight config = true) →
  ∃ s, s ∈ registered tv config (comboTableAfter n) acc cid caps
       ∧ componentId s = cid ∧ c ∈ capabilities s.
Proof.
  intros Hc Hkey Hexposed.
  set (I := λ (new : list BaseService) (cover : list string),
              c ∈ cover ∨ ∃ s, s ∈ new ∧ componentId s = cid
                               ∧ c ∈ capabilities s).
  assert (I_push : ∀ new cover k all,
            k ≠ TelevisionService → fromTables k all → I new cover →
            I (new ++ [mkService k cid all]) (filter (λ e, e ∉ all) cover)).
  { intros new cover k all _ _ [Hin|(s & Hs & Hcid & Hcs)].
    - destruct (decide (c ∈ all)) as [Hall|Hall].
      + right. exists (mkService k cid all).
        split; [apply elem_of_app; right; apply list_elem_of_here|done].
      + left. apply list_elem_of_filter. tauto.
    - right. exists s. split; [apply elem_of_app; by left|done]. }
  assert (Htv : ∃ new cover,
            televisionBlock tv config (services acc) cid caps caps
            = (services acc ++ new, cover) ∧ I new cover).
  { destruct (televisionBlock_cases tv config (services acc) cid caps)
      as [E|(_ & _ & _ & _ & [E|E])]; rewrite E; eexists _, _;
      (split; [reflexivity|]).
    - by left.
    - destruct (decide (c ∈ filter (λ cap, cap ∈ caps) (getTvCapabilities tv)))
        as [Hin|Hout].
      + right. eexists. split; [apply list_elem_of_singleton; reflexivity|].
        done.
      + left.
        assert (c ∈ filter
                  (λ cap, cap ∉ filter (λ cap, cap ∈ caps)
                                  (getTvCapabilities tv)) caps)
          by (apply list_elem_of_filter; tauto).
        destruct (_ && _); [done|].
        destruct (includes _ _); [|done]. apply elem_of_app; by left.
    - destruct (decide (c ∈ filter (λ cap, cap ∈ caps) (getTvCapabilities tv)))
        as [Hin|Hout].
      + right. eexists. split; [apply list_elem_of_here|]. done.
      + destruct (decide (c ∈ filter (λ cap, cap ∈ caps)
                                (getVolumeSliderCapabilities tv)))
          as [Hvol|Hvol].
        * right. eexists.
          split; [apply list_elem_of_further, list_elem_of_here|]. done.
        * left. apply list_elem_of_filter. split; [done|].
          assert (c ∈ filter
                    (λ cap, cap ∉ filter (λ cap, cap ∈ caps)
                                    (getTvCapabilities tv)) caps)
            by (apply list_elem_of_filter; tauto).
          destruct (_ && _); [done|].
          destruct (includes _ _); [|done]. apply elem_of_app; by left. }
  destruct Htv as (new0 & cover0 & Etv & HI0).
  destruct (tables_keep config cid I I_push n (services acc) new0 cover0 HI0)
    as (new & cover & E & HI).
  pose proof (singleStage_clears config cid
                (comboStage cid (sortCombo (comboTableAfter n))
                   (services acc ++ new0, cover0)) c Hkey Hexposed) as Hclear.
  rewrite E in Hclear. cbn [snd] in Hclear.
  unfold registered. rewrite addComponent_stages. cbn [snd services].
  rewrite Etv, E. cbn [fst]. rewrite drop_app_length.
  destruct HI as [Hin|HI]; [done|exact HI].
Qed.

Lemma supported_capability_is_bound_witness :
  ∃ s, s ∈ registered noTv plainConfig (comboTableAfter 0) emptyAccessory
             "main" ["switch"; "switchLevel"]
       ∧ componentId s = "main" ∧ "switch" ∈ capabilities s.
Proof.
  apply supported_capability_is_bound.
  - ResolverFacts.closed_decision.
  - ResolverFacts.closed_decision.
  - discriminate.
Defined.

Lemma find_eq_elem (l : list string) c :
  c ∈ l → List.find (λ x, bool_decide (x = c)) l = Some c.
Proof.
  induction 1 as [|x y l _ IH]; cbn [List.find].
  - by rewrite bool_decide_eq_true_2.
  - case_bool_decide; [congruence|done].
Qed.

Lemma find_eq_none (l : list string) c :
  c ∉ l → List.find (λ x, bool_decide (x = c)) l = None.
Proof.
  induction l as [|x l IH]; intros Hc; cbn [List.find]; [done|].
  rewrite not_elem_of_cons in Hc.
  rewrite bool_decide_eq_false_2 by (intros ->; tauto). apply IH. tauto.
Qed.

(** Every key of the single-capability table is a supported capability, and
    so is every capability of the two television tables. *)
Lemma capabilitySupported_key cls c :
  c ∈ capabilityMap.*1 → capabilitySupported cls c = true.
Proof.
  intros Hc. unfold capabilitySupported.
  change (map fst capabilityMap) with (capabilityMap.*1).
  rewrite (find_eq_elem _ _ Hc). cbn [foundTruthy].
  rewrite bool_decide_eq_false_2; [done|].
  intros ->. revert Hc. ResolverFacts.closed_decision.
Qed.

Lemma capabilitySupported_tv cls c :
  c ∈ tvCapabilityTable cls → capabilitySupported cls c = true.
Proof.
  intros Hc. unfold capabilitySupported.
  destruct (foundTruthy _); [done|].
  by rewrite (proj2 (ResolverFacts.includes_true _ _) Hc).
Qed.

(** Every entry of the combination table requires a capability that has an
    entry of its own in the single-capability table. *)
Lemma combo_requires_key :
  Forall (λ e, ∃ c, c ∈ e_capabilities e ∧ c ∈ capabilityMap.*1)
    (sortCombo comboCapabilityMap).
Proof.
  rewrite ResolverFacts.sortCombo_table.
  repeat (apply Forall_cons; split;
          [eexists; split; [apply list_elem_of_here|
                            ResolverFacts.closed_decision]|]).
  apply Forall_nil_2.
Qed.

Lemma filter_all_out {A} (P : A → Prop) `{!∀ x, Decision (P x)} (l : list A) :
  (∀ x, x ∈ l → ¬ P x) → filter P l = [].
Proof.
  induction l as [|x l IH]; intros Hall; [done|].
  rewrite filter_cons_False by (apply Hall, list_elem_of_here).
  apply IH. intros y Hy. apply Hall. by apply list_elem_of_further.
Qed.

Lemma comboStage_skip_all cid table svcs cover :
  Forall (λ e, ∃ c, c ∈ e_capabilities e ∧ c ∉ cover) table →
  comboStage cid table (svcs, cover) = (svcs, cover).
Proof.
  induction 1 as [|e table (c & Hc & Hout) _ IH]; [done|].
  rewrite ResolverFacts.comboStage_cons. cbn [fst snd].
  by rewrite (ResolverFacts.register_skip svcs cid cover (e_capabilities e)
                _ _ c Hc Hout).
Qed.

Lemma singleStage_skip_all config cid svcs cover :
  (∀ c, c ∈ capabilityMap.*1 → c ∉ cover) →
  singleStage config cid (svcs, cover) = (svcs, cover).
Proof.
  unfold singleStage. induction capabilityMap as [|e l IH]; intros H; [done|].
  cbn [foldl fst snd].
  assert (He : e.1 ∉ cover) by (apply H, list_elem_of_here).
  rewrite (ResolverFacts.register_skip svcs cid cover [e.1] [] e.2 e.1
             (list_elem_of_here _ _) He).
  destruct (bool_decide _ && negb _);
    apply IH; intros c Hc; apply H; by apply list_elem_of_further.
Qed.

(** A component none of whose capabilities is supported gets no service. *)
Lemma unsupported_component_gets_no_service (cls : TvClasses)
    (device : Device) (config : Config) (n : nat) (acc : Accessory)
    (cid : string) (caps : list string) :
  (∀ c, c ∈ caps → capabilitySupported cls c = false) →
  services
    (addComponent (staticsOf cls device) config (comboTableAfter n) acc cid
       caps).2
  = services acc.
Proof.
  intros Hno.
  assert (Hkey : ∀ c, c ∈ capabilityMap.*1 → c ∉ caps).
  { intros c Hc Hin. pose proof (capabilitySupported_key cls c Hc) as Hs.
    rewrite (Hno c Hin) in Hs. done. }
  rewrite addComponent_stages. cbn [snd services].
  assert (Etv : televisionBlock (staticsOf cls device) config (services acc)
                  cid caps caps = (services acc, caps)).
  { destruct (televisionBlock_cases (staticsOf cls device) config
                (services acc) cid caps) as [E|(_ & _ & _ & Hne & _)].
    - by rewrite E, app_nil_r.
    - exfalso. apply Hne. cbn [getTvCapabilities staticsOf].
      apply filter_all_out. intros c Hc Hin.
      pose proof (capabilitySupported_tv cls c Hc) as Hs.
      rewrite (Hno c Hin) in Hs. done. }
  rewrite Etv, ResolverFacts.sortCombo_tableAfter.
  rewrite comboStage_skip_all.
  - by rewrite singleStage_skip_all.
  - eapply Forall_impl; [apply combo_requires_key|].
    intros e (c & Hc & Hk). exists c. split; [done|by apply Hkey].
Qed.

(** [findSupportedCapability] is false only when no capability of any
    component is supported. *)
Lemma findSupportedCapability_false cls device :
  findSupportedCapability cls device = false →
  ∀ component c, component ∈ d_components device → c ∈ component.2 →
    capabilitySupported cls c = false.
Proof.
  unfold findSupportedCapability.
  assert (Htrue : ∀ l : list (string * list string),
            foldl (λ (found : bool) (component : string * list string),
                     if negb found
                        && bool_decide
                             (is_Some (List.find (capabilitySupported cls)
                                         component.2))
                     then true else found) true l = true).
  { induction l as [|x l IH]; [done|]. cbn [foldl negb andb]. exact IH. }
  induction (d_components device) as [|x l IH]; intros Hf component c Hin Hc.
  - by apply elem_of_nil in Hin.
  - cbn [foldl negb andb] in Hf.
    case_bool_decide as Hfind; [by rewrite Htrue in Hf|].
    apply elem_of_cons in Hin as [->|Hin]; [|by eapply IH].
    destruct (List.find (capabilitySupported cls) x.2) eqn:E.
    + exfalso. apply Hfind. by eexists.
    + apply (List.find_none _ _ E). by apply list_elem_of_In.
Qed.

Lemma findSupportedCapability_true cls device component c :
  component ∈ d_components device → c ∈ component.2 →
  capabilitySupported cls c = true →
  findSupportedCapability cls device = true.
Proof.
  intros Hin Hc Hs.
  destruct (findSupportedCapability cls device) eqn:E; [done|].
  rewrite (findSupportedCapability_false cls device E component c Hin Hc)
    in Hs.
  done.
Qed.

(** The combination table after one more call of [addComponent]. *)
Lemma addComponent_table tv config n acc cid caps :
  (addComponent tv config (comboTableAfter n) acc cid caps).1
  = comboTableAfter (S n).
Proof. reflexivity. Qed.

(** X2.  A device that [findSupportedCapability] turns down would have been
    given no service: the accessory object [createAccessoryObject] makes
    for it has an empty service list. *)
Theorem skipped_device_has_no_service (cls : TvClasses) (config : Config)
    (n : nat) (device : Device) (accessory : PlatformAccessory) :
  findSupportedCapability cls device = false →
  services
    (createAccessoryObject cls config (comboTableAfter n) device accessory).2
  = [].
Proof.
  intros Hf. pose proof (findSupportedCapability_false cls device Hf) as Hno.
  unfold createAccessoryObject.
  enough (H : ∀ l n acc,
            (∀ component c, component ∈ l → c ∈ component.2 →
               capabilitySupported cls c = false) →
            services
              (foldl (λ (st : list ComboEntry * Accessory)
                        (component : string * list string),
                        addComponent (staticsOf cls (context_device accessory))
                          config st.1 st.2 component.1 component.2)
                 (comboTableAfter n, acc) l).2
            = services acc)
    by (apply (H _ n emptyAccessory Hno)).
  clear. induction l as [|x l IH]; intros n acc Hno; [done|].
  cbn [foldl fst snd].
  rewrite (surjective_pairing (addComponent _ _ _ _ _ _)).
  rewrite addComponent_table.
  rewrite IH.
  - apply unsupported_component_gets_no_service.
    intros c Hc. apply (Hno x c); [apply list_elem_of_here|done].
  - intros component c Hin. apply Hno. by apply list_elem_of_further.
Qed.

Lemma skipped_device_has_no_service_witness :
  services
    (createAccessoryObject someClasses plainConfig (comboTableAfter 0)
       (mkDeviceInfo "hub-1" [("main", ["refresh"; "healthCheck"])])
       (mkPlatformAccessory "hub-1"
          (mkDeviceInfo "hub-1" [("main", ["refresh"; "healthCheck"])]))).2
  = [].
Proof.
  apply (skipped_device_has_no_service someClasses plainConfig 0).
  reflexivity.
Defined.

(** A call of [addComponent] only appends to [this.services], and what it
    appends is bound to the component of the call. *)
Lemma addComponent_appends tv config n acc cid caps :
  services (addComponent tv config (comboTableAfter n) acc cid caps).2
  = services acc ++ registered tv config (comboTableAfter n) acc cid caps
  ∧ Forall (λ s, componentId s = cid)
      (registered tv config (comboTableAfter n) acc cid caps).
Proof.
  set (I := λ (new : list BaseService) (_ : list string),
              Forall (λ s, componentId s = cid) new).
  assert (I_push : ∀ new cover k all,
            k ≠ TelevisionService → fromTables k all → I new cover →
            I (new ++ [mkService k cid all]) (filter (λ e, e ∉ all) cover)).
  { intros new cover k all _ _ HI. apply Forall_app. split; [exact HI|].
    by apply Forall_singleton. }
  assert (Htv : ∃ new cover,
            televisionBlock tv config (services acc) cid caps caps
            = (services acc ++ new, cover) ∧ I new cover).
  { destruct (televisionBlock_cases tv config (services acc) cid caps)
      as [E|(_ & _ & _ & _ & [E|E])]; rewrite E; eexists _, _;
      (split; [reflexivity|]); unfold I; repeat constructor. }
  destruct Htv as (new0 & cover0 & Etv & HI0).
  destruct (tables_keep config cid I I_push n (services acc) new0 cover0 HI0)
    as (new & cover & E & HI).
  unfold registered. rewrite addComponent_stages. cbn [snd services].
  rewrite Etv, E. cbn [fst]. rewrite drop_app_length. done.
Qed.

Lemma addComponent_components tv config table acc cid caps :
  components (addComponent tv config table acc cid caps).2
  = components acc ++ [mkComponent cid caps "{}"].
Proof. reflexivity. Qed.

(** X3.  The accessory object of a device has one component record per
    component of the device, in order, and each of its services is bound
    to one of these components and holds only capabilities that this
    component declares.  Each component sorts the static table once
    more. *)
Theorem accessory_object_shape (cls : TvClasses) (config : Config) (n : nat)
    (device : Device) (accessory : PlatformAccessory) :
  let made :=
    createAccessoryObject cls config (comboTableAfter n) device accessory in
  made.1 = comboTableAfter (n + length (d_components device))
  ∧ map (λ c, (c_componentId c, c_capabilities c)) (components made.2)
    = d_components device
  ∧ ∀ s, s ∈ services made.2 →
      ∃ component, component ∈ d_components device
                   ∧ componentId s = component.1
                   ∧ capabilities s ⊆ component.2.
Proof.
  unfold createAccessoryObject.
  enough (H : ∀ l n acc,
            let made :=
              foldl (λ (st : list ComboEntry * Accessory)
                       (component : string * list string),
                       addComponent (staticsOf cls (context_device accessory))
                         config st.1 st.2 component.1 component.2)
                (comboTableAfter n, acc) l in
            made.1 = comboTableAfter (n + length l)
            ∧ map (λ c, (c_componentId c, c_capabilities c))
                (components made.2)
              = map (λ c, (c_componentId c, c_capabilities c))
                  (components acc) ++ l
            ∧ ∀ s, s ∈ services made.2 →
                s ∈ services acc
                ∨ ∃ component, component ∈ l
                               ∧ componentId s = component.1
                               ∧ capabilities s ⊆ component.2).
  { destruct (H (d_components device) n emptyAccessory) as (Ht & Hc & Hs).
    split; [exact Ht|]. split; [exact Hc|].
    intros s Hin. destruct (Hs s Hin) as [Hold|Hnew]; [|exact Hnew].
    by apply elem_of_nil in Hold. }
  clear n. induction l as [|x l IH]; intros n acc.
  - cbn [foldl fst snd length]. rewrite Nat.add_0_r, app_nil_r. auto.
  - cbn [foldl fst snd length].
    rewrite (surjective_pairing (addComponent _ _ _ _ _ _)).
    rewrite addComponent_table.
    destruct (IH (S n)
                (addComponent (staticsOf cls (context_device accessory))
                   config (comboTableAfter n) acc x.1 x.2).2)
      as (Ht & Hc & Hs).
    split; [rewrite Ht; f_equal; lia|].
    split.
    { rewrite Hc, addComponent_components, map_app. cbn [map c_componentId
        c_capabilities]. rewrite <- (assoc_L (++)). by destruct x. }
    intros s Hin. destruct (Hs s Hin) as [Hold|(component & Hl & Hcid & Hsub)].
    + destruct (addComponent_appends (staticsOf cls (context_device accessory))
                  config n acc x.1 x.2) as (Eapp & Hbound).
      rewrite Eapp in Hold. apply elem_of_app in Hold as [Hold|Hnew];
        [by left|].
      right. exists x. split; [apply list_elem_of_here|].
      split; [by apply (proj1 (Forall_forall _ _) Hbound)|].
      destruct (ResolverFacts.addComponent_resolving
                  (staticsOf cls (context_device accessory)) config x.2 n acc
                  x.1) as (cover & HR).
      by apply (res_sub _ _ _ _ HR).
    + right. exists component. split; [by apply list_elem_of_further|done].
Qed.

(** Every service that [addComponent] registers is the Television service,
    the volume slider, or comes from an entry of one of the two tables. *)
Lemma registered_provenance tv config n acc cid caps :
  Forall (λ s, kind s = TelevisionService ∨ kind s = VolumeSliderService
               ∨ fromTables (kind s) (capabilities s))
    (registered tv config (comboTableAfter n) acc cid caps).
Proof.
  set (P := λ s, kind s = TelevisionService ∨ kind s = VolumeSliderService
                 ∨ fromTables (kind s) (capabilities s)).
  set (I := λ (new : list BaseService) (_ : list string), Forall P new).
  assert (I_push : ∀ new cover k all,
            k ≠ TelevisionService → fromTables k all → I new cover →
            I (new ++ [mkService k cid all]) (filter (λ e, e ∉ all) cover)).
  { intros new cover k all _ Hfrom HI. apply Forall_app. split; [exact HI|].
    apply Forall_singleton. right. by right. }
  assert (Htv : ∃ new cover,
            televisionBlock tv config (services acc) cid caps caps
            = (services acc ++ new, cover) ∧ I new cover).
  { destruct (televisionBlock_cases tv config (services acc) cid caps)
      as [E|(_ & _ & _ & _ & [E|E])]; rewrite E; eexists _, _;
      (split; [reflexivity|]); unfold I.
    - constructor.
    - apply Forall_singleton. by left.
    - apply Forall_cons. split; [by left|].
      apply Forall_singleton. right. by left. }
  destruct Htv as (new0 & cover0 & Etv & HI0).
  destruct (tables_keep config cid I I_push n (services acc) new0 cover0 HI0)
    as (new & cover & E & HI).
  unfold registered. rewrite addComponent_stages. cbn [snd services].
  rewrite Etv, E. cbn [fst]. by rewrite drop_app_length.
Qed.

Lemma find_app_skip {A} (f : A → bool) l1 l2 :
  (∀ x, x ∈ l1 → f x = false) →
  List.find f (l1 ++ l2) = List.find f l2.
Proof.
  induction l1 as [|x l1 IH]; intros H; [done|].
  cbn [app List.find]. rewrite (H x) by apply list_elem_of_here.
  apply IH. intros y Hy. apply H. by apply list_elem_of_further.
Qed.

(** X4.  On the main component of a television whose Television service
    holds [switch], every [switch] event goes to the Television service.
    When the legacy switch is kept, a second service of the component
    holds [switch] as well, and [processEvent] never reaches it. *)
Theorem television_takes_switch_events (tv : TvStatics) (config : Config)
    (n : nat) (acc : Accessory) (caps : list string) :
  notFalse (enableTelevisionService config) = true →
  isTelevisionDevice tv = true →
  "switch" ∈ caps →
  "switch" ∈ getTvCapabilities tv →
  (∀ s, s ∈ services acc → componentId s ≠ "main") →
  let svcs :=
    services
      (addComponent tv config (comboTableAfter n) acc "main" caps).2 in
  (∃ s, processEvent svcs "main" "switch" = Some s
        ∧ kind s = TelevisionService)
  ∧ (isTrue (removeLegacySwitchForTV config) = false →
     ∃ t, t ∈ svcs ∧ kind t ≠ TelevisionService ∧ componentId t = "main"
          ∧ "switch" ∈ capabilities t
          ∧ processEvent svcs "main" "switch" ≠ Some t).
Proof.
  intros Hen Htv Hsw Htab Hacc svcs.
  set (tvCapabilities := filter (λ cap, cap ∈ caps) (getTvCapabilities tv)).
  set (television := mkService TelevisionService "main" tvCapabilities).
  assert (Hin : "switch" ∈ tvCapabilities)
    by (apply list_elem_of_filter; done).
  set (I := λ (new : list BaseService) (cover : list string),
              (∃ rest, new = television :: rest)
              ∧ (isTrue (removeLegacySwitchForTV config) = false →
                 "switch" ∈ cover
                 ∨ ∃ t, t ∈ new ∧ kind t ≠ TelevisionService
                        ∧ componentId t = "main"
                        ∧ "switch" ∈ capabilities t)).
  assert (I_push : ∀ new cover k all,
            k ≠ TelevisionService → fromTables k all → I new cover →
            I (new ++ [mkService k "main" all])
              (filter (λ e, e ∉ all) cover)).
  { intros new cover k all Hk _ [[rest ->] Hheld]. split; [by eexists|].
    intros Hkeep. destruct (Hheld Hkeep) as [Hc|(t & Ht & Hkt & Hct & Hst)].
    - destruct (decide ("switch" ∈ all)) as [Hall|Hall].
      + right. exists (mkService k "main" all).
        split; [apply elem_of_app; right; apply list_elem_of_here|done].
      + left. apply list_elem_of_filter. tauto.
    - right. exists t. split; [apply elem_of_app; by left|done]. }
  assert (Hblock : ∃ new cover,
            televisionBlock tv config (services acc) "main" caps caps
            = (services acc ++ new, cover) ∧ I new cover).
  { assert (Hcover : isTrue (removeLegacySwitchForTV config) = false →
              "switch" ∈
                (if isTrue (removeLegacySwitchForTV config)
                    && includes tvCapabilities "switch"
                 then filter (λ cap, cap ∉ tvCapabilities) caps
                 else if includes tvCapabilities "switch"
                 then filter (λ cap, cap ∉ tvCapabilities) caps ++ ["switch"]
                 else filter (λ cap, cap ∉ tvCapabilities) caps)).
    { intros ->. cbn [andb].
      rewrite (proj2 (ResolverFacts.includes_true _ _) Hin).
      apply elem_of_app. right. apply list_elem_of_here. }
    destruct (televisionBlock_cases tv config (services acc) "main" caps)
      as [E|(_ & _ & _ & _ & [E|E])].
    - exfalso. revert E. unfold televisionBlock.
      rewrite Hen, Htv, bool_decide_eq_true_2 by done. cbn [andb].
      fold tvCapabilities.
      rewrite bool_decide_eq_true_2.
      + destruct (_ && _ && _); [destruct (bool_decide _)|];
          intros E; apply (f_equal (λ p, length p.1)) in E; cbn [fst] in E;
          rewrite ?length_app in E; cbn [length] in E; lia.
      + destruct tvCapabilities; [by apply elem_of_nil in Hin|cbn; lia].
    - rewrite E. eexists _, _. split; [reflexivity|].
      split; [by eexists|]. intros Hkeep. left. by apply Hcover.
    - rewrite E. eexists _, _. split; [reflexivity|].
      split; [by eexists|]. intros Hkeep.
      destruct (decide ("switch" ∈ filter (λ cap, cap ∈ caps)
                                     (getVolumeSliderCapabilities tv)))
        as [Hvol|Hvol].
      + right. eexists.
        split; [apply list_elem_of_further, list_elem_of_here|]. done.
      + left. apply list_elem_of_filter. split; [done|by apply Hcover]. }
  destruct Hblock as (new0 & cover0 & Etv & HI0).
  destruct (tables_keep config "main" I I_push n (services acc) new0 cover0
              HI0) as (new & cover & E & [[rest ->] Hheld]).
  pose proof (singleStage_clears config "main"
                (comboStage "main" (sortCombo (comboTableAfter n))
                   (services acc ++ new0, cover0)) "switch") as Hclear.
  rewrite E in Hclear. cbn [snd] in Hclear.
  assert (Esvcs : svcs = services acc ++ television :: rest).
  { unfold svcs. rewrite addComponent_stages. cbn [snd services].
    by rewrite Etv, E. }
  assert (Eev : processEvent svcs "main" "switch" = Some television).
  { rewrite Esvcs. unfold processEvent. rewrite find_app_skip.
    - cbn [List.find television componentId capabilities].
      rewrite bool_decide_eq_true_2 by done.
      by rewrite (find_eq_elem _ _ Hin).
    - intros s Hs. rewrite bool_decide_eq_false_2; [done|by apply Hacc]. }
  split; [by exists television|].
  intros Hkeep. destruct (Hheld Hkeep) as [Hc|(t & Ht & Hkt & Hct & Hst)].
  - exfalso. apply Hclear; [ResolverFacts.closed_decision|discriminate|done].
  - exists t. split; [rewrite Esvcs; apply elem_of_app; by right|].
    repeat (split; [done|]). rewrite Eev. intros [= <-]. by apply Hkt.
Qed.

Lemma television_takes_switch_events_witness :
  let svcs :=
    services
      (addComponent aTelevision plainConfig (comboTableAfter 0) emptyAccessory
         "main" ["switch"; "samsungvd.mediaInputSource"]).2 in
  (∃ s, processEvent svcs "main" "switch" = Some s
        ∧ kind s = TelevisionService)
  ∧ (isTrue (removeLegacySwitchForTV plainConfig) = false →
     ∃ t, t ∈ svcs ∧ kind t ≠ TelevisionService ∧ componentId t = "main"
          ∧ "switch" ∈ capabilities t
          ∧ processEvent svcs "main" "switch" ≠ Some t).
Proof.
  apply (television_takes_switch_events aTelevision plainConfig 0
           emptyAccessory ["switch"; "samsungvd.mediaInputSource"]).
  - reflexivity.
  - reflexivity.
  - ResolverFacts.closed_decision.
  - ResolverFacts.closed_decision.
  - intros s Hs. by apply elem_of_nil in Hs.
Defined.

(** *** Registration with Homebridge *)

(** A cached accessory has a listed device exactly when its UUID is the
    [deviceId] of one. *)
Lemma find_device devices uuid :
  is_Some (List.find (λ device, bool_decide (deviceId device = uuid)) devices)
  ↔ uuid ∈ deviceId <$> devices.
Proof.
  induction devices as [|d devices IH]; cbn [List.find fmap list_fmap].
  - split; [by intros [? ?]|by intros ?%elem_of_nil].
  - case_bool_decide as Hd.
    + split; [intros _; rewrite <- Hd; apply list_elem_of_here|by eexists].
    + rewrite IH, elem_of_cons. split; [by right|]. by intros [E|H].
Qed.

Lemma accessoriesToRemove_cons a cached devices all :
  accessoriesToRemove (a :: cached) devices all
  = ((if all then [a] else [])
     ++ (if negb (bool_decide (UUID a ∈ deviceId <$> devices))
         then [a] else []))
    ++ accessoriesToRemove cached devices all.
Proof.
  unfold accessoriesToRemove. cbn [flat_map].
  by rewrite (bool_decide_ext _ _ (find_device devices (UUID a))).
Qed.

Lemma accessoriesToRemove_absent cached devices :
  accessoriesToRemove cached devices false
  = filter (λ a, UUID a ∉ deviceId <$> devices) cached.
Proof.
  induction cached as [|a cached IH]; [done|].
  rewrite accessoriesToRemove_cons, IH.
  case_bool_decide as Hfound; cbn [negb app].
  - by rewrite filter_cons_False by tauto.
  - by rewrite filter_cons_True.
Qed.

Lemma accessoriesToRemove_all cached devices :
  accessoriesToRemove cached devices true
  ≡ₚ cached ++ filter (λ a, UUID a ∉ deviceId <$> devices) cached.
Proof.
  induction cached as [|a cached IH]; [done|].
  rewrite accessoriesToRemove_cons, IH.
  case_bool_decide as Hfound; cbn [negb app].
  - by rewrite filter_cons_False by tauto.
  - rewrite filter_cons_True by done.
    constructor. by rewrite <- Permutation_middle.
Qed.

(** X5.  [unregisterDevices(devices)] hands Homebridge exactly the cached
    accessories that have no listed device, each once and in cache order,
    and makes no call when there is none.  With [all] set it hands over
    every cached accessory, and those without a listed device twice in
    the same call. *)
Theorem unregisterDevices_removes (devices : list Device) (p : Platform) :
  let absent :=
    filter (λ a, UUID a ∉ deviceId <$> devices) (accessories p) in
  unregisterDevices devices false p
  = (if decide (absent = []) then p
     else mkPlatform (accessories p) (accessoryObjects p) (comboTable p)
            (registerCalls p) (unregisterCalls p ++ [absent]))
  ∧ ∃ l, l ≡ₚ accessories p ++ absent
         ∧ unregisterDevices devices true p
           = (if decide (accessories p = []) then p
              else mkPlatform (accessories p) (accessoryObjects p)
                     (comboTable p) (registerCalls p)
                     (unregisterCalls p ++ [l])).
Proof.
  intros absent. split.
  - unfold unregisterDevices. rewrite accessoriesToRemove_absent.
    fold absent. destruct absent; cbn [length].
    + by rewrite bool_decide_eq_false_2 by lia.
    + rewrite bool_decide_eq_true_2 by lia. by rewrite decide_False.
  - exists (accessoriesToRemove (accessories p) devices true).
    split; [apply accessoriesToRemove_all|].
    unfold unregisterDevices.
    pose proof (accessoriesToRemove_all (accessories p) devices) as Hperm.
    apply Permutation_length in Hperm. rewrite length_app in Hperm.
    destruct (accessories p) as [|a cached] eqn:E.
    + cbn. done.
    + rewrite bool_decide_eq_true_2 by (rewrite Hperm; cbn [length]; lia).
      by rewrite decide_False.
Qed.

(** What [discoverDevices] leaves alone, and what it calls. *)
Lemma discoverDevices_effect cls config devices p :
  let p' := discoverDevices cls config devices p in
  accessories p' = accessories p
  ∧ unregisterCalls p' = unregisterCalls p
  ∧ registerCalls p'
    = registerCalls p
      ++ ((λ d, mkPlatformAccessory (deviceId d) d) <$>
          filter (λ d, findSupportedCapability cls d = true
                       ∧ deviceId d ∉ UUID <$> accessories p) devices)
  ∧ (accessoryObjects p').*1
    = (accessoryObjects p).*1
      ++ (deviceId <$>
          filter (λ d, findSupportedCapability cls d = true) devices).
Proof.
  unfold discoverDevices. revert p.
  induction devices as [|d devices IH]; intros p.
  - cbn. by rewrite !app_nil_r.
  - cbn [foldl]. destruct (IH (discoverDevice cls config p d))
      as (Ha & Hu & Hr & Ho).
    cbv zeta. rewrite Ha, Hu, Hr, Ho. clear IH Ha Hu Hr Ho.
    unfold discoverDevice.
    destruct (findSupportedCapability cls d) eqn:Hs.
    + destruct (List.find _ (accessories p)) as [existing|] eqn:Hfind.
      * cbn [accessories unregisterCalls registerCalls accessoryObjects].
        apply List.find_some in Hfind as [Hin Huuid].
        apply bool_decide_eq_true in Huuid.
        rewrite filter_cons_False.
        2:{ intros [_ Hout]. apply Hout. rewrite <- Huuid.
            apply list_elem_of_fmap_2. by apply list_elem_of_In. }
        rewrite (filter_cons_True _ d) by done.
        rewrite fmap_app, fmap_cons, <- (assoc_L (++)). cbn [fst fmap list_fmap].
        by rewrite Huuid.
      * cbn [accessories unregisterCalls registerCalls accessoryObjects].
        rewrite filter_cons_True.
        2:{ split; [done|]. intros Hin.
            apply list_elem_of_fmap in Hin as (a & Ea & Hin).
            apply list_elem_of_In in Hin.
            pose proof (List.find_none _ _ Hfind a Hin) as Hno.
            apply bool_decide_eq_false in Hno. congruence. }
        rewrite (filter_cons_True _ d) by done.
        rewrite !fmap_app, !fmap_cons, <- !(assoc_L (++)). done.
    + rewrite filter_cons_False by (intros [? _]; congruence).
      rewrite (filter_cons_False _ d) by congruence. done.
Qed.


(** X7.  A launch with [UnregisterAll] hands every cached accessory to
    [unregisterPlatformAccessories] and registers none of them again,
    although an accessory object is still made for each cached accessory
    whose device is listed with a supported capability. *)
Theorem unregisterAll_drops_cached_accessories (cls : TvClasses)
    (config : Config) (devices : list Device) (p : Platform)
    (a : PlatformAccessory) :
  a ∈ accessories p →
  let p' := registerListing cls config true devices p in
  (∃ l rest, unregisterCalls p' = unregisterCalls p ++ l :: rest ∧ a ∈ l)
  ∧ (∃ new, registerCalls p' = registerCalls p ++ new
            ∧ ∀ b, b ∈ new → UUID b ≠ UUID a)
  ∧ (∀ d, d ∈ devices → deviceId d = UUID a →
          findSupportedCapability cls d = true →
          UUID a ∈ (accessoryObjects p').*1).
Proof.
  intros Ha p'. unfold p', registerListing.
  set (p1 := unregisterDevices devices true p).
  assert (E1 : p1 = mkPlatform (accessories p) (accessoryObjects p)
                      (comboTable p) (registerCalls p)
                      (unregisterCalls p
                       ++ [accessoriesToRemove (accessories p) devices true])).
  { unfold p1, unregisterDevices.
    pose proof (accessoriesToRemove_all (accessories p) devices) as Hperm.
    apply Permutation_length in Hperm. rewrite length_app in Hperm.
    rewrite bool_decide_eq_true_2; [done|].
    rewrite Hperm. destruct (accessories p); [by apply elem_of_nil in Ha|].
    cbn [length]. lia. }
  destruct (discoverDevices_effect cls config devices p1)
    as (Hacc & Hu & Hr & Ho).
  set (p2 := discoverDevices cls config devices p1) in *.
  rewrite E1 in Hacc, Hu, Hr, Ho.
  cbn [accessories unregisterCalls registerCalls accessoryObjects]
    in Hacc, Hu, Hr, Ho.
  assert (Hkeep :
    accessories (unregisterDevices devices false p2) = accessories p2
    ∧ registerCalls (unregisterDevices devices false p2) = registerCalls p2
    ∧ accessoryObjects (unregisterDevices devices false p2)
      = accessoryObjects p2
    ∧ ∃ rest, unregisterCalls (unregisterDevices devices false p2)
              = unregisterCalls p2 ++ rest).
  { unfold unregisterDevices. destruct (bool_decide _); cbn.
    - repeat (split; [done|]). by eexists.
    - repeat (split; [done|]). exists []. by rewrite app_nil_r. }
  destruct Hkeep as (_ & Hr' & Ho' & rest & Hu').
  split; [|split].
  - exists (accessoriesToRemove (accessories p) devices true), rest.
    split; [by rewrite Hu', Hu, <- (assoc_L (++))|].
    rewrite accessoriesToRemove_all. apply elem_of_app. by left.
  - eexists. split; [rewrite Hr', Hr; reflexivity|].
    intros b Hb. apply list_elem_of_fmap in Hb as (d & -> & Hd).
    apply list_elem_of_filter in Hd as [[_ Hout] _]. cbn [UUID].
    intros E. apply Hout. rewrite E. by apply list_elem_of_fmap_2.
  - intros d Hd Hid Hs. rewrite Ho', Ho. apply elem_of_app. right.
    rewrite <- Hid. apply list_elem_of_fmap_2. by apply list_elem_of_filter.
Qed.

Lemma unregisterAll_drops_cached_accessories_witness :
  let a := mkPlatformAccessory "lamp-1" lamp in
  let p' :=
    registerListing someClasses plainConfig true [lamp; television]
      cachedPlatform in
  (∃ l rest, unregisterCalls p' = unregisterCalls cachedPlatform ++ l :: rest
             ∧ a ∈ l)
  ∧ (∃ new, registerCalls p' = registerCalls cachedPlatform ++ new
            ∧ ∀ b, b ∈ new → UUID b ≠ UUID a)
  ∧ (∀ d, d ∈ [lamp; television] → deviceId d = UUID a →
          findSupportedCapability someClasses d = true →
          UUID a ∈ (accessoryObjects p').*1).
Proof.
  apply (unregisterAll_drops_cached_accessories someClasses plainConfig
           [lamp; television] cachedPlatform
           (mkPlatformAccessory "lamp-1" lamp)).
  apply list_elem_of_here.
Defined.

(** *** [withRetry] *)

Section Retry.
Context {T : Type} (operation : nat → Attempt T) (maxRetries : nat)
  (baseDelayMs : Z).

#[local] Arguments isNetworkError : simpl never.

(** [m] network failures in a row from [attempt] on, then an attempt that
    settles the call. *)
Lemma retryLoop_decisive m : ∀ attempt remaining lastError,
  (attempt + m ≤ maxRetries)%nat → (m < remaining)%nat →
  (∀ j, (attempt ≤ j < attempt + m)%nat →
     ∃ e, operation j = Fails e ∧ isNetworkError e = true) →
  (∀ v, operation (attempt + m)%nat = Succeeds v →
     retryLoop operation maxRetries baseDelayMs remaining attempt lastError
     = (inl v, S m,
        (λ attempt, baseDelayMs * 2 ^ (Z.of_nat attempt - 1))
          <$> seq attempt m))
  ∧ (∀ e, operation (attempt + m)%nat = Fails e →
       isNetworkError e = false →
       retryLoop operation maxRetries baseDelayMs remaining attempt lastError
       = (inr (Some e), S m,
          (λ attempt, baseDelayMs * 2 ^ (Z.of_nat attempt - 1))
            <$> seq attempt m)).
Proof.
  induction m as [|m IH]; intros attempt remaining lastError Hmax Hrem Hnet.
  - rewrite Nat.add_0_r. destruct remaining as [|remaining]; [lia|].
    split.
    + intros v E. cbn [retryLoop]. by rewrite E.
    + intros e E He. cbn [retryLoop]. rewrite E, He.
      by rewrite andb_false_r.
  - destruct remaining as [|remaining]; [lia|].
    destruct (Hnet attempt) as (e0 & E0 & He0); [lia|].
    destruct (IH (S attempt) remaining (Some e0)) as [IHv IHe];
      [lia|lia|intros j Hj; apply Hnet; lia|].
    replace (attempt + S m)%nat with (S attempt + m)%nat by lia.
    split.
    + intros v E. cbn [retryLoop]. rewrite E0, He0.
      rewrite bool_decide_eq_true_2 by lia. cbn [andb].
      by rewrite (IHv v E).
    + intros e E He. cbn [retryLoop]. rewrite E0, He0.
      rewrite bool_decide_eq_true_2 by lia. cbn [andb].
      by rewrite (IHe e E He).
Qed.

(** Network failures at every attempt that is left. *)
Lemma retryLoop_exhausted m : ∀ attempt lastError,
  (attempt + m = maxRetries)%nat →
  (∀ j, (attempt ≤ j ≤ maxRetries)%nat →
     ∃ e, operation j = Fails e ∧ isNetworkError e = true) →
  ∃ e, operation maxRetries = Fails e
       ∧ retryLoop operation maxRetries baseDelayMs (S m) attempt lastError
         = (inr (Some e), S m,
            (λ attempt, baseDelayMs * 2 ^ (Z.of_nat attempt - 1))
              <$> seq attempt m).
Proof.
  induction m as [|m IH]; intros attempt lastError Hmax Hnet.
  - rewrite Nat.add_0_r in Hmax. subst attempt.
    destruct (Hnet maxRetries) as (e & E & He); [lia|].
    exists e. split; [done|]. cbn [retryLoop]. rewrite E, He.
    by rewrite bool_decide_eq_false_2 by lia.
  - destruct (Hnet attempt) as (e0 & E0 & He0); [lia|].
    destruct (IH (S attempt) (Some e0)) as (e & E & Hloop);
      [lia|intros j Hj; apply Hnet; lia|].
    exists e. split; [done|].
    change (retryLoop operation maxRetries baseDelayMs (S (S m)) attempt
              lastError)
      with (match operation attempt with
            | Succeeds v => (inl v, 1%nat, [])
            | Fails e =>
                if bool_decide (attempt < maxRetries)%nat && isNetworkError e
                then
                  let '(r, n, ds) :=
                    retryLoop operation maxRetries baseDelayMs (S m)
                      (S attempt) (Some e) in
                  (r, S n, baseDelayMs * 2 ^ (Z.of_nat attempt - 1) :: ds)
                else if negb (isNetworkError e) then (inr (Some e), 1%nat, [])
                else
                  let '(r, n, ds) :=
                    retryLoop operation maxRetries baseDelayMs (S m)
                      (S attempt) (Some e) in
                  (r, S n, ds)
            end).
    rewrite E0, He0, bool_decide_eq_true_2 by lia. cbn [andb].
    by rewrite Hloop.
Qed.

Lemma backoff_total k :
  foldr Z.add 0 (backoff baseDelayMs k) = baseDelayMs * (2 ^ Z.of_nat k - 1).
Proof.
  unfold backoff.
  enough (H : ∀ a, foldr Z.add 0
                     ((λ attempt, baseDelayMs * 2 ^ (Z.of_nat attempt - 1))
                        <$> seq (S a) k)
                   = baseDelayMs * 2 ^ Z.of_nat a * (2 ^ Z.of_nat k - 1)).
  { rewrite (H 0%nat). cbn. lia. }
  induction k as [|k IH]; intros a.
  - cbn. lia.
  - cbn [seq fmap list_fmap foldr]. rewrite (IH (S a)).
    replace (Z.of_nat (S a) - 1) with (Z.of_nat a) by lia.
    rewrite !Nat2Z.inj_succ, !Z.pow_succ_r by lia. lia.
Qed.
End Retry.

(** X8.  [withRetry] stops at the first attempt that does not fail with a
    network error: after [k - 1] network failures it has waited
    [baseDelayMs * 2^(j - 1)] after each attempt [j], and the [k]-th call
    decides: its value is returned, or its error, when not a network
    error, is thrown at once and the operation is not called again. *)
Theorem withRetry_stops_at_first_settled_attempt {T : Type}
    (operation : nat → Attempt T) (maxRetries : nat) (baseDelayMs : Z)
    (k : nat) :
  (1 ≤ k ≤ maxRetries)%nat →
  (∀ j, (1 ≤ j < k)%nat →
     ∃ e, operation j = Fails e ∧ isNetworkError e = true) →
  (∀ v, operation k = Succeeds v →
     withRetry operation maxRetries baseDelayMs
     = (inl v, k, backoff baseDelayMs (k - 1)))
  ∧ (∀ e, operation k = Fails e → isNetworkError e = false →
       withRetry operation maxRetries baseDelayMs
       = (inr (Some e), k, backoff baseDelayMs (k - 1))).
Proof.
  intros Hk Hnet. unfold withRetry, backoff.
  destruct (retryLoop_decisive operation maxRetries baseDelayMs (k - 1) 1
              maxRetries None) as [Hv He]; [lia|lia|intros j Hj; apply Hnet; lia|].
  replace (1 + (k - 1))%nat with k in Hv, He by lia.
  replace (S (k - 1)) with k in Hv, He by lia.
  done.
Qed.

Lemma withRetry_stops_at_first_settled_attempt_witness :
  (∀ v, downThenRefused 2 = Succeeds v →
     withRetry downThenRefused 3 3000 = (inl v, 2%nat, backoff 3000 (2 - 1)))
  ∧ (∀ e, downThenRefused 2 = Fails e → isNetworkError e = false →
       withRetry downThenRefused 3 3000
       = (inr (Some e), 2%nat, backoff 3000 (2 - 1))).
Proof.
  apply (withRetry_stops_at_first_settled_attempt downThenRefused 3 3000 2).
  - lia.
  - intros j Hj. assert (j = 1%nat) as -> by lia.
    exists networkDown. split; reflexivity.
Defined.

(** X9.  When every attempt fails with a network error, [withRetry] calls
    the operation [maxRetries] times, waits after every attempt but the
    last, [baseDelayMs * (2^(maxRetries - 1) - 1)] in all, and throws the
    error of the last attempt. *)
Theorem withRetry_gives_up_after_maxRetries {T : Type}
    (operation : nat → Attempt T) (maxRetries : nat) (baseDelayMs : Z) :
  (1 ≤ maxRetries)%nat →
  (∀ j, (1 ≤ j ≤ maxRetries)%nat →
     ∃ e, operation j = Fails e ∧ isNetworkError e = true) →
  ∃ e, operation maxRetries = Fails e
       ∧ withRetry operation maxRetries baseDelayMs
         = (inr (Some e), maxRetries, backoff baseDelayMs (maxRetries - 1))
       ∧ foldr Z.add 0 (backoff baseDelayMs (maxRetries - 1))
         = baseDelayMs * (2 ^ Z.of_nat (maxRetries - 1) - 1).
Proof.
  intros Hmax Hnet. unfold withRetry.
  destruct (retryLoop_exhausted operation maxRetries baseDelayMs
              (maxRetries - 1) 1 None) as (e & E & Hloop);
    [lia|intros j Hj; apply Hnet; lia|].
  replace (S (maxRetries - 1)) with maxRetries in Hloop by lia.
  exists e. split; [done|]. split; [exact Hloop|apply backoff_total].
Qed.

Lemma withRetry_gives_up_after_maxRetries_witness :
  ∃ e, alwaysDown 3 = Fails e
       ∧ withRetry alwaysDown 3 3000
         = (inr (Some e), 3%nat, backoff 3000 (3 - 1))
       ∧ foldr Z.add 0 (backoff 3000 (3 - 1))
         = 3000 * (2 ^ Z.of_nat (3 - 1) - 1).
Proof.
  apply (withRetry_gives_up_after_maxRetries alwaysDown 3 3000).
  - lia.
  - intros j _. exists networkDown. split; reflexivity.
Defined.

(** X10.  One launch records [API_INIT_FAILURE] at most four times; a listing
    that is given up is recorded at least twice (by [getOnlineDevices]
    for the failed call and by the [catch] of [didFinishLaunching]), a
    listing that succeeds at most twice; the retries wait 9 seconds at
    most. *)
Theorem listing_failure_is_recorded_twice
    (getOnlineDevices : nat → Attempt (list Device)) :
  let records := (listDevices getOnlineDevices).1.2 in
  let waited := foldr Z.add 0 (listDevices getOnlineDevices).2 in
  records = replicate (length records) Tokens.API_INIT_FAILURE
  ∧ 0 ≤ waited ≤ 9000
  ∧ match (listDevices getOnlineDevices).1.1 with
    | Some _ => (length records ≤ 2)%nat
    | None => (2 ≤ length records ≤ 4)%nat
    end.
Proof.
  unfold listDevices, withRetry. cbn [retryLoop].
  rewrite (bool_decide_eq_true_2 (1 < 3)%nat) by lia.
  rewrite (bool_decide_eq_true_2 (2 < 3)%nat) by lia.
  rewrite (bool_decide_eq_false_2 (3 < 3)%nat) by lia.
  cbn [andb].
  destruct (getOnlineDevices 1%nat) as [v1|e1]; [cbn; split; [done|lia]|].
  destruct (isNetworkError e1); [|cbn; split; [done|lia]].
  destruct (getOnlineDevices 2%nat) as [v2|e2]; [cbn; split; [done|lia]|].
  destruct (isNetworkError e2); [|cbn; split; [done|lia]].
  destruct (getOnlineDevices 3%nat) as [v3|e3]; [cbn; split; [done|lia]|].
  destruct (isNetworkError e3); cbn; (split; [done|lia]).
Qed.

(** With the network down at all three attempts a launch records
    [API_INIT_FAILURE] four times and waits 3 and 6 seconds. *)
Lemma listing_with_network_down
    (getOnlineDevices : nat → Attempt (list Device)) :
  (∀ j, (1 ≤ j ≤ 3)%nat →
     ∃ e, getOnlineDevices j = Fails e ∧ isNetworkError e = true) →
  listDevices getOnlineDevices
  = (None, replicate 4 Tokens.API_INIT_FAILURE, [3000; 6000]).
Proof.
  intros Hnet. unfold listDevices, withRetry.
  destruct (retryLoop_exhausted getOnlineDevices 3 3000 2 1 None)
    as (e & E & ->); [lia|intros j Hj; apply Hnet; lia|].
  reflexivity.
Qed.

Lemma listing_with_network_down_witness :
  listDevices alwaysDown
  = (None, replicate 4 Tokens.API_INIT_FAILURE, [3000; 6000]).
Proof.
  apply (listing_with_network_down alwaysDown).
  intros j _. exists networkDown. split; reflexivity.
Defined.

End DiscoveryFacts.

(** ** Properties of the accessory over its lifetime *)

Module LifetimeFacts.
Import Synchronizer Lifetime.

#[local] Arguments refreshed : simpl never.
#[local] Arguments step : simpl never.

Ltac fields w := SynchronizerFacts.fields w.

Lemma newWorld_countsToOne webhook t0 comps :
  countsToOne (newWorld webhook t0 comps) (jobs (newWorld webhook t0 comps)).
Proof. unfold countsToOne, fetchesPending. cbn. repeat split; lia. Qed.

Lemma run_jobs ts w : jobs w = [] → jobs (run ts w) = [].
Proof.
  revert w. induction ts as [|t ts IH]; intros w Hj; [done|].
  unfold run in *. cbn [foldl]. apply IH.
  unfold step, drain.
  assert (H : ∀ js w, jobs w = [] → jobs (foldl runJob w js) = []).
  { clear. induction js as [|j js IH]; intros w Hw; [done|].
    cbn [foldl]. apply IH. destruct j; by fields w. }
  apply H. by fields (handle t w).
Qed.

(** X11.  In every run of the event loop from construction at most one status
    GET is in flight, and none while [statusQueryInProgress] is unset. *)
Theorem status_fetch_single_flight (webhook : option string) (t0 : Z)
    (comps : list (string * string)) (ts : list Task) :
  let w := run ts (newWorld webhook t0 comps) in
  (statusInFlight w ≤ 1)%nat
  ∧ (statusInFlight w = 1%nat → statusQueryInProgress (dev w) = true).
Proof.
  intros w.
  pose proof (SynchronizerFacts.countsToOne_run ts _
                (newWorld_countsToOne webhook t0 comps) eq_refl) as H.
  fold w in H. destruct H as (_ & _ & Hq & Hle & _).
  unfold fetchesPending in *. unfold statusInFlight.
  split; [lia|]. intros H1.
  destruct (statusQueryInProgress (dev w)); [done|].
  specialize (Hq eq_refl). lia.
Qed.

(** *** The status handler *)

Lemma refreshed_spec (m : gmap string string) t comps stamp :
  refreshed m t comps stamp
  = (statusAfter m <$> comps,
     if existsb (λ comp : string * string, bool_decide (is_Some (m !! comp.1)))
          comps
     then t else stamp).
Proof.
  unfold refreshed.
  enough (H : ∀ acc s,
            foldl (λ (acc : list (string * string) * Z)
                     (comp : string * string),
                     match m !! comp.1 with
                     | Some st => (acc.1 ++ [(comp.1, st)], t)
                     | None => (acc.1 ++ [comp], acc.2)
                     end) (acc, s) comps
            = (acc ++ (statusAfter m <$> comps),
               if existsb (λ comp : string * string,
                             bool_decide (is_Some (m !! comp.1))) comps
               then t else s)) by apply (H [] stamp).
  induction comps as [|comp comps IH]; intros acc s.
  - cbn. by rewrite app_nil_r.
  - cbn [foldl fst snd existsb fmap list_fmap].
    assert (Hc : statusAfter m comp = (comp.1, default comp.2 (m !! comp.1)))
      by done.
    rewrite Hc. clear Hc.
    destruct (m !! comp.1) as [st|] eqn:E; cbn [default fst snd].
    + rewrite IH, <- (assoc_L (++)).
      rewrite bool_decide_eq_true_2 by (by eexists). cbn [orb].
      by destruct (existsb _ comps).
    + rewrite IH, <- (assoc_L (++)).
      rewrite bool_decide_eq_false_2 by (by intros [? ?]). cbn [orb].
      by destruct comp.
Qed.

(** The handler of a status response keeps the components and their
    order, replaces the status of exactly the components the response
    names, and stamps the cache with the time of arrival when it names at
    least one; otherwise the stamp stays. *)
Lemma status_response_updates_named_components (m : gmap string string)
    (t : Z) (d : Device) :
  let d' := updateComponents m t d in
  components d' = statusAfter m <$> components d
  ∧ (components d').*1 = (components d).*1
  ∧ deviceStatusTimestamp d'
    = (if existsb (λ comp : string * string,
                     bool_decide (is_Some (m !! comp.1))) (components d)
       then t else deviceStatusTimestamp d)
  ∧ online d' = online d ∧ failureCount d' = failureCount d.
Proof.
  destruct d as [comps on ts fc gu cip lcc sqip lsr].
  cbn [updateComponents components deviceStatusTimestamp online failureCount].
  rewrite refreshed_spec. cbn [fst snd].
  repeat split. rewrite <- list_fmap_compose.
  apply list_fmap_ext. by intros i [id st] _.
Qed.

Lemma existsb_unmatched (m : gmap string string)
    (comps : list (string * string)) :
  (∀ comp, comp ∈ comps → m !! comp.1 = None) →
  existsb (λ comp : string * string, bool_decide (is_Some (m !! comp.1))) comps
  = false.
Proof.
  induction comps as [|comp comps IH]; intros H; [done|].
  cbn [existsb]. rewrite (H comp) by apply list_elem_of_here.
  rewrite bool_decide_eq_false_2 by (by intros [? ?]).
  apply IH. intros c Hc. apply H. by apply list_elem_of_further.
Qed.

Lemma statusAfter_unmatched (m : gmap string string)
    (comps : list (string * string)) :
  (∀ comp, comp ∈ comps → m !! comp.1 = None) →
  statusAfter m <$> comps = comps.
Proof.
  induction comps as [|comp comps IH]; intros H; [done|].
  cbn [fmap list_fmap]. unfold statusAfter at 1.
  rewrite (H comp) by apply list_elem_of_here. cbn [default].
  f_equal; [by destruct comp|].
  apply IH. intros c Hc. apply H. by apply list_elem_of_further.
Qed.

(** X12.  A status response that names none of the accessory's components
    answers the caller [true] and changes neither a status nor the stamp:
    the cache is as stale as before, and the next call fetches again. *)
Theorem unmatched_status_response_leaves_cache_stale (w : World)
    (c : CallId) (m : gmap string string) :
  quiet w → stale w →
  (∀ comp, comp ∈ components (dev w) → m !! comp.1 = None) →
  let w1 := run [Turn [RefreshStatus c]; StatusSettles c (Some m)] w in
  log w1 = log w ++ [ReqStart (GetStatus c); ReqEnd (GetStatus c) true;
                     Resolved c true]
  ∧ components (dev w1) = components (dev w)
  ∧ deviceStatusTimestamp (dev w1) = deviceStatusTimestamp (dev w)
  ∧ quiet w1 ∧ stale w1.
Proof.
  intros (Hj & Hc & Hs) Hst Hm. unfold stale in Hst. fields w.
  unfold run. cbn [foldl].
  rewrite (SynchronizerFacts.step_refresh_stale _ c);
    [|by repeat split|exact Hst]. cbn.
  rewrite SynchronizerFacts.step_status_settles;
    [|done|apply elem_of_app; right; by left].
  cbn. rewrite refreshed_spec. cbn [fst snd].
  rewrite existsb_unmatched, statusAfter_unmatched by exact Hm.
  rewrite <- !(assoc_L (++)). repeat split. exact Hst.
Qed.

Lemma unmatched_status_response_leaves_cache_stale_witness :
  let w1 := run [Turn [RefreshStatus 1];
                 StatusSettles 1 (Some {["second" := "{on}"]})]
              anOnlineWorld in
  log w1 = log anOnlineWorld
           ++ [ReqStart (GetStatus 1); ReqEnd (GetStatus 1) true;
               Resolved 1 true]
  ∧ components (dev w1) = components (dev anOnlineWorld)
  ∧ deviceStatusTimestamp (dev w1) = deviceStatusTimestamp (dev anOnlineWorld)
  ∧ quiet w1 ∧ stale w1.
Proof.
  apply (unmatched_status_response_leaves_cache_stale anOnlineWorld 1
           {["second" := "{on}"]}).
  - repeat split.
  - unfold stale. vm_compute. reflexivity.
  - intros comp Hcomp. apply list_elem_of_singleton in Hcomp as ->.
    reflexivity.
Defined.



(** X13.  A command that succeeds invalidates the status cache, a command
    that fails does not: on a fresh cache the next [refreshStatus] sends a
    status GET after a success, and is answered from the cache after a
    failure. *)
Theorem command_success_invalidates_cache (w : World) (c c' : CallId)
    (body : list Command) (ok : bool) :
  quiet w → ¬ stale w → 5000 < now w →
  let w1 := run [Turn [SendCommands c body]; PostSettles c body ok] w in
  let w2 := step w1 (Turn [RefreshStatus c']) in
  log w1 = log w ++ [ReqStart (PostCommands c body);
                     ReqEnd (PostCommands c body) ok; Resolved c ok]
  ∧ log w2 = log w1 ++ [if ok then ReqStart (GetStatus c')
                        else Resolved c' true].
Proof.
  intros (Hj & Hc & Hs) Hst Hnow. unfold stale in Hst. fields w.
  unfold run. cbn [foldl].
  rewrite (SynchronizerFacts.step_send _ c) by done. cbn.
  rewrite SynchronizerFacts.step_post_settles;
    [|done|apply elem_of_app; right; by left].
  destruct ok; cbn.
  - rewrite (SynchronizerFacts.step_refresh_stale _ c');
      [|by repeat split|unfold stale; cbn; lia].
    cbn. by rewrite <- !(assoc_L (++)).
  - rewrite (SynchronizerFacts.step_refresh_fresh _ c');
      [|done|unfold stale; cbn; lia].
    cbn. by rewrite <- !(assoc_L (++)).
Qed.

Lemma command_success_invalidates_cache_witness :
  let w1 := run [Turn [SendCommands 2 switchOn]; PostSettles 2 switchOn true]
              aFreshWorld in
  let w2 := step w1 (Turn [RefreshStatus 3]) in
  log w1 = log aFreshWorld
           ++ [ReqStart (PostCommands 2 switchOn);
               ReqEnd (PostCommands 2 switchOn) true; Resolved 2 true]
  ∧ log w2 = log w1 ++ [ReqStart (GetStatus 3)].
Proof.
  apply (command_success_invalidates_cache aFreshWorld 2 3 switchOn true).
  - repeat split.
  - unfold stale. vm_compute. discriminate.
  - vm_compute. reflexivity.
Defined.



(** *** The [online] flag *)

Lemma frame_call k w : frame (call k w) = frame w.
Proof.
  destruct k; fields w; unfold refreshStatus, sendCommands, startPollingState,
    hasWebhookToken, waitFor; cbn;
    repeat (match goal with
            | |- context [if ?b then _ else _] => destruct b
            | |- context [match ?o with Some _ => _ | None => _ end] =>
                destruct o
            end; cbn);
    unfold frame, getValueCalls, healthProbes; cbn;
    rewrite ?List.filter_app, ?length_app; cbn; rewrite ?Nat.add_0_r;
    reflexivity.
Qed.

Lemma frame_calls ks w : frame (foldl (λ w k, call k w) w ks) = frame w.
Proof.
  revert w. induction ks as [|k ks IH]; intros w; [done|].
  cbn [foldl]. by rewrite IH, frame_call.
Qed.

Lemma frame_observe o w :
  isGetValue o = false → isProbeStart o = false →
  frame (observe o w) = frame w.
Proof.
  intros H1 H2. fields w. unfold frame, getValueCalls, healthProbes. cbn.
  rewrite !List.filter_app, !length_app. cbn. rewrite H1, H2. cbn.
  by rewrite !Nat.add_0_r.
Qed.

Lemma frame_drain w : frame (drain w) = frame w.
Proof.
  unfold drain.
  assert (H : ∀ js w, frame (foldl runJob w js) = frame w).
  { induction js as [|j js IH]; intros w'; [done|].
    cbn [foldl]. rewrite IH. destruct j; fields w';
      unfold frame, getValueCalls, healthProbes, checksInFlight,
        probesInFlight; cbn;
      rewrite ?List.filter_app, ?length_app; cbn; rewrite ?Nat.add_0_r;
      reflexivity. }
  rewrite H. by fields w.
Qed.

Lemma count_positive {A} (f : A → bool) (x : A) (l : list A) :
  x ∈ l → f x = true → (0 < length (List.filter f l))%nat.
Proof.
  induction 1 as [y l|y z l _ IH]; intros Hf; cbn [List.filter].
  - rewrite Hf. cbn. lia.
  - destruct (f z); cbn; [lia|by apply IH].
Qed.

(** One task, on an accessory that has got no further than the claims'
    invariant allows and has no recovery probe in flight: only the answer
    to the health GET of the constructor writes [online], only a polling
    tick that gets through calls [getValue], and no probe is sent. *)
Lemma frame_step w t :
  countsToOne w (jobs w) → jobs w = [] → probesInFlight w = 0%nat →
  frame (step w t)
  = match t with
    | HealthSettles true state =>
        if bool_decide (GetHealth true ∈ inflight w)
        then (answersOnline state, pred (checksInFlight w), 0%nat,
              getValueCalls w, healthProbes w)
        else frame w
    | PollTick _ =>
        if polls w
        then (true, checksInFlight w, 0%nat, S (getValueCalls w),
              healthProbes w)
        else frame w
    | _ => frame w
    end.
Proof.
  intros Hinv Hj Hp. unfold step. rewrite frame_drain.
  destruct t as [ks|i|c body ok|c res|b state|gv|ms]; cbn [handle].
  - apply frame_calls.
  - unfold intervalFires. destruct (waiters w !! i) as [[cond job]|]; [|done].
    destruct (holds cond (dev w)); [|done]. by fields w.
  - destruct (bool_decide _); [|done].
    pose proof (SynchronizerFacts.count_removeFirst_out isConstructionCheck
                  (PostCommands c body) (inflight w) eq_refl) as H1.
    pose proof (SynchronizerFacts.count_removeFirst_out isProbe
                  (PostCommands c body) (inflight w) eq_refl) as H2.
    destruct ok; fields w;
      unfold frame, getValueCalls, healthProbes, checksInFlight,
        probesInFlight; cbn;
      rewrite ?List.filter_app, ?length_app; cbn; rewrite ?Nat.add_0_r;
      congruence.
  - destruct (bool_decide _) eqn:Hin; [|done].
    apply bool_decide_eq_true in Hin.
    pose proof (SynchronizerFacts.count_removeFirst_out isConstructionCheck
                  (GetStatus c) (inflight w) eq_refl) as H1.
    pose proof (SynchronizerFacts.count_removeFirst_out isProbe
                  (GetStatus c) (inflight w) eq_refl) as H2.
    pose proof (count_positive isStatus _ _ Hin eq_refl) as Hpos.
    destruct res as [m|].
    + clear Hinv. fields w.
      unfold frame, getValueCalls, healthProbes, checksInFlight,
        probesInFlight; cbn.
      rewrite ?List.filter_app, ?length_app; cbn; rewrite ?Nat.add_0_r.
      congruence.
    + destruct Hinv as (_ & _ & _ & Hle & Hz).
      unfold fetchesPending in Hle, Hz.
      assert (Hfc : failureCount (dev w) = 0) by (apply Hz; lia).
      clear Hle Hz. fields w.
      rewrite (bool_decide_eq_false_2 (0 + 1 >= 5)) by lia. cbn.
      unfold frame, getValueCalls, healthProbes, checksInFlight,
        probesInFlight; cbn.
      rewrite ?List.filter_app, ?length_app; cbn; rewrite ?Nat.add_0_r.
      congruence.
  - destruct b.
    + destruct (bool_decide _) eqn:Hin; [|done].
      apply bool_decide_eq_true in Hin.
      pose proof (SynchronizerFacts.count_removeFirst_in isConstructionCheck
                    (GetHealth true) (inflight w) Hin eq_refl) as H1.
      pose proof (SynchronizerFacts.count_removeFirst_out isProbe
                    (GetHealth true) (inflight w) eq_refl) as H2.
      clear Hinv.
      destruct state as [st|]; fields w;
        unfold frame, getValueCalls, healthProbes, checksInFlight,
          probesInFlight in *; cbn in *;
        rewrite ?List.filter_app, ?length_app; cbn; rewrite ?Nat.add_0_r;
        rewrite <- H1, H2, Hp; reflexivity.
    + rewrite bool_decide_eq_false_2; [done|].
      intros Hin. pose proof (count_positive isProbe _ _ Hin eq_refl) as Hpos.
      unfold probesInFlight in Hp. lia.
  - unfold polls. destruct (bool_decide (0 < pollers w)%nat); [|done].
    cbn [andb]. unfold pollTick.
    destruct (commandInProgress (dev w) || _); cbn [negb andb].
    { by apply frame_observe. }
    destruct (online (dev w)) eqn:Hon.
    { rewrite frame_calls. fields w.
      unfold frame, getValueCalls, healthProbes, checksInFlight,
        probesInFlight in *; cbn in *.
      rewrite ?List.filter_app, ?length_app. cbn. rewrite Hp.
      repeat f_equal; lia. }
    destruct Hinv as (_ & Hgu & _). rewrite Hgu.
    by rewrite (bool_decide_eq_false_2 (0 > 0)) by lia.
  - by fields w.
Qed.

Lemma neverProbes_step w t : neverProbes w → neverProbes (step w t).
Proof.
  intros (Hinv & Hj & Hp & Hh & Hc).
  pose proof (frame_step w t Hinv Hj Hp) as Hf.
  destruct (SynchronizerFacts.countsToOne_drain (handle t w)
              (SynchronizerFacts.countsToOne_handle t w Hinv)) as [H1 H2].
  split; [exact H1|]. split; [exact H2|].
  fold (step w t) in H1, H2.
  assert (Hframe : ∃ o g, frame (step w t) = (o, checksInFlight (step w t),
                                              0%nat, g, 0%nat)
                          ∧ (checksInFlight (step w t) ≤ 1)%nat).
  { unfold frame in *. rewrite Hp, Hh in Hf.
    destruct t as [ks|i|c body ok|c res|[|] state|gv|ms];
      try (injection Hf as -> -> -> -> ->; eexists _, _; split; [done|lia]).
    - destruct (bool_decide _);
        injection Hf as -> -> -> -> ->; eexists _, _; (split; [done|lia]).
    - destruct (polls w);
        injection Hf as -> -> -> -> ->; eexists _, _; (split; [done|lia]). }
  destruct Hframe as (o & g & E & Hle). unfold frame in E.
  injection E as _ Hp' _ Hh'. repeat split; done.
Qed.

Lemma neverProbes_run ts w : neverProbes w → neverProbes (run ts w).
Proof.
  revert w. induction ts as [|t ts IH]; intros w Hw; [done|].
  unfold run in *. cbn [foldl]. by apply IH, neverProbes_step.
Qed.

Lemma neverProbes_new webhook t0 comps :
  neverProbes (newWorld webhook t0 comps).
Proof.
  split; [apply newWorld_countsToOne|]. cbn. repeat split; lia.
Qed.

(** X15.  In every run from construction, a task other than the arrival of
    the answer to the health GET of the constructor leaves [online] as it
    is, and the polling timer never sends its recovery probe: no failure
    at run time takes an accessory offline, and nothing brings an offline
    one back. *)
Theorem online_written_only_by_construction_check (webhook : option string)
    (t0 : Z) (comps : list (string * string)) (ts : list Task) (t : Task) :
  afterConstruction t →
  let w := run ts (newWorld webhook t0 comps) in
  online (dev (step w t)) = online (dev w)
  ∧ healthProbes (step w t) = 0%nat.
Proof.
  intros Ht w.
  pose proof (neverProbes_run ts _ (neverProbes_new webhook t0 comps)) as Hw.
  fold w in Hw.
  destruct (neverProbes_step w t Hw) as (_ & _ & _ & Hh & _).
  split; [|exact Hh].
  destruct Hw as (Hinv & Hj & Hp & _).
  pose proof (frame_step w t Hinv Hj Hp) as Hf. unfold frame in Hf.
  destruct t as [ks|i|c body ok|c res|[|] state|gv|ms];
    try (by injection Hf as -> _ _ _ _).
  - destruct Ht.
  - destruct (polls w) eqn:Hpoll; [|by injection Hf as -> _ _ _ _].
    injection Hf as -> _ _ _ _. unfold polls in Hpoll.
    apply andb_true_iff in Hpoll as [_ Hon]. by rewrite Hon.
Qed.

Lemma online_written_only_by_construction_check_witness :
  let w := run (concat (map failedFetch
                  [(1%nat, 10000); (2%nat, 10000); (3%nat, 10000);
                   (4%nat, 10000); (5%nat, 10000)]))
             (newWorld None 1700000000000 [("main", "{}")]) in
  online (dev (step w (Turn [RefreshStatus 6]))) = online (dev w)
  ∧ healthProbes (step w (Turn [RefreshStatus 6])) = 0%nat.
Proof.
  apply (online_written_only_by_construction_check None 1700000000000
           [("main", "{}")]
           (concat (map failedFetch
              [(1%nat, 10000); (2%nat, 10000); (3%nat, 10000);
               (4%nat, 10000); (5%nat, 10000)]))
           (Turn [RefreshStatus 6])).
  exact I.
Defined.

(** X16.  When the health GET of the constructor is answered anything but
    ONLINE, or fails, the accessory is offline for good: in every run that
    follows, [online] stays unset, no polling tick calls [getValue] and no
    recovery probe is sent. *)
Theorem offline_at_construction_is_for_good (webhook : option string)
    (t0 : Z) (comps : list (string * string)) (ts1 ts2 : list Task)
    (state : option string) :
  let w1 := run ts1 (newWorld webhook t0 comps) in
  GetHealth true ∈ inflight w1 →
  answersOnline state = false →
  let w2 := run (HealthSettles true state :: ts2) w1 in
  online (dev w2) = false
  ∧ getValueCalls w2 = getValueCalls w1
  ∧ healthProbes w2 = 0%nat.
Proof.
  intros w1 Hin Hoff w2.
  pose proof (neverProbes_run ts1 _ (neverProbes_new webhook t0 comps)) as Hw.
  fold w1 in Hw.
  enough (H : ∀ ts w g,
            neverProbes w → frame w = (false, 0%nat, 0%nat, g, 0%nat) →
            frame (run ts w) = (false, 0%nat, 0%nat, g, 0%nat)).
  { assert (Hf : frame (step w1 (HealthSettles true state))
                 = (false, 0%nat, 0%nat, getValueCalls w1, 0%nat)).
    { destruct Hw as (Hinv & Hj & Hp & Hh & Hc).
      rewrite (frame_step w1 _ Hinv Hj Hp).
      rewrite bool_decide_eq_true_2 by done. rewrite Hoff, Hh.
      pose proof (count_positive isConstructionCheck _ _ Hin eq_refl) as Hpos.
      unfold checksInFlight in *.
      by replace (length (List.filter isConstructionCheck (inflight w1)))
        with 1%nat by lia. }
    specialize (H ts2 _ _ (neverProbes_step w1 _ Hw) Hf).
    unfold w2, run in *. cbn [foldl]. unfold frame in H.
    by injection H as -> _ _ -> ->. }
  clear. induction ts as [|t ts IH]; intros w g Hw Hf; [done|].
  unfold run in *. cbn [foldl].
  apply IH; [by apply neverProbes_step|].
  destruct Hw as (Hinv & Hj & Hp & Hh & Hc).
  rewrite (frame_step w t Hinv Hj Hp).
  unfold frame in Hf. injection Hf as Hon Hck _ Hg _.
  destruct t as [ks|i|c body ok|c res|[|] state|gv|ms];
    try (unfold frame; by rewrite Hon, Hck, Hp, Hg, Hh).
  - rewrite bool_decide_eq_false_2; [unfold frame;
                                     by rewrite Hon, Hck, Hp, Hg, Hh|].
    intros Hin.
    pose proof (count_positive isConstructionCheck _ _ Hin eq_refl) as Hpos.
    unfold checksInFlight in Hck. lia.
  - unfold polls. rewrite Hon, andb_false_r.
    unfold frame. by rewrite Hon, Hck, Hp, Hg, Hh.
Qed.

Lemma offline_at_construction_is_for_good_witness :
  let w1 := run [] (newWorld None 1700000000000 [("main", "{}")]) in
  let w2 := run [HealthSettles true (Some "OFFLINE");
                 Turn [StartPollingState 10]; Elapse 700000;
                 PollTick [RefreshStatus 1]] w1 in
  online (dev w2) = false
  ∧ getValueCalls w2 = getValueCalls w1
  ∧ healthProbes w2 = 0%nat.
Proof.
  apply (offline_at_construction_is_for_good None 1700000000000
           [("main", "{}")] []
           [Turn [StartPollingState 10]; Elapse 700000;
            PollTick [RefreshStatus 1]] (Some "OFFLINE")).
  - apply list_elem_of_here.
  - reflexivity.
Defined.

End LifetimeFacts.

(** ** Properties of the token store over its lifetime *)

Module TokenStoreFacts.
Import Tokens.

Ltac platform p :=
  destruct p as [p_td p_tf p_rt p_df p_nw p_af p_ex p_ec p_re p_rj p_ph];
  cbn in *.

(** On a disk that takes writes and removals, the token file holds what is
    in memory whenever there is token data in memory. *)
Ltac cases :=
  repeat (match goal with
          | |- context [if ?b then _ else _] => destruct b eqn:?
          | |- context [match ?o with Some _ => _ | None => _ end] =>
              destruct o eqn:?
          | |- context [match ?f with NoFile => _ | Unparsable => _
                                 | Stored _ => _ end] => destruct f eqn:?
          end; cbn in *).

Lemma mirrored_step p t :
  diskFails p = false →
  (∀ d, tokenData p = Some d → tokenFile p = Stored d) →
  diskFails (step p t) = false
  ∧ (∀ d, tokenData (step p t) = Some d → tokenFile (step p t) = Stored d).
Proof.
  intros Hdisk Hm. platform p. subst p_df.
  destruct t as [cfg records| |req retried|o res|ms]; cbn [step].
  - unfold didFinishLaunching, handleCrashLoopRecovery, clearTokens,
      initialize, afterInitialize, getRefreshToken, getAccessToken,
      isRefreshTokenValid, isTokenValid. cbn.
    cases; (split; [done|]); try done; intros d [= <-]; by apply Hm.
  - unfold checkAndRefreshTokens, getRefreshToken. cbn.
    cases; (split; [done|]); try done; intros d' [= <-]; by apply Hm.
  - unfold unauthorized, getRefreshToken. cbn.
    cases; (split; [done|]); try done; intros d' [= <-]; by apply Hm.
  - cbn. destruct (bool_decide _); [|by split].
    destruct o as [|req|], res as [d|]; cbn [exchangeSettled];
      unfold afterInitialize, getAccessToken, updateTokens, saveTokens; cbn;
      cases; (split; [done|]); try done; intros d' [= <-];
      solve [by apply Hm | done].
  - cbn. by split.
Qed.

Lemma mirrored_new file oa or t0 :
  let p := newPlatform file oa or false t0 in
  diskFails p = false
  ∧ (∀ d, tokenData p = Some d → tokenFile p = Stored d).
Proof.
  unfold newPlatform, loadTokens. cbn.
  destruct file as [| |d]; cbn; [|done|by split; [|intros ? [= <-]]].
  destruct (truthy oa && truthy or); cbn; [|done].
  split; [done|]. by intros ? [= <-].
Qed.

Lemma mirrored_run ts p :
  diskFails p = false →
  (∀ d, tokenData p = Some d → tokenFile p = Stored d) →
  diskFails (run ts p) = false
  ∧ (∀ d, tokenData (run ts p) = Some d → tokenFile (run ts p) = Stored d).
Proof.
  revert p. induction ts as [|t ts IH]; intros p H1 H2; [done|].
  unfold run in *. cbn [foldl].
  destruct (mirrored_step p t H1 H2). by apply IH.
Qed.

(** X17.  On a disk that takes writes and removals, whatever has happened
    since construction, token data held in memory is also what the token
    file holds: a restart loads exactly the tokens that were in use,
    whatever the configuration then says. *)
Theorem tokens_survive_restart (file : TokenFile)
    (oauth_access oauth_refresh oauth_access' oauth_refresh' : option string)
    (t0 t1 : Z) (ts : list Task) (d : TokenData) :
  let p := run ts (newPlatform file oauth_access oauth_refresh false t0) in
  tokenData p = Some d →
  tokenFile p = Stored d
  ∧ tokenData (newPlatform (tokenFile p) oauth_access' oauth_refresh' false t1)
    = Some d.
Proof.
  intros p Hd.
  assert (H : diskFails p = false
              ∧ ∀ d, tokenData p = Some d → tokenFile p = Stored d).
  { destruct (mirrored_new file oauth_access oauth_refresh t0) as [H1 H2].
    by apply mirrored_run. }
  destruct H as [_ Hm]. split; [by apply Hm|].
  by rewrite (Hm d Hd).
Qed.

Lemma tokens_survive_restart_witness :
  let p := run [MonitorTick; ExchangeSettles FromMonitor (Some newTokens)]
             (newPlatform (Stored aTokenData) None None false 1700000000000) in
  let d := mkTokenData (Some "access-2") (Some "refresh-2") (Some 86400)
             1700086400000 1702592000000 None None in
  tokenFile p = Stored d
  ∧ tokenData (newPlatform (tokenFile p) None None false 1700000500000)
    = Some d.
Proof.
  apply (tokens_survive_restart (Stored aTokenData) None None None None
           1700000000000 1700000500000
           [MonitorTick; ExchangeSettles FromMonitor (Some newTokens)]).
  vm_compute. reflexivity.
Defined.

(** What [getRefreshToken] answers is the refresh token stored, and it is
    truthy. *)
Lemma getRefreshToken_Some p rt :
  getRefreshToken p = Some rt →
  ∃ d, tokenData p = Some d ∧ refresh_token d = Some rt
       ∧ truthy (refresh_token d) = true.
Proof.
  unfold getRefreshToken, orNull. destruct (tokenData p) as [d|]; [|done].
  cbn. destruct (truthy (refresh_token d)) eqn:E; [|done].
  intros H. exists d. by rewrite H in *.
Qed.

(** The writes of [refreshTokens], [startAuthFlow] and [updateTokens] on
    the fields of the platform. *)
Lemma refreshTokens_fields o rt td tf r df nw af ex ec re rj ph :
  refreshTokens o rt (mkPlatform td tf r df nw af ex ec re rj ph)
  = mkPlatform td tf r df nw af (ex ++ [(o, rt)]) (S ec) re rj ph.
Proof. reflexivity. Qed.

Lemma startAuthFlow_fields td tf r df nw af ex ec re rj ph :
  startAuthFlow (mkPlatform td tf r df nw af ex ec re rj ph)
  = mkPlatform td tf r df nw (S af) ex ec re rj ph.
Proof. reflexivity. Qed.

Lemma updateTokens_fields res td tf r df nw af ex ec re rj ph :
  updateTokens res (mkPlatform td tf r df nw af ex ec re rj ph)
  = let merged :=
      mkTokenData
        (spread (td ≫= access_token) (p_access_token res))
        (spread (td ≫= refresh_token) (p_refresh_token res))
        (spread (td ≫= expires_in) (p_expires_in res))
        (nw + orZero (p_expires_in res) * 1000)
        (nw + 30 * 24 * 60 * 60 * 1000)
        (spread (td ≫= installed_app_id) (p_installed_app_id res))
        (spread (td ≫= location_id) (p_location_id res)) in
    mkPlatform (Some merged) (if df then tf else Stored merged) r df nw af ex
      ec re rj ph.
Proof. unfold updateTokens, saveTokens. cbn. by destruct df. Qed.

(** A tick of the monitor on tokens about to expire posts an exchange. *)
Lemma monitor_tick_posts p d rt :
  refreshTimer p = true → tokenData p = Some d →
  getRefreshToken p = Some rt →
  expires_at d - now p ≤ REFRESH_BEFORE_EXPIRY →
  step p MonitorTick = refreshTokens FromMonitor rt p.
Proof.
  intros Htimer Hd Hrt Hexp.
  destruct (getRefreshToken_Some p rt Hrt) as (d' & Hd' & Hr & Htr).
  rewrite Hd in Hd'. injection Hd' as <-.
  cbn [step]. rewrite Htimer. unfold checkAndRefreshTokens.
  rewrite Hd, Htr. cbn [negb].
  rewrite bool_decide_eq_true_2 by done. by rewrite Hrt.
Qed.

(** The exchange of the monitor settles. *)
Lemma monitor_exchange_settles res rt td tf r df nw af ex ec re rj ph :
  step (mkPlatform td tf r df nw af (ex ++ [(FromMonitor, rt)]) ec re rj ph)
    (ExchangeSettles FromMonitor res)
  = exchangeSettled FromMonitor res
      (mkPlatform td tf r df nw af
         (removeOrigin FromMonitor (ex ++ [(FromMonitor, rt)])) ec re rj ph).
Proof.
  cbn [step exchanges].
  by rewrite (bool_decide_eq_true_2 _
                (TokensFacts.origin_in_flight FromMonitor rt ex)).
Qed.



(** X19.  [updateTokens] with an answer that gives no [expires_in], or one of
    at most 300 seconds, leaves an access token that does not count as
    valid; when a refresh token is at hand the next tick of the monitor
    posts an exchange again. *)
Theorem short_lived_token_is_refreshed_at_next_tick (p : Platform)
    (res : PartialTokenData) (rt : string) :
  refreshTimer p = true →
  orZero (p_expires_in res) ≤ 300 →
  getRefreshToken (updateTokens res p) = Some rt →
  let p' := updateTokens res p in
  isTokenValid p' = false
  ∧ isRefreshTokenValid p' = true
  ∧ exchanges (step p' MonitorTick) = exchanges p' ++ [(FromMonitor, rt)].
Proof.
  intros Htimer Hshort Hrt p'. unfold p' in *. clear p'.
  destruct p as [p_td p_tf p_rt p_df p_nw p_af p_ex p_ec p_re p_rj p_ph].
  cbn [refreshTimer] in Htimer. subst p_rt.
  rewrite updateTokens_fields in *. cbv zeta in *.
  unfold isTokenValid, isRefreshTokenValid, REFRESH_BEFORE_EXPIRY.
  cbn [tokenData expires_at refresh_token_expires_at now exchanges].
  split; [apply bool_decide_eq_false_2; lia|].
  split; [apply bool_decide_eq_true_2; lia|].
  erewrite monitor_tick_posts; [|done|done|exact Hrt|].
  - by rewrite refreshTokens_fields.
  - unfold REFRESH_BEFORE_EXPIRY. cbn [expires_at now]. lia.
Qed.

Lemma short_lived_token_is_refreshed_at_next_tick_witness :
  let p' := updateTokens (mkPartial (Value "access-2") Missing Missing Missing Missing)
              aPlatform in
  isTokenValid p' = false
  ∧ isRefreshTokenValid p' = true
  ∧ exchanges (step p' MonitorTick)
    = exchanges p' ++ [(FromMonitor, "refresh-1")].
Proof.
  apply (short_lived_token_is_refreshed_at_next_tick aPlatform
           (mkPartial (Value "access-2") Missing Missing Missing Missing) "refresh-1").
  - reflexivity.
  - vm_compute. discriminate.
  - reflexivity.
Defined.

(** One round of the monitor with a refresh token the endpoint rejects. *)
Lemma rejected_round p d rt :
  refreshTimer p = true → tokenData p = Some d →
  getRefreshToken p = Some rt →
  expires_at d - now p ≤ REFRESH_BEFORE_EXPIRY →
  let p' := run [MonitorTick; ExchangeSettles FromMonitor None;
                 Elapse REFRESH_CHECK_INTERVAL] p in
  refreshTimer p' = true ∧ tokenData p' = Some d ∧ tokenFile p' = tokenFile p
  ∧ now p' = now p + REFRESH_CHECK_INTERVAL
  ∧ authFlows p' = S (authFlows p)
  ∧ exchangeCount p' = S (exchangeCount p).
Proof.
  intros Htimer Hd Hrt Hexp. unfold run. cbn [foldl].
  rewrite (monitor_tick_posts p d rt Htimer Hd Hrt Hexp).
  destruct p as [p_td p_tf p_rt p_df p_nw p_af p_ex p_ec p_re p_rj p_ph].
  cbn [refreshTimer tokenData] in Htimer, Hd. subst p_rt p_td.
  rewrite refreshTokens_fields, monitor_exchange_settles.
  cbn [exchangeSettled]. rewrite startAuthFlow_fields.
  cbn. repeat split.
Qed.

(** X20.  While the token endpoint rejects the refresh token, every tick of
    the monitor posts one more exchange and calls [startAuthFlow] once
    more; the tokens in memory and on disk stay as they are. *)
Theorem rejected_refresh_token_is_posted_at_every_tick (p : Platform)
    (d : TokenData) (rt : string) (n : nat) :
  refreshTimer p = true → tokenData p = Some d →
  getRefreshToken p = Some rt →
  expires_at d - now p ≤ REFRESH_BEFORE_EXPIRY →
  let p' := run (concat (replicate n
                   [MonitorTick; ExchangeSettles FromMonitor None;
                    Elapse REFRESH_CHECK_INTERVAL])) p in
  exchangeCount p' = (exchangeCount p + n)%nat
  ∧ authFlows p' = (authFlows p + n)%nat
  ∧ tokenData p' = tokenData p ∧ tokenFile p' = tokenFile p.
Proof.
  revert p. induction n as [|n IH]; intros p Htimer Hd Hrt Hexp.
  - cbn. repeat split; lia.
  - cbn [replicate concat]. cbv zeta. unfold run in *. rewrite foldl_app.
    destruct (rejected_round p d rt Htimer Hd Hrt Hexp)
      as (Ht' & Hd' & Hf' & Hn' & Ha' & He').
    unfold run in Ht', Hd', Hf', Hn', Ha', He'.
    set (p1 := foldl step p [MonitorTick; ExchangeSettles FromMonitor None;
                             Elapse REFRESH_CHECK_INTERVAL]) in *.
    destruct (IH p1) as (H1 & H2 & H3 & H4).
    + exact Ht'.
    + exact Hd'.
    + unfold getRefreshToken in *. by rewrite Hd', <- Hd.
    + rewrite Hn'. unfold REFRESH_CHECK_INTERVAL. lia.
    + rewrite H1, H2, H3, H4, He', Ha', Hd', Hd, Hf'. repeat split; lia.
Qed.

Lemma rejected_refresh_token_is_posted_at_every_tick_witness :
  let p' := run (concat (replicate 3
                   [MonitorTick; ExchangeSettles FromMonitor None;
                    Elapse REFRESH_CHECK_INTERVAL])) aPlatform in
  exchangeCount p' = (exchangeCount aPlatform + 3)%nat
  ∧ authFlows p' = (authFlows aPlatform + 3)%nat
  ∧ tokenData p' = tokenData aPlatform ∧ tokenFile p' = tokenFile aPlatform.
Proof.
  apply (rejected_refresh_token_is_posted_at_every_tick aPlatform aTokenData
           "refresh-1" 3).
  - reflexivity.
  - reflexivity.
  - reflexivity.
  - vm_compute. discriminate.
Defined.

Lemma set_phase_fields v td tf r df nw af ex ec re rj ph :
  set_phase v (mkPlatform td tf r df nw af ex ec re rj ph)
  = mkPlatform td tf r df nw af ex ec re rj v.
Proof. reflexivity. Qed.

Lemma set_exchanges_fields v td tf r df nw af ex ec re rj ph :
  set_exchanges v (mkPlatform td tf r df nw af ex ec re rj ph)
  = mkPlatform td tf r df nw af v ec re rj ph.
Proof. reflexivity. Qed.

(** X21.  A launch that finds an access token past its validity margin and a
    refresh token still valid posts an exchange and waits for it; when the
    exchange succeeds, device discovery is entered with the access token
    the launch found, which still does not count as valid; when it fails,
    the authorization flow is started and discovery is not entered. *)
Theorem launch_refresh_enters_discovery_with_old_token (p : Platform)
    (cfg : CrashLoopConfig) (records : list CrashRecord) (a rt : string)
    (res : option PartialTokenData) :
  isCrashLoopDetected cfg (now p) records = false →
  getAccessToken p = Some a → isTokenValid p = false →
  isRefreshTokenValid p = true → getRefreshToken p = Some rt →
  let p1 := step p (DidFinishLaunching cfg records) in
  let p2 := step p1 (ExchangeSettles FromInitialize res) in
  phase p1 = Initializing
  ∧ exchanges p1 = exchanges p ++ [(FromInitialize, rt)]
  ∧ match res with
    | Some _ =>
        phase p2 = Discovering ∧ getAccessToken p2 = Some a
        ∧ isTokenValid p2 = false ∧ authFlows p2 = authFlows p
    | None => phase p2 = WaitingForAuth ∧ authFlows p2 = S (authFlows p)
    end.
Proof.
  intros Hd Ha Hbad Hvalid Hrt p1 p2.
  assert (E1 : p1 = set_phase Initializing (refreshTokens FromInitialize rt p)).
  { unfold p1. cbn [step]. unfold didFinishLaunching. rewrite Hd.
    unfold initialize. by rewrite Hbad, Hvalid, Hrt, orb_true_r. }
  unfold p2. rewrite E1. clear p1 p2 E1 Hd Hvalid Hrt.
  destruct p as [p_td p_tf p_rt p_df p_nw p_af p_ex p_ec p_re p_rj p_ph].
  rewrite refreshTokens_fields, set_phase_fields.
  cbn [phase exchanges authFlows].
  split; [done|]. split; [done|].
  cbn [step exchanges].
  rewrite (bool_decide_eq_true_2 _
             (TokensFacts.origin_in_flight FromInitialize rt p_ex)).
  rewrite set_exchanges_fields.
  unfold getAccessToken, isTokenValid in *. cbn [tokenData now] in *.
  destruct res as [d|]; cbn [exchangeSettled].
  - unfold afterInitialize, getAccessToken.
    cbn [negb andb tokenData now]. rewrite Ha.
    rewrite bool_decide_eq_true_2 by (by eexists).
    by rewrite set_phase_fields.
  - rewrite startAuthFlow_fields. unfold afterInitialize.
    cbn [negb andb]. by rewrite set_phase_fields.
Qed.

Lemma launch_refresh_enters_discovery_with_old_token_witness :
  let p1 := step aPlatform (DidFinishLaunching aCrashConfig []) in
  let p2 := step p1 (ExchangeSettles FromInitialize (Some newTokens)) in
  phase p1 = Initializing
  ∧ exchanges p1 = exchanges aPlatform ++ [(FromInitialize, "refresh-1")]
  ∧ phase p2 = Discovering ∧ getAccessToken p2 = Some "access-1"
  ∧ isTokenValid p2 = false ∧ authFlows p2 = authFlows aPlatform.
Proof.
  apply (launch_refresh_enters_discovery_with_old_token aPlatform aCrashConfig
           [] "access-1" "refresh-1" (Some newTokens)); reflexivity.
Defined.

End TokenStoreFacts.

(** ** Properties of the authorization-code flow *)

Module OAuthFacts.
Import Tokens OAuth.

Lemma append_assoc_string (a b c : string) :
  (a +:+ b) +:+ c = a +:+ (b +:+ c).
Proof.
  induction a as [|x a IH]; [done|].
  change (String x ((a +:+ b) +:+ c) = String x (a +:+ (b +:+ c))).
  by rewrite IH.
Qed.

Lemma endsWithSlash_append (s : string) : endsWithSlash (s +:+ "/") = true.
Proof.
  induction s as [|x s IH]; [done|].
  change (endsWithSlash (String x (s +:+ "/")) = true).
  destruct s as [|y s]; [done|].
  change (endsWithSlash (String y s +:+ "/") = true). exact IH.
Qed.

(** X22.  [server_url] with or without its trailing slash gives the same
    redirect URI: the URL followed by [/oauth/callback], with one slash
    between them. *)
Theorem redirectUri_normalises_trailing_slash (url : string) :
  redirectUri (url +:+ "/") = url +:+ "/oauth/callback"
  ∧ (endsWithSlash url = false →
     redirectUri url = url +:+ "/oauth/callback").
Proof.
  unfold redirectUri. rewrite endsWithSlash_append. split.
  - by rewrite append_assoc_string.
  - intros ->. by rewrite append_assoc_string.
Qed.

Section FlowFacts.
Context (server_url : option string) (blank : string → bool)
  (nonce : nat → string).

Lemma settled_startAuthFlow s :
  settled server_url s →
  settled server_url (startAuthFlowWrites server_url blank nonce s).
Proof.
  intros [Hs Hp]. unfold startAuthFlowWrites.
  destruct server_url as [url|] eqn:E; [|done].
  destruct (truthy (Some url) && negb (blank url)); [|done].
  split; cbn [state printed].
  - unfold latestState. cbn [printed]. by rewrite last_snoc.
  - intros _. by eexists.
Qed.

Lemma settled_handle s e :
  settled server_url s → settled server_url (handle server_url blank nonce s e).
Proof.
  intros Hs. destruct e as [t|c q|i tokens]; cbn [handle].
  - unfold tokenTask. cbv zeta.
    generalize (authFlows (step (platform s) t) - authFlows (platform s))%nat.
    intros n. induction n as [|n IH]; [by destruct s|].
    cbn [Nat.iter]. by apply settled_startAuthFlow.
  - unfold handleOAuthCallback, respond.
    destruct (negb _ || negb _); [by destruct s|].
    destruct (negb (bool_decide _)); [by destruct s|].
    destruct c; [|by destruct s]. destruct server_url; by destruct s.
  - unfold codeExchangeSettled, respond.
    destruct (awaited s !! i); [|done].
    destruct tokens; by destruct s.
Qed.

Lemma settled_run es s :
  settled server_url s → settled server_url (run server_url blank nonce es s).
Proof.
  revert s. induction es as [|e es IH]; intros s Hs; [done|].
  unfold run in *. cbn [foldl]. by apply IH, settled_handle.
Qed.

(** X23.  In every run from construction a callback is handed to the token
    endpoint exactly when it carries a code and the state parameter of the
    authorization URL printed last; a callback with another state, such as
    that of an earlier URL, or with any state before the first URL, is
    not. *)
Theorem callback_accepted_only_with_latest_state (p : Platform)
    (es : list Event) (query_code query_state : option string) :
  let s := run server_url blank nonce es (newAuth p) in
  accepted server_url query_code query_state s
  = truthy query_code && truthy query_state
    && bool_decide (query_state = latestState s).
Proof.
  intros s.
  assert (Hs : settled server_url s) by (by apply settled_run).
  destruct Hs as [Hstate Hprinted].
  unfold accepted, handleOAuthCallback, respond. rewrite <- Hstate.
  destruct (truthy query_code) eqn:Hc; cbn [negb orb andb];
    [|by cbn [awaited]; rewrite bool_decide_eq_false_2 by lia].
  destruct (truthy query_state) eqn:Hq; cbn [negb orb andb];
    [|by cbn [awaited]; rewrite bool_decide_eq_false_2 by lia].
  destruct (bool_decide (query_state = state s)) eqn:Heq; cbn [negb];
    [|by cbn [awaited]; rewrite bool_decide_eq_false_2 by lia].
  apply bool_decide_eq_true in Heq.
  destruct query_code as [code|]; [|done].
  destruct server_url as [url|] eqn:E.
  - cbn [awaited]. rewrite length_app. cbn [length].
    by rewrite bool_decide_eq_true_2 by lia.
  - exfalso. destruct Hprinted as [? ?]; [|done].
    intros Hnil. rewrite Hstate in Heq. unfold latestState in Heq.
    rewrite Hnil in Heq. cbn in Heq. by rewrite Heq in Hq.
Qed.

Lemma state_callback c q s :
  state (handleOAuthCallback server_url c q s) = state s.
Proof.
  unfold handleOAuthCallback, respond.
  destruct (negb (truthy c) || negb (truthy q)); [done|].
  destruct (negb (bool_decide (q = state s))); [done|].
  destruct c; [|done]. by destruct server_url.
Qed.

Lemma state_settle i tokens s :
  state (codeExchangeSettled i tokens s) = state s.
Proof.
  unfold codeExchangeSettled, respond.
  destruct (awaited s !! i); [|done]. by destruct tokens.
Qed.

Lemma accepted_intro c q s :
  truthy c = true → truthy q = true → q = state s → is_Some server_url →
  accepted server_url c q s = true.
Proof.
  intros Hc Hq Hst [url Hurl]. unfold accepted, handleOAuthCallback, respond.
  rewrite Hc, Hq. cbn [negb orb].
  rewrite (bool_decide_eq_true_2 (q = state s)) by done. cbn [negb].
  destruct c as [code|]; [|done]. rewrite Hurl.
  cbn [awaited]. rewrite length_app. cbn [length].
  by rewrite bool_decide_eq_true_2 by lia.
Qed.

(** X24.  An accepted callback does not use up [state]: once its exchange has
    settled, either way, a callback with the same state parameter and any
    code is handed to the token endpoint again. *)
Theorem callback_state_is_not_consumed (s : Auth)
    (query_code query_state query_code' : option string) (i : nat)
    (tokens : option PartialTokenData) :
  accepted server_url query_code query_state s = true →
  truthy query_code' = true →
  accepted server_url query_code' query_state
    (run server_url blank nonce
       [CallbackArrives query_code query_state; CodeExchangeSettles i tokens]
       s)
  = true.
Proof.
  intros Hacc Hc'. unfold run. cbn [foldl handle].
  assert (Hq : truthy query_state = true
               ∧ query_state = state s ∧ is_Some server_url).
  { revert Hacc. unfold accepted, handleOAuthCallback, respond.
    destruct (truthy query_code), (truthy query_state); cbn [negb orb];
      try (by cbn [awaited]; rewrite bool_decide_eq_false_2 by lia).
    destruct (bool_decide (query_state = state s)) eqn:Heq; cbn [negb];
      [|by cbn [awaited]; rewrite bool_decide_eq_false_2 by lia].
    apply bool_decide_eq_true in Heq.
    destruct query_code;
      [|by cbn [awaited]; rewrite bool_decide_eq_false_2 by lia].
    destruct server_url;
      [done|by cbn [awaited]; rewrite bool_decide_eq_false_2 by lia]. }
  destruct Hq as (Hq & Hst & [url Hurl]).
  assert (Hsame : state (codeExchangeSettled i tokens
                           (handleOAuthCallback server_url query_code
                              query_state s)) = state s)
    by (by rewrite state_settle, state_callback).
  apply accepted_intro; [done|done|by rewrite Hsame|by eexists].
Qed.

(** X25.  A refresh by the monitor that the token endpoint rejects prints a
    new authorization URL with a new state, so a callback that carries the
    state of the URL printed before is no longer handed to the token
    endpoint. *)
Theorem rejected_refresh_invalidates_printed_url (s : Auth) (d : TokenData)
    (rt url : string) :
  server_url = Some url →
  truthy server_url && negb (blank url) = true →
  refreshTimer (platform s) = true →
  tokenData (platform s) = Some d →
  getRefreshToken (platform s) = Some rt →
  expires_at d - now (platform s) ≤ REFRESH_BEFORE_EXPIRY →
  let s' := run server_url blank nonce
              [TokenTask MonitorTick;
               TokenTask (ExchangeSettles FromMonitor None)] s in
  state s' = Some (nonce (length (printed s)))
  ∧ printed s' = printed s ++ [(redirectUri url, nonce (length (printed s)))]
  ∧ ∀ code, state s ≠ state s' →
            accepted server_url code (state s) s' = false.
Proof.
  intros Hurl Hconf Htimer Hd Hrt Hexp s'.
  assert (E : s' = mkAuth (startAuthFlow
                             (set_exchanges
                                (removeOrigin FromMonitor
                                   (exchanges (platform s)
                                    ++ [(FromMonitor, rt)]))
                                (refreshTokens FromMonitor rt (platform s))))
                     (Some (nonce (length (printed s))))
                     (printed s
                      ++ [(redirectUri url, nonce (length (printed s)))])
                     (awaited s) (answered s)).
  { unfold s', run. cbn [foldl handle]. unfold tokenTask. cbv zeta.
    cbn [platform].
    rewrite (TokenStoreFacts.monitor_tick_posts _ d rt Htimer Hd Hrt Hexp).
    destruct s as [p st pr aw an]. cbn [platform state printed awaited
                                        answered].
    destruct p as [p_td p_tf p_rt p_df p_nw p_af p_ex p_ec p_re p_rj p_ph].
    rewrite TokenStoreFacts.refreshTokens_fields. cbn [authFlows].
    rewrite Nat.sub_diag. unfold Nat.iter at 2 3 4 5 6 7.
    cbn [nat_rect platform state printed awaited answered].
    rewrite TokenStoreFacts.monitor_exchange_settles.
    cbn [exchangeSettled]. rewrite TokenStoreFacts.startAuthFlow_fields.
    cbn [authFlows exchanges].
    replace (S p_af - p_af)%nat with 1%nat by lia.
    unfold Nat.iter. cbn [nat_rect].
    unfold startAuthFlowWrites. rewrite Hurl in *. rewrite Hconf.
    cbn [platform state printed awaited answered].
    by rewrite TokenStoreFacts.set_exchanges_fields,
      TokenStoreFacts.startAuthFlow_fields. }
  rewrite E. cbn [state printed]. split; [done|]. split; [done|].
  intros code Hne. unfold accepted, handleOAuthCallback, respond.
  cbn [state awaited].
  destruct (negb _ || negb _);
    [by cbn [awaited]; rewrite bool_decide_eq_false_2 by lia|].
  rewrite (bool_decide_eq_false_2 (state s = _)) by done. cbn [negb awaited].
  by rewrite bool_decide_eq_false_2 by lia.
Qed.

End FlowFacts.

Lemma callback_state_is_not_consumed_witness :
  accepted aServer (Some "code-2") (Some "5f1c")
    (run aServer noBlank someNonce
       [CallbackArrives (Some "code-1") (Some "5f1c");
        CodeExchangeSettles 0 (Some newTokens)] anAuthorizing)
  = true.
Proof.
  apply (callback_state_is_not_consumed aServer noBlank someNonce
           anAuthorizing (Some "code-1") (Some "5f1c") (Some "code-2") 0
           (Some newTokens)); reflexivity.
Defined.

(** X25 after a first rejected refresh has printed a URL with state [5f1c],
    which a callback could use: a second rejected refresh prints a URL with
    state [a2e9], and no callback with state [5f1c] is handed on any more. *)
Lemma rejected_refresh_invalidates_printed_url_witness :
  let s := afterRejectedRefresh in
  let s' := run aServer noBlank someNonce
              [TokenTask MonitorTick;
               TokenTask (ExchangeSettles FromMonitor None)] s in
  printed s = [(redirectUri "https://bridge.example.org", "5f1c")]
  ∧ accepted aServer (Some "code-1") (Some "5f1c") s = true
  ∧ state s' = Some "a2e9"
  ∧ printed s' = printed s ++ [(redirectUri "https://bridge.example.org",
                                "a2e9")]
  ∧ ∀ code, accepted aServer code (Some "5f1c") s' = false.
Proof.
  destruct (rejected_refresh_invalidates_printed_url aServer noBlank someNonce
              afterRejectedRefresh aTokenData "refresh-1"
              "https://bridge.example.org") as (H1 & H2 & H3).
  - reflexivity.
  - reflexivity.
  - reflexivity.
  - reflexivity.
  - reflexivity.
  - vm_compute. discriminate.
  - cbv zeta. split; [reflexivity|]. split; [reflexivity|].
    split; [exact H1|]. split; [exact H2|].
    intros code. apply (H3 code). rewrite H1. discriminate.
Defined.

End OAuthFacts.

(** ** Properties of the air conditioner service *)

Module AirConditionerFacts.
Import Resolver Synchronizer AirConditioner.

(** X26.  The fan level that HomeKit shows for a fan mode selects that mode
    again when it is set, except for [low]: its level, 25, selects [auto],
    as does every level that is not positive; any other mode the device
    reports shows as level 0. *)
Theorem fan_level_round_trip (fanMode : string) (level : Z) :
  levelToFanMode (fanModeToLevel fanMode)
  = (if bool_decide (fanMode ∈ ["medium"; "high"; "turbo"]) then fanMode
     else "auto")
  ∧ (levelToFanMode level = "auto" ↔ level ≤ 0 ∨ level = 25)
  ∧ (levelToFanMode level = "low" ↔ 0 < level < 25).
Proof.
  split; [|split].
  - unfold fanModeToLevel.
    destruct (decide (fanMode = "low")) as [->|Hl]; [reflexivity|].
    destruct (decide (fanMode = "medium")) as [->|Hm]; [reflexivity|].
    destruct (decide (fanMode = "high")) as [->|Hh]; [reflexivity|].
    destruct (decide (fanMode = "turbo")) as [->|Ht]; [reflexivity|].
    rewrite !bool_decide_eq_false_2; [reflexivity|..]; try done.
    rewrite !elem_of_cons, elem_of_nil. tauto.
  - unfold levelToFanMode.
    repeat (case_bool_decide; cbn [andb]); split; (discriminate || lia || done).
  - unfold levelToFanMode.
    repeat (case_bool_decide; cbn [andb]); split; (discriminate || lia || done).
Qed.

(** X27.  Turning the fan tile on, when the status read at entry is
    answered with a tree that holds the switch and the mode, sends
    [switch on] followed by [setAirConditionerMode]: with [wind] when the
    device is switched off (whatever mode it was in) or in a mode HomeKit
    shows as off, with [cool] when it is running in [dry], and with its own
    mode when it is running in [auto], [cool] or [heat].  When that read
    throws, or the tree lacks the switch or the mode, the setter throws:
    nothing is sent and the flag is left as it was. *)
Theorem power_on_sets_mode (onEntry beforeOff : option AcStatus)
    (justSetFanToAuto : bool) :
  (∀ status switchValue m,
     onEntry = Some status → switchSwitch status = Some switchValue →
     airConditionerMode status = Some m →
     ∃ mode,
       setSwitchState true onEntry beforeOff justSetFanToAuto
       = (Handed [ mkCommand "switch" "on" [];
                   mkCommand "airConditionerMode" "setAirConditionerMode"
                     [mode] ],
          justSetFanToAuto)
       ∧ (switchValue = Some "off" → mode = "wind")
       ∧ (switchValue ≠ Some "off" →
          mode = match m with
                 | Some m =>
                     if bool_decide (m = "dry") then "cool"
                     else if bool_decide (m ∈ ["auto"; "cool"; "heat"]) then m
                     else "wind"
                 | None => "wind"
                 end))
  ∧ (onEntry = None
     ∨ (∃ status, onEntry = Some status
                  ∧ (switchSwitch status = None
                     ∨ airConditionerMode status = None)) →
     setSwitchState true onEntry beforeOff justSetFanToAuto
     = (Thrown, justSetFanToAuto)).
Proof.
  split.
  - intros status sw m -> Hsw Hm.
    unfold setSwitchState, getTargetHeatingCoolingState.
    cbn [mbind option_bind]. rewrite Hsw, Hm. cbn [mbind option_bind].
    destruct m as [m|];
      [|eexists; split; [reflexivity|]; split; done].
    destruct (decide (sw = Some "off")) as [->|Hoff].
    + rewrite bool_decide_eq_true_2 by done. cbn [orb].
      eexists. split; [reflexivity|]. split; [done|]. by intros [].
    + rewrite (bool_decide_eq_false_2 (sw = Some "off")) by done. cbn [orb].
      unfold airConditionerModeToTargetHeatingCoolingState.
      destruct (decide (m = EmptyString)) as [->|He].
      { eexists. split; [reflexivity|]. split; done. }
      rewrite (bool_decide_eq_false_2 (m = EmptyString)) by done.
      destruct (decide (m = "dry")) as [->|Hd].
      { eexists. split; [reflexivity|]. split; done. }
      rewrite (bool_decide_eq_false_2 (m = "dry")) by done. cbn [orb].
      destruct (decide (m = "cool")) as [->|Hc].
      { eexists. split; [reflexivity|]. split; done. }
      rewrite (bool_decide_eq_false_2 (m = "cool")) by done.
      destruct (decide (m = "heat")) as [->|Hh].
      { eexists. split; [reflexivity|]. split; done. }
      rewrite (bool_decide_eq_false_2 (m = "heat")) by done.
      destruct (decide (m = "auto")) as [->|Ha].
      { eexists. split; [reflexivity|]. split; done. }
      rewrite (bool_decide_eq_false_2 (m = "auto")) by done.
      eexists. split; [reflexivity|]. split; [done|].
      intros _. rewrite bool_decide_eq_false_2; [done|].
      rewrite !elem_of_cons, elem_of_nil. tauto.
  - unfold setSwitchState, getTargetHeatingCoolingState.
    intros [->|(status & -> & [H|H])]; cbn [mbind option_bind];
      [done|by rewrite H|].
    rewrite H. by destruct (switchSwitch status).
Qed.

Lemma power_on_sets_mode_witness :
  setSwitchState true (Some onInDryMode) None false
  = (Handed [ mkCommand "switch" "on" [];
              mkCommand "airConditionerMode" "setAirConditionerMode"
                ["cool"] ], false)
  ∧ setSwitchState true (Some offInDryMode) None false
    = (Handed [ mkCommand "switch" "on" [];
                mkCommand "airConditionerMode" "setAirConditionerMode"
                  ["wind"] ], false)
  ∧ setSwitchState true (Some emptyStatus) None false = (Thrown, false).
Proof.
  split; [|split].
  - destruct (proj1 (power_on_sets_mode (Some onInDryMode) None false)
                onInDryMode (Some "on") (Some "dry") eq_refl eq_refl eq_refl)
      as (mode & E & _ & H).
    rewrite E, (H ltac:(discriminate)). reflexivity.
  - destruct (proj1 (power_on_sets_mode (Some offInDryMode) None false)
                offInDryMode (Some "off") (Some "dry") eq_refl eq_refl
                eq_refl) as (mode & E & H & _).
    rewrite E, (H eq_refl). reflexivity.
  - apply (proj2 (power_on_sets_mode (Some emptyStatus) None false)).
    right. exists emptyStatus. split; [reflexivity|by left].
Defined.

(** X28.  Setting the fan to a level that means [auto] (0 or less, or 25)
    raises [justSetFanToAuto]; a request to turn the fan off whose status
    read at entry is answered, and that finds the flag raised, sends nothing
    and lowers it, and one that finds it lowered sends [switch off] unless
    the device reports the fan mode [auto]. *)
Theorem off_after_auto_level_is_dropped (level : Z)
    (onEntry beforeOff : option AcStatus) (justSetFanToAuto : bool) :
  level ≤ 0 ∨ level = 25 →
  is_Some (getTargetHeatingCoolingState onEntry) →
  let fan := setFanLevel level justSetFanToAuto in
  fan = ([mkCommand "airConditionerFanMode" "setFanMode" ["auto"]], true)
  ∧ setSwitchState false onEntry beforeOff fan.2 = (NoCommand, false)
  ∧ setSwitchState false onEntry beforeOff false
    = (if bool_decide (beforeOff ≫= fanMode = Some "auto") then NoCommand
       else Handed [mkCommand "switch" "off" []],
       false).
Proof.
  intros Hlevel [state Hentry] fan.
  assert (Hauto : levelToFanMode level = "auto").
  { unfold levelToFanMode.
    repeat (case_bool_decide; cbn [andb]); lia || done. }
  unfold fan, setFanLevel. rewrite Hauto. cbn [snd].
  split; [done|]. unfold setSwitchState. rewrite Hentry.
  split; [done|]. by destruct (bool_decide _).
Qed.

Lemma off_after_auto_level_is_dropped_witness :
  let fan := setFanLevel 25 false in
  fan = ([mkCommand "airConditionerFanMode" "setFanMode" ["auto"]], true)
  ∧ setSwitchState false (Some onInDryMode) (Some onInDryMode) fan.2
    = (NoCommand, false)
  ∧ setSwitchState false (Some onInDryMode) (Some onInDryMode) false
    = (if bool_decide (Some onInDryMode ≫= fanMode = Some "auto")
       then NoCommand else Handed [mkCommand "switch" "off" []],
       false).
Proof.
  apply (off_after_auto_level_is_dropped 25 (Some onInDryMode)
           (Some onInDryMode) false).
  - right. reflexivity.
  - by eexists.
Defined.

(** X29.  An air conditioner service that [addComponent] registers holds the
    five capabilities of its table entry and never [switchLevel]: the
    entry does not list it, so the service's own test for the display
    light fails and its light service is never set up. *)
Theorem air_conditioner_light_is_never_set_up (tv : TvStatics)
    (config : Config) (n : nat) (acc : Accessory) (cid : string)
    (caps : list string) :
  Forall (λ s, kind s = AirConditionerService →
               isCapabilitySupported (capabilities s) "switchLevel" = false
               ∧ Forall (λ c, isCapabilitySupported (capabilities s) c = true)
                   ["switch"; "airConditionerMode"; "airConditionerFanMode";
                    "thermostatCoolingSetpoint"; "temperatureMeasurement"])
    (registered tv config (comboTableAfter n) acc cid caps).
Proof.
  eapply Forall_impl; [apply DiscoveryFacts.registered_provenance|].
  intros s Hfrom Hkind. cbv beta in Hfrom. rewrite Hkind in Hfrom.
  destruct Hfrom as [Hk|[Hk|[(e & He & Hs & Hreq & Hall)
                             |(entry & He & Hs & _)]]];
    [discriminate|discriminate| |].
  - assert (e = mkCombo
                  ["switch"; "airConditionerMode"; "airConditionerFanMode";
                   "thermostatCoolingSetpoint"; "temperatureMeasurement"]
                  (Some ["fanOscillationMode"; "relativeHumidityMeasurement";
                         "custom.airConditionerOptionalMode"])
                  AirConditionerService) as ->.
    { unfold comboCapabilityMap in He.
      repeat (apply elem_of_cons in He as [->|He];
              [first [reflexivity|discriminate Hs]|]).
      by apply elem_of_nil in He. }
    cbn [e_capabilities e_optionalCapabilities default] in Hreq, Hall.
    unfold isCapabilitySupported. split.
    + apply bool_decide_eq_false_2. intros [x Hx].
      apply List.find_some in Hx as [Hin Heq].
      apply bool_decide_eq_true in Heq. subst x.
      apply list_elem_of_In, Hall in Hin. revert Hin.
      ResolverFacts.closed_decision.
    + apply Forall_forall. intros c Hc. apply bool_decide_eq_true_2.
      rewrite (DiscoveryFacts.find_eq_elem (capabilities s) c);
        [by eexists|by apply Hreq].
  - exfalso. unfold capabilityMap in He.
    repeat (apply elem_of_cons in He as [->|He]; [discriminate Hs|]).
    by apply elem_of_nil in He.
Qed.

(** X30.  The guard of [sendCommandsOrFail] never stops a command: whether
    the accessory is online or not, with no command under way the POST
    leaves in the same task. *)
Theorem air_conditioner_commands_ignore_online (w : World) (c : CallId)
    (value : TargetState) :
  jobs w = [] → commandInProgress (dev w) = false →
  let commands := setTargetHeatingCoolingState value in
  let w1 := drain (sendCommandsOrFail c commands w) in
  log w1 = log w ++ [ReqStart (PostCommands c commands)]
  ∧ inflight w1 = inflight w ++ [PostCommands c commands]
  ∧ isOnline (dev w1) = isOnline (dev w).
Proof.
  intros Hj Hc commands w1. unfold w1, sendCommandsOrFail. cbn [negb].
  clearbody commands. SynchronizerFacts.fields w. done.
Qed.

Lemma air_conditioner_commands_ignore_online_witness :
  let commands := setTargetHeatingCoolingState COOL in
  let w1 := drain (sendCommandsOrFail 1 commands anOfflineWorld) in
  log w1 = log anOfflineWorld ++ [ReqStart (PostCommands 1 commands)]
  ∧ inflight w1 = inflight anOfflineWorld ++ [PostCommands 1 commands]
  ∧ isOnline (dev w1) = isOnline (dev anOfflineWorld).
Proof.
  apply (air_conditioner_commands_ignore_online anOfflineWorld 1 COOL);
    reflexivity.
Defined.

End AirConditionerFacts.
